(** * boo: lifetime tokens, audio voices, the AudioQueue engine and the HID listener

    A shallow embedding of
    - [include/boo/graphicsdev/IGraphicsDataFactory.hpp] (the two lifetime tokens),
    - [lib/audiodev/AudioVoice.cpp] (deferred parameters, resampler input
      callback, pump and mix),
    - [lib/audiodev/AQS.cpp] (hardware callback, MIDI endpoint constructors),
    - [src/inputdev/CHIDListenerIOKit.cpp] (hot-plug callbacks),
    with the properties the specification states about them. *)

From Stdlib Require Import ZArith NArith Lia Ascii String Strings.Byte PrimFloat Uint63 FloatOps SpecFloat.
From stdpp Require Import base option list gmap strings pretty.

Set Default Proof Using "Type".
Local Open Scope N_scope.

(** ** Pointers

    A C++ pointer is an address; [0] is [nullptr].  The conversion of a pointer
    to [bool] is the test against [nullptr]. *)

Definition ptr := N.
Definition nullptr : ptr := 0.
Definition nonnull (p : ptr) : bool := negb (p =? 0).

(** ** Machine integers and floating point

    [size_t] is 64 bits wide on the targets of this code (macOS, x86-64 and
    arm64); arithmetic on it wraps. *)

Definition size_t_max : N := 2 ^ 64.
Definition size_t_mul (a b : N) : N := (a * b) mod size_t_max.
Definition size_t_add (a b : N) : N := (a + b) mod size_t_max.
Definition size_t_div (a b : N) : N := a / b.

(** [double(n)] for [n : size_t]: exact below [2^63]; above, the usual
    halve-with-sticky-bit sequence, which rounds correctly. *)
Definition double_of_size_t (n : N) : float :=
  if n <? 2 ^ 63
  then PrimFloat.of_uint63 (Uint63.of_Z (Z.of_N n))
  else PrimFloat.mul 2
         (PrimFloat.of_uint63 (Uint63.of_Z (Z.of_N (N.lor (N.shiftr n 1) (N.land n 1))))).

(** ** Graphics lifetime tokens (IGraphicsDataFactory.hpp) *)

Module Gfx.

(** The factory is an abstract interface: what a token does to it is the
    sequence of private virtual calls it makes. *)
Inductive FactoryCall :=
| destroyData (factory data : ptr)
| destroyPool (factory pool : ptr)
| newPoolBuffer (factory pool : ptr) (stride count : N)
| deletePoolBuffer (factory pool buf : ptr).

Definition FactoryLog := list FactoryCall.

Global Instance FactoryCall_eq_dec : EqDecision FactoryCall.
Proof. solve_decision. Defined.

(** [class GraphicsDataToken] *)
Module GraphicsDataToken.

Record t := mk { m_factory : ptr; m_data : ptr }.

(** [GraphicsDataToken() = default] *)
Definition default : t := mk nullptr nullptr.

(** private [GraphicsDataToken(factory, data)], used by the factories on commit *)
Definition make (factory data : ptr) : t := mk factory data.

(** [operator bool() const] *)
Definition to_bool (tok : t) : bool := nonnull (m_factory tok) && nonnull (m_data tok).

(** [void doDestroy()] *)
Definition doDestroy (tok : t) (log : FactoryLog) : t * FactoryLog :=
  if nonnull (m_factory tok) && nonnull (m_data tok)
  then (mk nullptr nullptr, log ++ [destroyData (m_factory tok) (m_data tok)])
  else (tok, log).

(** [~GraphicsDataToken() {doDestroy();}]: the object is gone afterwards, the
    value returned is what its storage holds. *)
Definition destructor (tok : t) (log : FactoryLog) : t * FactoryLog := doDestroy tok log.

(** [GraphicsDataToken(GraphicsDataToken&& other)]: the new token and the
    moved-from [other]. *)
Definition move_construct (other : t) : t * t :=
  let this := mk (m_factory other) (m_data other) in
  (this, mk nullptr nullptr).

(** [operator=(GraphicsDataToken&& other)] for two distinct objects: the
    assigned token, the moved-from [other], the factory log. *)
Definition move_assign (this other : t) (log : FactoryLog) : t * t * FactoryLog :=
  let '(this1, log1) := doDestroy this log in
  let this2 := mk (m_factory other) (m_data this1) in
  let other1 := mk nullptr (m_data other) in
  let this3 := mk (m_factory this2) (m_data other1) in
  let other2 := mk (m_factory other1) nullptr in
  (this3, other2, log1).

(** [operator=] when [other] is the object itself ([a = std::move(a)]): every
    read of [other] sees the writes to [this]. *)
Definition move_assign_self (this : t) (log : FactoryLog) : t * FactoryLog :=
  let '(this1, log1) := doDestroy this log in
  let this2 := mk (m_factory this1) (m_data this1) in
  let this3 := mk nullptr (m_data this2) in
  let this4 := mk (m_factory this3) (m_data this3) in
  let this5 := mk (m_factory this4) nullptr in
  (this5, log1).

End GraphicsDataToken.

(** [class GraphicsBufferPoolToken] *)
Module GraphicsBufferPoolToken.

Record t := mk { m_factory : ptr; m_pool : ptr }.

Definition default : t := mk nullptr nullptr.

Definition make (factory pool : ptr) : t := mk factory pool.

Definition to_bool (tok : t) : bool := nonnull (m_factory tok) && nonnull (m_pool tok).

Definition doDestroy (tok : t) (log : FactoryLog) : t * FactoryLog :=
  if nonnull (m_factory tok) && nonnull (m_pool tok)
  then (mk nullptr nullptr, log ++ [destroyPool (m_factory tok) (m_pool tok)])
  else (tok, log).

Definition destructor (tok : t) (log : FactoryLog) : t * FactoryLog := doDestroy tok log.

Definition move_construct (other : t) : t * t :=
  let this := mk (m_factory other) (m_pool other) in
  (this, mk nullptr nullptr).

Definition move_assign (this other : t) (log : FactoryLog) : t * t * FactoryLog :=
  let '(this1, log1) := doDestroy this log in
  let this2 := mk (m_factory other) (m_pool this1) in
  let other1 := mk nullptr (m_pool other) in
  let this3 := mk (m_factory this2) (m_pool other1) in
  let other2 := mk (m_factory other1) nullptr in
  (this3, other2, log1).

Definition move_assign_self (this : t) (log : FactoryLog) : t * FactoryLog :=
  let '(this1, log1) := doDestroy this log in
  let this2 := mk (m_factory this1) (m_pool this1) in
  let this3 := mk nullptr (m_pool this2) in
  let this4 := mk (m_factory this3) (m_pool this3) in
  let this5 := mk (m_factory this4) nullptr in
  (this5, log1).

(** [newPoolBuffer(use, stride, count)]: forwards to the factory when there is
    one; the buffer the factory returns is its business. *)
Definition newPoolBuffer (tok : t) (stride count : N) (log : FactoryLog) : bool * FactoryLog :=
  if nonnull (m_factory tok)
  then (true, log ++ [Gfx.newPoolBuffer (m_factory tok) (m_pool tok) stride count])
  else (false, log).

(** [deletePoolBuffer(buf)] *)
Definition deletePoolBuffer (tok : t) (buf : ptr) (log : FactoryLog) : FactoryLog :=
  if nonnull (m_factory tok)
  then log ++ [Gfx.deletePoolBuffer (m_factory tok) (m_pool tok) buf]
  else log.

End GraphicsBufferPoolToken.

(** *** Programs over token objects

    The two classes offer the same members.  Both copy members are deleted
    ([T(const T&) = delete], [T& operator=(const T&) = delete]), so a program
    can only default-construct a token, move-construct one from another, move-
    assign, call [doDestroy], and let a token go out of scope.  [tc_held] is the
    group a token owns, if its two pointers are non-null; [tc_call] is the
    factory call that destroys it. *)
Record TokenClass := mkTokenClass {
  tc_T : Type;
  tc_default : tc_T;
  tc_held : tc_T -> option (ptr * ptr);
  tc_call : ptr -> ptr -> FactoryCall;
  tc_doDestroy : tc_T -> FactoryLog -> tc_T * FactoryLog;
  tc_move_construct : tc_T -> tc_T * tc_T;
  tc_move_assign : tc_T -> tc_T -> FactoryLog -> tc_T * tc_T * FactoryLog;
  tc_move_assign_self : tc_T -> FactoryLog -> tc_T * FactoryLog
}.

Definition DataTokens : TokenClass := {|
  tc_T := GraphicsDataToken.t;
  tc_default := GraphicsDataToken.default;
  tc_held := fun tok =>
    if GraphicsDataToken.to_bool tok
    then Some (GraphicsDataToken.m_factory tok, GraphicsDataToken.m_data tok) else None;
  tc_call := destroyData;
  tc_doDestroy := GraphicsDataToken.doDestroy;
  tc_move_construct := GraphicsDataToken.move_construct;
  tc_move_assign := GraphicsDataToken.move_assign;
  tc_move_assign_self := GraphicsDataToken.move_assign_self
|}.

Definition PoolTokens : TokenClass := {|
  tc_T := GraphicsBufferPoolToken.t;
  tc_default := GraphicsBufferPoolToken.default;
  tc_held := fun tok =>
    if GraphicsBufferPoolToken.to_bool tok
    then Some (GraphicsBufferPoolToken.m_factory tok, GraphicsBufferPoolToken.m_pool tok)
    else None;
  tc_call := destroyPool;
  tc_doDestroy := GraphicsBufferPoolToken.doDestroy;
  tc_move_construct := GraphicsBufferPoolToken.move_construct;
  tc_move_assign := GraphicsBufferPoolToken.move_assign;
  tc_move_assign_self := GraphicsBufferPoolToken.move_assign_self
|}.

(** One statement of a program; token objects are named by numbers.
    [T x;], [T x(std::move(y));], [x = std::move(y);], [x.doDestroy();], and
    the end of [x]'s lifetime. *)
Inductive TokenOp :=
| op_default (x : nat)
| op_move_construct (x y : nat)
| op_move_assign (x y : nat)
| op_doDestroy (x : nat)
| op_end_of_life (x : nat).

(** The live token objects and the factory log.  A statement that names an
    object that is not live, or constructs one that is, is not a program the
    compiler accepts; it does nothing here. *)
Definition exec (K : TokenClass) (op : TokenOp) (st : gmap nat (tc_T K) * FactoryLog)
    : gmap nat (tc_T K) * FactoryLog :=
  let h := st.1 in
  let log := st.2 in
  match op with
  | op_default x =>
      match h !! x with
      | None => (<[x := tc_default K]> h, log)
      | Some _ => st
      end
  | op_move_construct x y =>
      match h !! x, h !! y with
      | None, Some ty =>
          let r := tc_move_construct K ty in
          (<[x := r.1]> (<[y := r.2]> h), log)
      | _, _ => st
      end
  | op_move_assign x y =>
      match h !! x, h !! y with
      | Some tx, Some ty =>
          if decide (x = y)
          then let r := tc_move_assign_self K tx log in (<[x := r.1]> h, r.2)
          else let r := tc_move_assign K tx ty log in (<[x := r.1.1]> (<[y := r.1.2]> h), r.2)
      | _, _ => st
      end
  | op_doDestroy x =>
      match h !! x with
      | Some tx => let r := tc_doDestroy K tx log in (<[x := r.1]> h, r.2)
      | None => st
      end
  | op_end_of_life x =>
      match h !! x with
      | Some tx => let r := tc_doDestroy K tx log in (delete x h, r.2)
      | None => st
      end
  end.

Definition exec_all (K : TokenClass) (ops : list TokenOp) (st : gmap nat (tc_T K) * FactoryLog)
    : gmap nat (tc_T K) * FactoryLog :=
  fold_left (fun st op => exec K op st) ops st.

(** Single ownership: no two live tokens own the same group, no group a live
    token owns has been destroyed, and no group has been destroyed twice. *)
Definition single_owner (K : TokenClass) (st : gmap nat (tc_T K) * FactoryLog) : Prop :=
  (forall x y tx ty g,
     st.1 !! x = Some tx -> st.1 !! y = Some ty ->
     tc_held K tx = Some g -> tc_held K ty = Some g -> x = y)
  /\ (forall x tx f d,
        st.1 !! x = Some tx -> tc_held K tx = Some (f, d) -> tc_call K f d ∉ st.2)
  /\ NoDup st.2.

(** What [exec] relies on, true of both classes. *)
Definition TokenClass_ok (K : TokenClass) : Prop :=
  tc_held K (tc_default K) = None
  /\ (forall tok log,
        tc_doDestroy K tok log
        = match tc_held K tok with
          | Some (f, d) => (tc_default K, log ++ [tc_call K f d])
          | None => (tok, log)
          end)
  /\ (forall other, tc_move_construct K other = (other, tc_default K))
  /\ (forall this other log,
        tc_move_assign K this other log = (other, tc_default K, (tc_doDestroy K this log).2))
  /\ (forall this log,
        tc_move_assign_self K this log = (tc_default K, (tc_doDestroy K this log).2))
  /\ (forall f d f' d', tc_call K f d = tc_call K f' d' -> f = f' /\ d = d').

(** A group is accounted for when a live token owns it or the factory has been
    told to destroy it. *)
Definition accounted (K : TokenClass) (st : gmap nat (tc_T K) * FactoryLog) (g : ptr * ptr)
    : Prop :=
  (exists x tok, st.1 !! x = Some tok /\ tc_held K tok = Some g)
  \/ tc_call K g.1 g.2 ∈ st.2.

End Gfx.

(** ** Swap chains (Vulkan.hpp) *)

Module Vulkan.

(** [struct VulkanContext::Window::SwapChain] and its [Buffer];
    [VK_NULL_HANDLE] is [0]. *)
Record Buffer := mkBuffer {
  m_image : N;
  m_layout : Z
}.

Record SwapChain := mkSwapChain {
  m_format : Z;
  m_swapChain : N;
  m_bufs : list Buffer;
  m_backBuf : N
}.

Definition VK_NULL_HANDLE : N := 0.

(** Calls into the Vulkan dispatch table. *)
Inductive VkCall :=
| DestroySwapchainKHR (dev : N) (swapChain : N).

(** [void destroy(VkDevice dev)] *)
Definition destroy (dev : N) (sc : SwapChain) (log : list VkCall) : SwapChain * list VkCall :=
  let sc := mkSwapChain (m_format sc) (m_swapChain sc) [] (m_backBuf sc) in
  let '(sc, log) :=
    if nonnull (m_swapChain sc)
    then (mkSwapChain (m_format sc) VK_NULL_HANDLE (m_bufs sc) (m_backBuf sc),
          log ++ [DestroySwapchainKHR dev (m_swapChain sc)])
    else (sc, log) in
  (mkSwapChain (m_format sc) (m_swapChain sc) (m_bufs sc) 0, log).

End Vulkan.

(** ** Audio voices (AudioVoice.cpp) *)

Module Audio.

(** *** Data *)

Inductive soxr_datatype_t := SOXR_FLOAT32_I | SOXR_FLOAT64_I | SOXR_INT32_I | SOXR_INT16_I.

(** [AudioVoiceEngineMixInfo], with [m_channelMap.m_channelCount] as
    [m_channelCount]. *)
Record AudioVoiceEngineMixInfo := mkMixInfo {
  m_sampleRate : float;
  m_sampleFormat : soxr_datatype_t;
  m_bitsPerSample : N;
  m_channelCount : N;
  m_periodFrames : N
}.

(** A block of interleaved samples behind a typed pointer: the overloads on
    [int16_t*], [int32_t*] and [float*] become the three tags. *)
Inductive Samples :=
| S16 (l : list Z)
| S32 (l : list Z)
| SFlt (l : list float).

(** What an external writer leaves in a buffer it was handed: the samples it
    wrote replace a prefix; the vector keeps its size (writing past the end is
    undefined behaviour and is left out). *)
Definition store {A} (written buf : list A) : list A := list_inserts 0 written buf.

Definition store16 (w : Samples) (buf : list Z) : list Z :=
  match w with S16 l => store l buf | _ => buf end.
Definition store32 (w : Samples) (buf : list Z) : list Z :=
  match w with S32 l => store l buf | _ => buf end.
Definition storeFlt (w : Samples) (buf : list float) : list float :=
  match w with SFlt l => store l buf | _ => buf end.

(** [std::vector::size()] and the guarded [resize] every scratch vector goes
    through: [if (v.size() < n) v.resize(m);]. *)
Definition vsize {A} (v : list A) : N := N.of_nat (length v).

Definition vresize {A} (zero : A) (n : N) (v : list A) : list A :=
  resize (N.to_nat n) zero v.

Definition grow {A} (zero : A) (n m : N) (v : list A) : list A :=
  if vsize v <? n then vresize zero m v else v.

(** [memset(p, 0, bytes)] on an [int16_t] buffer: [bytes / 2] whole samples. *)
Definition memset16_zero (bytes : N) (buf : list Z) : list Z :=
  store (replicate (N.to_nat (bytes / 2)) 0%Z) buf.

(** Submixes are addressed by pointer: the engine's own main submix or one
    living elsewhere. *)
Inductive SubmixPtr := MainSubmix | HeapSubmix (addr : N).

Global Instance SubmixPtr_eq_dec : EqDecision SubmixPtr.
Proof. solve_decision. Defined.

(** Modelled from the spec: [AudioSubmix] is declared outside these sources.
    Section 4.3: a submix "exposes [merge_buffer(frames)] -> writable slice in
    each sample format (allocating/growing on demand), a bus identifier
    surfaced to the routing callback". *)
Record AudioSubmix := mkSubmix {
  m_busId : Z;
  merge16 : list Z;
  merge32 : list Z;
  mergeFlt : list float
}.

Definition _getMergeBuf16 (info : AudioVoiceEngineMixInfo) (frames : N) (smx : AudioSubmix) : AudioSubmix :=
  let n := size_t_mul frames (m_channelCount info) in
  mkSubmix (m_busId smx) (grow 0%Z n n (merge16 smx)) (merge32 smx) (mergeFlt smx).
Definition _getMergeBuf32 (info : AudioVoiceEngineMixInfo) (frames : N) (smx : AudioSubmix) : AudioSubmix :=
  let n := size_t_mul frames (m_channelCount info) in
  mkSubmix (m_busId smx) (merge16 smx) (grow 0%Z n n (merge32 smx)) (mergeFlt smx).
Definition _getMergeBufFlt (info : AudioVoiceEngineMixInfo) (frames : N) (smx : AudioSubmix) : AudioSubmix :=
  let n := size_t_mul frames (m_channelCount info) in
  mkSubmix (m_busId smx) (merge16 smx) (merge32 smx) (grow 0%float n n (mergeFlt smx)).

Definition set_merge16 (l : list Z) (smx : AudioSubmix) : AudioSubmix :=
  mkSubmix (m_busId smx) l (merge32 smx) (mergeFlt smx).
Definition set_merge32 (l : list Z) (smx : AudioSubmix) : AudioSubmix :=
  mkSubmix (m_busId smx) (merge16 smx) l (mergeFlt smx).
Definition set_mergeFlt (l : list float) (smx : AudioSubmix) : AudioSubmix :=
  mkSubmix (m_busId smx) (merge16 smx) (merge32 smx) l.

(** [BaseAudioVoiceEngine], the [m_root] of every voice: the members
    AudioVoice.cpp touches. *)
Record BaseAudioVoiceEngine := mkRoot {
  m_mixInfo : AudioVoiceEngineMixInfo;
  m_5msFrames : N;
  m_scratchIn : list Z;
  m_scratch16Pre : list Z;
  m_scratch16Post : list Z;
  m_scratch32Pre : list Z;
  m_scratch32Post : list Z;
  m_scratchFltPre : list float;
  m_scratchFltPost : list float;
  m_mainSubmix : AudioSubmix;
  m_submixes : gmap N AudioSubmix;
  m_submixesDirty : bool
}.

Definition set_scratchIn (x : list Z) (r : BaseAudioVoiceEngine) :=
  mkRoot (m_mixInfo r) (m_5msFrames r) x (m_scratch16Pre r) (m_scratch16Post r)
    (m_scratch32Pre r) (m_scratch32Post r) (m_scratchFltPre r) (m_scratchFltPost r)
    (m_mainSubmix r) (m_submixes r) (m_submixesDirty r).
Definition set_scratch16Pre (x : list Z) (r : BaseAudioVoiceEngine) :=
  mkRoot (m_mixInfo r) (m_5msFrames r) (m_scratchIn r) x (m_scratch16Post r)
    (m_scratch32Pre r) (m_scratch32Post r) (m_scratchFltPre r) (m_scratchFltPost r)
    (m_mainSubmix r) (m_submixes r) (m_submixesDirty r).
Definition set_scratch16Post (x : list Z) (r : BaseAudioVoiceEngine) :=
  mkRoot (m_mixInfo r) (m_5msFrames r) (m_scratchIn r) (m_scratch16Pre r) x
    (m_scratch32Pre r) (m_scratch32Post r) (m_scratchFltPre r) (m_scratchFltPost r)
    (m_mainSubmix r) (m_submixes r) (m_submixesDirty r).
Definition set_scratch32Pre (x : list Z) (r : BaseAudioVoiceEngine) :=
  mkRoot (m_mixInfo r) (m_5msFrames r) (m_scratchIn r) (m_scratch16Pre r) (m_scratch16Post r)
    x (m_scratch32Post r) (m_scratchFltPre r) (m_scratchFltPost r)
    (m_mainSubmix r) (m_submixes r) (m_submixesDirty r).
Definition set_scratch32Post (x : list Z) (r : BaseAudioVoiceEngine) :=
  mkRoot (m_mixInfo r) (m_5msFrames r) (m_scratchIn r) (m_scratch16Pre r) (m_scratch16Post r)
    (m_scratch32Pre r) x (m_scratchFltPre r) (m_scratchFltPost r)
    (m_mainSubmix r) (m_submixes r) (m_submixesDirty r).
Definition set_scratchFltPre (x : list float) (r : BaseAudioVoiceEngine) :=
  mkRoot (m_mixInfo r) (m_5msFrames r) (m_scratchIn r) (m_scratch16Pre r) (m_scratch16Post r)
    (m_scratch32Pre r) (m_scratch32Post r) x (m_scratchFltPost r)
    (m_mainSubmix r) (m_submixes r) (m_submixesDirty r).
Definition set_scratchFltPost (x : list float) (r : BaseAudioVoiceEngine) :=
  mkRoot (m_mixInfo r) (m_5msFrames r) (m_scratchIn r) (m_scratch16Pre r) (m_scratch16Post r)
    (m_scratch32Pre r) (m_scratch32Post r) (m_scratchFltPre r) x
    (m_mainSubmix r) (m_submixes r) (m_submixesDirty r).
Definition set_mainSubmix (x : AudioSubmix) (r : BaseAudioVoiceEngine) :=
  mkRoot (m_mixInfo r) (m_5msFrames r) (m_scratchIn r) (m_scratch16Pre r) (m_scratch16Post r)
    (m_scratch32Pre r) (m_scratch32Post r) (m_scratchFltPre r) (m_scratchFltPost r)
    x (m_submixes r) (m_submixesDirty r).
Definition set_submixes (x : gmap N AudioSubmix) (r : BaseAudioVoiceEngine) :=
  mkRoot (m_mixInfo r) (m_5msFrames r) (m_scratchIn r) (m_scratch16Pre r) (m_scratch16Post r)
    (m_scratch32Pre r) (m_scratch32Post r) (m_scratchFltPre r) (m_scratchFltPost r)
    (m_mainSubmix r) x (m_submixesDirty r).
Definition set_submixesDirty (x : bool) (r : BaseAudioVoiceEngine) :=
  mkRoot (m_mixInfo r) (m_5msFrames r) (m_scratchIn r) (m_scratch16Pre r) (m_scratch16Post r)
    (m_scratch32Pre r) (m_scratch32Post r) (m_scratchFltPre r) (m_scratchFltPost r)
    (m_mainSubmix r) (m_submixes r) x.


Definition assign (p : SubmixPtr) (smx : AudioSubmix) (r : BaseAudioVoiceEngine) : BaseAudioVoiceEngine :=
  match p with
  | MainSubmix => set_mainSubmix smx r
  | HeapSubmix a => set_submixes (<[a := smx]> (m_submixes r)) r
  end.

(** *** The voice

    [class AudioVoice] with the send-matrix map of its two subclasses:
    [AudioVoiceMono] holds [AudioMatrixMono] entries, [AudioVoiceStereo] holds
    [AudioMatrixStereo] entries.  [m_src] is the [soxr_t] handle, [m_cb] the
    client's [IAudioVoiceCallback*].  The send map is an associative container
    keyed by the submix pointer; the list holds its entries in the order the
    container iterates them, which is the container's own. *)
Record AudioVoice (Mtx : Type) := mkVoice {
  m_cb : ptr;
  m_dynamicRate : bool;
  m_src : ptr;
  m_sampleRateIn : float;
  m_sampleRateOut : float;
  m_resetSampleRate : bool;
  m_deferredSampleRate : float;
  m_setPitchRatio : bool;
  m_pitchRatio : float;
  m_slew : bool;
  m_running : bool;
  m_bound : bool;
  m_silentOut : bool;
  m_sendMatrices : list (SubmixPtr * Mtx)
}.

Arguments m_cb {Mtx} _.
Arguments m_dynamicRate {Mtx} _.
Arguments m_src {Mtx} _.
Arguments m_sampleRateIn {Mtx} _.
Arguments m_sampleRateOut {Mtx} _.
Arguments m_resetSampleRate {Mtx} _.
Arguments m_deferredSampleRate {Mtx} _.
Arguments m_setPitchRatio {Mtx} _.
Arguments m_pitchRatio {Mtx} _.
Arguments m_slew {Mtx} _.
Arguments m_running {Mtx} _.
Arguments m_bound {Mtx} _.
Arguments m_silentOut {Mtx} _.
Arguments m_sendMatrices {Mtx} _.
Arguments mkVoice {Mtx}.

Definition set_m_src {Mtx} (x : ptr) (v : AudioVoice Mtx) : AudioVoice Mtx :=
  mkVoice (m_cb v) (m_dynamicRate v) x (m_sampleRateIn v) (m_sampleRateOut v) (m_resetSampleRate v) (m_deferredSampleRate v) (m_setPitchRatio v) (m_pitchRatio v) (m_slew v) (m_running v) (m_bound v) (m_silentOut v) (m_sendMatrices v).
Definition set_m_sampleRateIn {Mtx} (x : float) (v : AudioVoice Mtx) : AudioVoice Mtx :=
  mkVoice (m_cb v) (m_dynamicRate v) (m_src v) x (m_sampleRateOut v) (m_resetSampleRate v) (m_deferredSampleRate v) (m_setPitchRatio v) (m_pitchRatio v) (m_slew v) (m_running v) (m_bound v) (m_silentOut v) (m_sendMatrices v).
Definition set_m_sampleRateOut {Mtx} (x : float) (v : AudioVoice Mtx) : AudioVoice Mtx :=
  mkVoice (m_cb v) (m_dynamicRate v) (m_src v) (m_sampleRateIn v) x (m_resetSampleRate v) (m_deferredSampleRate v) (m_setPitchRatio v) (m_pitchRatio v) (m_slew v) (m_running v) (m_bound v) (m_silentOut v) (m_sendMatrices v).
Definition set_m_resetSampleRate {Mtx} (x : bool) (v : AudioVoice Mtx) : AudioVoice Mtx :=
  mkVoice (m_cb v) (m_dynamicRate v) (m_src v) (m_sampleRateIn v) (m_sampleRateOut v) x (m_deferredSampleRate v) (m_setPitchRatio v) (m_pitchRatio v) (m_slew v) (m_running v) (m_bound v) (m_silentOut v) (m_sendMatrices v).
Definition set_m_deferredSampleRate {Mtx} (x : float) (v : AudioVoice Mtx) : AudioVoice Mtx :=
  mkVoice (m_cb v) (m_dynamicRate v) (m_src v) (m_sampleRateIn v) (m_sampleRateOut v) (m_resetSampleRate v) x (m_setPitchRatio v) (m_pitchRatio v) (m_slew v) (m_running v) (m_bound v) (m_silentOut v) (m_sendMatrices v).
Definition set_m_setPitchRatio {Mtx} (x : bool) (v : AudioVoice Mtx) : AudioVoice Mtx :=
  mkVoice (m_cb v) (m_dynamicRate v) (m_src v) (m_sampleRateIn v) (m_sampleRateOut v) (m_resetSampleRate v) (m_deferredSampleRate v) x (m_pitchRatio v) (m_slew v) (m_running v) (m_bound v) (m_silentOut v) (m_sendMatrices v).
Definition set_m_pitchRatio {Mtx} (x : float) (v : AudioVoice Mtx) : AudioVoice Mtx :=
  mkVoice (m_cb v) (m_dynamicRate v) (m_src v) (m_sampleRateIn v) (m_sampleRateOut v) (m_resetSampleRate v) (m_deferredSampleRate v) (m_setPitchRatio v) x (m_slew v) (m_running v) (m_bound v) (m_silentOut v) (m_sendMatrices v).
Definition set_m_slew {Mtx} (x : bool) (v : AudioVoice Mtx) : AudioVoice Mtx :=
  mkVoice (m_cb v) (m_dynamicRate v) (m_src v) (m_sampleRateIn v) (m_sampleRateOut v) (m_resetSampleRate v) (m_deferredSampleRate v) (m_setPitchRatio v) (m_pitchRatio v) x (m_running v) (m_bound v) (m_silentOut v) (m_sendMatrices v).
Definition set_m_running {Mtx} (x : bool) (v : AudioVoice Mtx) : AudioVoice Mtx :=
  mkVoice (m_cb v) (m_dynamicRate v) (m_src v) (m_sampleRateIn v) (m_sampleRateOut v) (m_resetSampleRate v) (m_deferredSampleRate v) (m_setPitchRatio v) (m_pitchRatio v) (m_slew v) x (m_bound v) (m_silentOut v) (m_sendMatrices v).
Definition set_m_bound {Mtx} (x : bool) (v : AudioVoice Mtx) : AudioVoice Mtx :=
  mkVoice (m_cb v) (m_dynamicRate v) (m_src v) (m_sampleRateIn v) (m_sampleRateOut v) (m_resetSampleRate v) (m_deferredSampleRate v) (m_setPitchRatio v) (m_pitchRatio v) (m_slew v) (m_running v) x (m_silentOut v) (m_sendMatrices v).
Definition set_m_sendMatrices {Mtx} (x : list (SubmixPtr * Mtx)) (v : AudioVoice Mtx) : AudioVoice Mtx :=
  mkVoice (m_cb v) (m_dynamicRate v) (m_src v) (m_sampleRateIn v) (m_sampleRateOut v) (m_resetSampleRate v) (m_deferredSampleRate v) (m_setPitchRatio v) (m_pitchRatio v) (m_slew v) (m_running v) (m_bound v) (m_silentOut v) x.

(** *** The world outside AudioVoice.cpp

    The public [IAudioVoice] methods a client may call on the voice it is
    handed in a callback. *)
Inductive VoiceCall :=
| call_resetSampleRate (sampleRate : float)
| call_resetChannelLevels
| call_setMonoChannelLevels (submix : option SubmixPtr) (coefs : list float) (slew : bool)
| call_setStereoChannelLevels (submix : option SubmixPtr) (coefs : list (float * float)) (slew : bool)
| call_setPitchRatio (ratio : float) (slew : bool)
| call_start
| call_stop.

(** Every call that leaves AudioVoice.cpp, in program order. *)
Inductive Event :=
| ev_soxr_delete (src : ptr)
| ev_soxr_create (rateIn rateOut : float) (chans : N) (fmtOut : soxr_datatype_t) (vr : bool)
| ev_soxr_set_input_fn (src : ptr) (chans : N)
| ev_soxr_set_io_ratio (src : ptr) (ratio : float) (slew : N)
| ev_soxr_output (src : ptr) (frames : N)
| ev_Log_report_Fatal (msg : string)
| ev_preSupplyAudio (cb : ptr) (dt : float)
| ev_supplyAudio (cb : ptr) (frames : N)
| ev_routeAudio (cb : ptr) (frames channels : N) (dt : float) (busId : Z).

(** One [soxr_output] call as the resampler drives it: it asks its input
    function for frames any number of times, looking at the buffer and the
    count it gets back, and ends with the samples it wrote to the output
    pointer and the number of output frames. *)
Inductive SoxrRun :=
| soxr_pull (frames : N) (k : list Z -> N -> SoxrRun)
| soxr_done (out : Samples) (odone : N).

(** libsoxr and the client's [IAudioVoiceCallback] are outside the
    repository: what they return is a function of everything that has
    happened so far and of the arguments.  [soxr_error_t] is a message or
    null.

    The standard library's associative container is outside it too.  When a
    key is emplaced the container decides where every entry comes in its
    iteration order: [send_order tr keys k] is the rank it gives key [k] once
    it holds [keys], after the outside calls [tr]; entries are iterated by
    ascending rank.

    [stray_submix a] is what the memory at address [a] reads as when no live
    submix is there.  The loops of the source dereference every key of the
    send map without a test; with a key that is not live that is undefined
    behaviour, which the invariant of section 3 of the specification excludes
    (the keys of a send map are live submixes). *)
Class World := {
  soxr_create : list Event -> float -> float -> N -> soxr_datatype_t -> bool -> ptr * option string;
  soxr_set_io_ratio : list Event -> ptr -> float -> N -> option string;
  soxr_output : list Event -> ptr -> N -> SoxrRun;
  preSupplyAudio : list Event -> ptr -> float -> list VoiceCall;
  supplyAudio : list Event -> ptr -> N -> list Z -> list VoiceCall * list Z * N;
  routeAudio : list Event -> ptr -> N -> N -> float -> Z -> Samples -> Samples -> Samples;
  send_order : list Event -> list SubmixPtr -> SubmixPtr -> N;
  stray_submix : N -> AudioSubmix
}.

(** [AudioMatrixMono] and [AudioMatrixStereo] are classes of the repository
    declared outside these sources: their state, their default constructor,
    [setMatrixCoefficients] and the mixing overloads are taken as given.  A
    mixing call returns the matrix with its slew state advanced and the samples
    it left in the output buffer. *)
Class Matrices := {
  AudioMatrixMono : Type;
  AudioMatrixStereo : Type;
  AudioMatrixMono_new : AudioMatrixMono;
  AudioMatrixStereo_new : AudioMatrixStereo;
  setMatrixCoefficientsMono : list float -> N -> AudioMatrixMono -> AudioMatrixMono;
  setMatrixCoefficientsStereo : list (float * float) -> N -> AudioMatrixStereo -> AudioMatrixStereo;
  mixMonoSampleData : AudioVoiceEngineMixInfo -> Samples -> Samples -> N -> AudioMatrixMono -> AudioMatrixMono * Samples;
  mixStereoSampleData : AudioVoiceEngineMixInfo -> Samples -> Samples -> N -> AudioMatrixStereo -> AudioMatrixStereo * Samples
}.

Section Voice.
Context `{W : World} `{MX : Matrices}.

(** *** State threaded through the member functions

    [this], the engine it refers to as [m_root], the two file-level statics
    [DefaultMonoMtx] and [DefaultStereoMtx], and the trace of outside calls. *)
Record State (Mtx : Type) := mkState {
  this : AudioVoice Mtx;
  m_root : BaseAudioVoiceEngine;
  DefaultMonoMtx : AudioMatrixMono;
  DefaultStereoMtx : AudioMatrixStereo;
  trace : list Event
}.

Arguments mkState {Mtx}.
Arguments this {Mtx} _.
Arguments m_root {Mtx} _.
Arguments DefaultMonoMtx {Mtx} _.
Arguments DefaultStereoMtx {Mtx} _.
Arguments trace {Mtx} _.

Definition M (Mtx A : Type) : Type := State Mtx -> A * State Mtx.

Definition ret {Mtx A} (a : A) : M Mtx A := fun s => (a, s).
Definition bind {Mtx A B} (m : M Mtx A) (k : A -> M Mtx B) : M Mtx B :=
  fun s => let '(a, s1) := m s in k a s1.

Notation "'let*' x ':=' m 'in' k" := (bind m (fun x => k))
  (at level 10, x name, m at level 100, k at level 200).
Notation "m ';;' k" := (bind m (fun _ => k))
  (at level 100, k at level 200, right associativity).

Definition get_this {Mtx} : M Mtx (AudioVoice Mtx) := fun s => (this s, s).
Definition get_root {Mtx} : M Mtx BaseAudioVoiceEngine := fun s => (m_root s, s).
Definition get_trace {Mtx} : M Mtx (list Event) := fun s => (trace s, s).
Definition upd_this {Mtx} (f : AudioVoice Mtx -> AudioVoice Mtx) : M Mtx unit :=
  fun s => (tt, mkState (f (this s)) (m_root s) (DefaultMonoMtx s) (DefaultStereoMtx s) (trace s)).
Definition upd_root {Mtx} (f : BaseAudioVoiceEngine -> BaseAudioVoiceEngine) : M Mtx unit :=
  fun s => (tt, mkState (this s) (f (m_root s)) (DefaultMonoMtx s) (DefaultStereoMtx s) (trace s)).
Definition emit {Mtx} (e : Event) : M Mtx unit :=
  fun s => (tt, mkState (this s) (m_root s) (DefaultMonoMtx s) (DefaultStereoMtx s) (trace s ++ [e])).
Definition get_DefaultMonoMtx {Mtx} : M Mtx AudioMatrixMono := fun s => (DefaultMonoMtx s, s).
Definition get_DefaultStereoMtx {Mtx} : M Mtx AudioMatrixStereo := fun s => (DefaultStereoMtx s, s).
Definition put_DefaultMonoMtx {Mtx} (x : AudioMatrixMono) : M Mtx unit :=
  fun s => (tt, mkState (this s) (m_root s) x (DefaultStereoMtx s) (trace s)).
Definition put_DefaultStereoMtx {Mtx} (x : AudioMatrixStereo) : M Mtx unit :=
  fun s => (tt, mkState (this s) (m_root s) (DefaultMonoMtx s) x (trace s)).

(** [Log.report(logvisor::Fatal, ...)]: recorded; the statements the source
    places after it are kept. *)
Definition Log_report_Fatal {Mtx} (msg : string) : M Mtx unit := emit (ev_Log_report_Fatal msg).

(** *** [AudioVoice]: the base class *)

(** [void AudioVoice::_setPitchRatio(double ratio, bool slew)] *)
Definition _setPitchRatio {Mtx} (ratio : float) (slew : bool) : M Mtx unit :=
  let* v := get_this in
  if m_dynamicRate v then
    let* r := get_root in
    let* tr := get_trace in
    let io_ratio := PrimFloat.div (PrimFloat.mul ratio (m_sampleRateIn v)) (m_sampleRateOut v) in
    let slew_len := if slew then m_5msFrames r else 0 in
    emit (ev_soxr_set_io_ratio (m_src v) io_ratio slew_len) ;;
    match soxr_set_io_ratio tr (m_src v) io_ratio slew_len with
    | Some err =>
        Log_report_Fatal ("unable to set resampler rate: " +:+ err) ;;
        upd_this (set_m_setPitchRatio false)
    | None => upd_this (set_m_setPitchRatio false)
    end
  else upd_this (set_m_setPitchRatio false).

(** [void AudioVoice::_midUpdate()]; [_resetSampleRate] is virtual. *)
Definition _midUpdate {Mtx} (_resetSampleRate : float -> M Mtx unit) : M Mtx unit :=
  let* v := get_this in
  (if m_resetSampleRate v then _resetSampleRate (m_deferredSampleRate v) else ret tt) ;;
  let* v := get_this in
  if m_setPitchRatio v then _setPitchRatio (m_pitchRatio v) (m_slew v) else ret tt.

(** [void AudioVoice::setPitchRatio(double ratio, bool slew)] *)
Definition setPitchRatio {Mtx} (ratio : float) (slew : bool) : M Mtx unit :=
  upd_this (set_m_setPitchRatio true) ;;
  upd_this (set_m_pitchRatio ratio) ;;
  upd_this (set_m_slew slew).

(** [void AudioVoice::resetSampleRate(double sampleRate)] *)
Definition resetSampleRate {Mtx} (sampleRate : float) : M Mtx unit :=
  upd_this (set_m_resetSampleRate true) ;;
  upd_this (set_m_deferredSampleRate sampleRate).

(** [void AudioVoice::start()], [void AudioVoice::stop()] *)
Definition start {Mtx} : M Mtx unit := upd_this (set_m_running true).
Definition stop {Mtx} : M Mtx unit := upd_this (set_m_running false).

(** *** Helpers shared by the two subclasses *)

(** [*reinterpret_cast<AudioSubmix*>(mtx.first)]: the read the loops make
    through a key of the send map, without a test. *)
Definition load (p : SubmixPtr) (r : BaseAudioVoiceEngine) : AudioSubmix :=
  match p with
  | MainSubmix => m_mainSubmix r
  | HeapSubmix a => default (stray_submix a) (m_submixes r !! a)
  end.

(** The entries of a container in the iteration order its ranks give:
    an entry goes before the first one whose rank is not smaller. *)
Fixpoint insert_ranked {Mtx} (rank : SubmixPtr -> N) (e : SubmixPtr * Mtx)
    (l : list (SubmixPtr * Mtx)) : list (SubmixPtr * Mtx) :=
  match l with
  | [] => [e]
  | e' :: l' => if rank e.1 <=? rank e'.1 then e :: l else e' :: insert_ranked rank e l'
  end.

(** [m_sendMatrices.emplace(submix, Matrix{})] for a key the map does not
    hold: the new entry is in, and the container has placed every entry. *)
Definition emplace {Mtx} (tr : list Event) (key : SubmixPtr) (fresh : Mtx)
    (sends : list (SubmixPtr * Mtx)) : list (SubmixPtr * Mtx) :=
  let all := sends ++ [(key, fresh)] in
  foldr (insert_ranked (send_order tr (map fst all))) [] all.

(** The send-matrix map: [find] then [emplace(submix, Matrix{})] when absent,
    then an update of the entry found. *)
Definition sends_update {Mtx} (tr : list Event) (key : SubmixPtr) (fresh : Mtx) (f : Mtx -> Mtx)
    (sends : list (SubmixPtr * Mtx)) : list (SubmixPtr * Mtx) :=
  let sends1 :=
    if existsb (fun e => bool_decide (e.1 = key)) sends then sends
    else emplace tr key fresh sends in
  map (fun e => if bool_decide (e.1 = key) then (e.1, f e.2) else e) sends1.

(** A batch of public calls made by the client from inside a callback, in
    order; [call] dispatches one of them on the voice's class. *)
Fixpoint run_calls {Mtx} (call : VoiceCall -> M Mtx unit) (cs : list VoiceCall) : M Mtx unit :=
  match cs with
  | [] => ret tt
  | c :: cs' => call c ;; run_calls call cs'
  end.

(** [soxr_output(m_src, out, frames)]: every request of the resampler goes
    through the voice's input function. *)
Fixpoint run_soxr {Mtx} (SRCCallback : N -> M Mtx N) (run : SoxrRun) : M Mtx (Samples * N) :=
  match run with
  | soxr_pull frames k =>
      fun s => let '(got, s1) := SRCCallback frames s in
               run_soxr SRCCallback (k (m_scratchIn (m_root s1)) got) s1
  | soxr_done out odone => ret (out, odone)
  end.

Definition call_soxr_output {Mtx} (SRCCallback : N -> M Mtx N) (frames : N) : M Mtx (Samples * N) :=
  let* v := get_this in
  let* tr := get_trace in
  emit (ev_soxr_output (m_src v) frames) ;;
  run_soxr SRCCallback (soxr_output tr (m_src v) frames).

(** [m_cb->preSupplyAudio] on this voice with [dt] *)
Definition call_preSupplyAudio {Mtx} (call : VoiceCall -> M Mtx unit) (dt : float) : M Mtx unit :=
  let* v := get_this in
  let* tr := get_trace in
  emit (ev_preSupplyAudio (m_cb v) dt) ;;
  run_calls call (preSupplyAudio tr (m_cb v) dt).

(** [m_cb->supplyAudio] on this voice: the frame count the client reports;
    its samples are left in [scratchIn]. *)
Definition call_supplyAudio {Mtx} (call : VoiceCall -> M Mtx unit) (frames : N) : M Mtx N :=
  let* v := get_this in
  let* r := get_root in
  let* tr := get_trace in
  emit (ev_supplyAudio (m_cb v) frames) ;;
  let '(calls, written, done) := supplyAudio tr (m_cb v) frames (m_scratchIn r) in
  upd_root (fun r => set_scratchIn (store written (m_scratchIn r)) r) ;;
  run_calls call calls ;;
  ret done.

(** [m_cb->routeAudio(frames, channels, dt, busId, in, out)]: the samples the
    client wrote to [out]. *)
Definition call_routeAudio {Mtx} (frames channels : N) (dt : float) (busId : Z)
    (input output : Samples) : M Mtx Samples :=
  let* v := get_this in
  let* tr := get_trace in
  emit (ev_routeAudio (m_cb v) frames channels dt busId) ;;
  ret (routeAudio tr (m_cb v) frames channels dt busId input output).

(** *** [AudioVoiceMono] *)

(** [void AudioVoiceMono::_resetSampleRate(double sampleRate)] *)
Definition AudioVoiceMono_resetSampleRate (sampleRate : float) : M AudioMatrixMono unit :=
  let* v := get_this in
  emit (ev_soxr_delete (m_src v)) ;;
  let* r := get_root in
  let rateOut := m_sampleRate (m_mixInfo r) in
  let formatOut := m_sampleFormat (m_mixInfo r) in
  let* tr := get_trace in
  emit (ev_soxr_create sampleRate rateOut 1 formatOut (m_dynamicRate v)) ;;
  let '(src, err) := soxr_create tr sampleRate rateOut 1 formatOut (m_dynamicRate v) in
  upd_this (set_m_src src) ;;
  match err with
  | Some msg =>
      Log_report_Fatal ("unable to create soxr resampler: " +:+ msg) ;;
      upd_this (set_m_resetSampleRate false)
  | None =>
      upd_this (set_m_sampleRateIn sampleRate) ;;
      upd_this (set_m_sampleRateOut rateOut) ;;
      emit (ev_soxr_set_input_fn src 1) ;;
      let* v := get_this in
      _setPitchRatio (m_pitchRatio v) false ;;
      upd_this (set_m_resetSampleRate false)
  end.

(** [void AudioVoiceMono::resetChannelLevels()] *)
Definition AudioVoiceMono_resetChannelLevels : M AudioMatrixMono unit :=
  upd_root (set_submixesDirty true) ;;
  upd_this (set_m_sendMatrices []).

(** [void AudioVoiceMono::setMonoChannelLevels(IAudioSubmix* submix, const float coefs[8], bool slew)] *)
Definition AudioVoiceMono_setMonoChannelLevels (submix : option SubmixPtr) (coefs : list float)
    (slew : bool) : M AudioMatrixMono unit :=
  let submix := match submix with None => MainSubmix | Some p => p end in
  let* r := get_root in
  let* tr := get_trace in
  upd_this (fun v => set_m_sendMatrices
    (sends_update tr submix AudioMatrixMono_new
       (setMatrixCoefficientsMono coefs (if slew then m_5msFrames r else 0))
       (m_sendMatrices v)) v).

(** [void AudioVoiceMono::setStereoChannelLevels(IAudioSubmix* submix, const float coefs[8][2], bool slew)] *)
Definition AudioVoiceMono_setStereoChannelLevels (submix : option SubmixPtr)
    (coefs : list (float * float)) (slew : bool) : M AudioMatrixMono unit :=
  let newCoefs := map fst coefs in
  let submix := match submix with None => MainSubmix | Some p => p end in
  let* r := get_root in
  let* tr := get_trace in
  upd_this (fun v => set_m_sendMatrices
    (sends_update tr submix AudioMatrixMono_new
       (setMatrixCoefficientsMono newCoefs (if slew then m_5msFrames r else 0))
       (m_sendMatrices v)) v).

(** A public call on a mono voice. *)
Definition AudioVoiceMono_call (c : VoiceCall) : M AudioMatrixMono unit :=
  match c with
  | call_resetSampleRate sr => resetSampleRate sr
  | call_resetChannelLevels => AudioVoiceMono_resetChannelLevels
  | call_setMonoChannelLevels p coefs slew => AudioVoiceMono_setMonoChannelLevels p coefs slew
  | call_setStereoChannelLevels p coefs slew => AudioVoiceMono_setStereoChannelLevels p coefs slew
  | call_setPitchRatio ratio slew => setPitchRatio ratio slew
  | call_start => start
  | call_stop => stop
  end.

(** [size_t AudioVoiceMono::SRCCallback(AudioVoiceMono* ctx, int16_t** data, size_t frames)];
    [*data] is [scratchIn.data()] on return. *)
Definition AudioVoiceMono_SRCCallback (frames : N) : M AudioMatrixMono N :=
  upd_root (fun r => set_scratchIn (grow 0%Z frames frames (m_scratchIn r)) r) ;;
  let* ctx := get_this in
  if m_silentOut ctx then
    upd_root (fun r => set_scratchIn (memset16_zero (size_t_mul frames 2) (m_scratchIn r)) r) ;;
    ret frames
  else
    call_supplyAudio AudioVoiceMono_call frames.

(** *** [AudioVoiceStereo] *)

(** [void AudioVoiceStereo::_resetSampleRate(double sampleRate)] *)
Definition AudioVoiceStereo_resetSampleRate (sampleRate : float) : M AudioMatrixStereo unit :=
  let* v := get_this in
  emit (ev_soxr_delete (m_src v)) ;;
  let* r := get_root in
  let rateOut := m_sampleRate (m_mixInfo r) in
  let formatOut := m_sampleFormat (m_mixInfo r) in
  let* tr := get_trace in
  emit (ev_soxr_create sampleRate rateOut 2 formatOut (m_dynamicRate v)) ;;
  let '(src, err) := soxr_create tr sampleRate rateOut 2 formatOut (m_dynamicRate v) in
  upd_this (set_m_src src) ;;
  if negb (nonnull src) then
    Log_report_Fatal ("unable to create soxr resampler: " +:+ default "" err) ;;
    upd_this (set_m_resetSampleRate false)
  else
    upd_this (set_m_sampleRateIn sampleRate) ;;
    upd_this (set_m_sampleRateOut rateOut) ;;
    emit (ev_soxr_set_input_fn src 2) ;;
    let* v := get_this in
    _setPitchRatio (m_pitchRatio v) false ;;
    upd_this (set_m_resetSampleRate false).

(** [void AudioVoiceStereo::resetChannelLevels()] *)
Definition AudioVoiceStereo_resetChannelLevels : M AudioMatrixStereo unit :=
  upd_root (set_submixesDirty true) ;;
  upd_this (set_m_sendMatrices []).

(** [void AudioVoiceStereo::setMonoChannelLevels(IAudioSubmix* submix, const float coefs[8], bool slew)] *)
Definition AudioVoiceStereo_setMonoChannelLevels (submix : option SubmixPtr) (coefs : list float)
    (slew : bool) : M AudioMatrixStereo unit :=
  let newCoefs := map (fun c => (c, c)) coefs in
  let submix := match submix with None => MainSubmix | Some p => p end in
  let* r := get_root in
  let* tr := get_trace in
  upd_this (fun v => set_m_sendMatrices
    (sends_update tr submix AudioMatrixStereo_new
       (setMatrixCoefficientsStereo newCoefs (if slew then m_5msFrames r else 0))
       (m_sendMatrices v)) v).

(** [void AudioVoiceStereo::setStereoChannelLevels(IAudioSubmix* submix, const float coefs[8][2], bool slew)] *)
Definition AudioVoiceStereo_setStereoChannelLevels (submix : option SubmixPtr)
    (coefs : list (float * float)) (slew : bool) : M AudioMatrixStereo unit :=
  let submix := match submix with None => MainSubmix | Some p => p end in
  let* r := get_root in
  let* tr := get_trace in
  upd_this (fun v => set_m_sendMatrices
    (sends_update tr submix AudioMatrixStereo_new
       (setMatrixCoefficientsStereo coefs (if slew then m_5msFrames r else 0))
       (m_sendMatrices v)) v).

(** A public call on a stereo voice. *)
Definition AudioVoiceStereo_call (c : VoiceCall) : M AudioMatrixStereo unit :=
  match c with
  | call_resetSampleRate sr => resetSampleRate sr
  | call_resetChannelLevels => AudioVoiceStereo_resetChannelLevels
  | call_setMonoChannelLevels p coefs slew => AudioVoiceStereo_setMonoChannelLevels p coefs slew
  | call_setStereoChannelLevels p coefs slew => AudioVoiceStereo_setStereoChannelLevels p coefs slew
  | call_setPitchRatio ratio slew => setPitchRatio ratio slew
  | call_start => start
  | call_stop => stop
  end.

(** [size_t AudioVoiceStereo::SRCCallback(AudioVoiceStereo* ctx, int16_t** data, size_t frames)] *)
Definition AudioVoiceStereo_SRCCallback (frames : N) : M AudioMatrixStereo N :=
  let samples := size_t_mul frames 2 in
  upd_root (fun r => set_scratchIn (grow 0%Z samples samples (m_scratchIn r)) r) ;;
  let* ctx := get_this in
  if m_silentOut ctx then
    upd_root (fun r => set_scratchIn (memset16_zero (size_t_mul samples 2) (m_scratchIn r)) r) ;;
    ret frames
  else
    call_supplyAudio AudioVoiceStereo_call frames.

(** *** Pump and mix

    The six [pumpAndMix] members are one text instantiated at three sample
    formats and two channel counts.  A [Format] names the members a format's
    copy touches; a [VoiceClass] is what differs between the two subclasses. *)
Record Format (A : Type) := mkFormat {
  f_zero : A;
  f_tag : list A -> Samples;
  f_store : Samples -> list A -> list A;
  f_pre : BaseAudioVoiceEngine -> list A;
  f_set_pre : list A -> BaseAudioVoiceEngine -> BaseAudioVoiceEngine;
  f_post : BaseAudioVoiceEngine -> list A;
  f_set_post : list A -> BaseAudioVoiceEngine -> BaseAudioVoiceEngine;
  f_getMergeBuf : AudioVoiceEngineMixInfo -> N -> AudioSubmix -> AudioSubmix;
  f_merge : AudioSubmix -> list A;
  f_set_merge : list A -> AudioSubmix -> AudioSubmix
}.

Arguments f_zero {A} _.
Arguments f_tag {A} _ _.
Arguments f_store {A} _ _ _.
Arguments f_pre {A} _ _.
Arguments f_set_pre {A} _ _ _.
Arguments f_post {A} _ _.
Arguments f_set_post {A} _ _ _.
Arguments f_getMergeBuf {A} _ _ _ _.
Arguments f_merge {A} _ _.
Arguments f_set_merge {A} _ _ _.

Definition Fmt16 : Format Z :=
  mkFormat Z 0%Z S16 store16 m_scratch16Pre set_scratch16Pre m_scratch16Post set_scratch16Post
    _getMergeBuf16 merge16 set_merge16.
Definition Fmt32 : Format Z :=
  mkFormat Z 0%Z S32 store32 m_scratch32Pre set_scratch32Pre m_scratch32Post set_scratch32Post
    _getMergeBuf32 merge32 set_merge32.
Definition FmtFlt : Format float :=
  mkFormat float 0%float SFlt storeFlt m_scratchFltPre set_scratchFltPre m_scratchFltPost
    set_scratchFltPost _getMergeBufFlt mergeFlt set_mergeFlt.

Record VoiceClass (Mtx : Type) := mkClass {
  c_channels : N;
  c_resetSampleRate : float -> M Mtx unit;
  c_created : ptr * option string -> bool;
  c_SRCCallback : N -> M Mtx N;
  c_call : VoiceCall -> M Mtx unit;
  c_mixSampleData : AudioVoiceEngineMixInfo -> Samples -> Samples -> N -> Mtx -> Mtx * Samples;
  c_get_Default : M Mtx Mtx;
  c_put_Default : Mtx -> M Mtx unit
}.

Arguments c_channels {Mtx} _.
Arguments c_resetSampleRate {Mtx} _ _.
Arguments c_created {Mtx} _ _.
Arguments c_SRCCallback {Mtx} _ _.
Arguments c_call {Mtx} _ _.
Arguments c_mixSampleData {Mtx} _ _ _ _ _ _.
Arguments c_get_Default {Mtx} _.
Arguments c_put_Default {Mtx} _ _.

(** The test each [_resetSampleRate] makes on what [soxr_create] gave, the
    handle and the error: [if (err)] in the mono voice, [if (!m_src)] in the
    stereo voice. *)
Definition created_mono (made : ptr * option string) : bool :=
  match made.2 with None => true | Some _ => false end.
Definition created_stereo (made : ptr * option string) : bool := nonnull made.1.

Definition Mono : VoiceClass AudioMatrixMono :=
  mkClass AudioMatrixMono 1 AudioVoiceMono_resetSampleRate created_mono AudioVoiceMono_SRCCallback
    AudioVoiceMono_call mixMonoSampleData get_DefaultMonoMtx put_DefaultMonoMtx.
Definition Stereo : VoiceClass AudioMatrixStereo :=
  mkClass AudioMatrixStereo 2 AudioVoiceStereo_resetSampleRate created_stereo
    AudioVoiceStereo_SRCCallback
    AudioVoiceStereo_call mixStereoSampleData get_DefaultStereoMtx put_DefaultStereoMtx.

(** The two statements every destination gets:
    [m_cb->routeAudio(oDone, channels, dt, smx.m_busId, pre.data(), post.data());]
    [mtx.mixSampleData(m_root.m_mixInfo, post.data(), smx._getMergeBuf(oDone), oDone);]
    with [smx] the submix behind [p]. *)
Definition route_and_mix {A Mtx} (F : Format A) (C : VoiceClass Mtx) (oDone : N) (dt : float)
    (p : SubmixPtr) (smx : AudioSubmix) (mtx : Mtx) : M Mtx Mtx :=
  let* r := get_root in
  let* routed := call_routeAudio oDone (c_channels C) dt (m_busId smx)
                   (f_tag F (f_pre F r)) (f_tag F (f_post F r)) in
  upd_root (fun r => f_set_post F (f_store F routed (f_post F r)) r) ;;
  let* r := get_root in
  let smx1 := f_getMergeBuf F (m_mixInfo r) oDone smx in
  let '(mtx1, mixed) :=
    c_mixSampleData C (m_mixInfo r) (f_tag F (f_post F r)) (f_tag F (f_merge F smx1)) oDone mtx in
  upd_root (assign p (f_set_merge F (f_store F mixed (f_merge F smx1)) smx1)) ;;
  ret mtx1.

(** [for (auto& mtx : m_sendMatrices) { AudioSubmix& smx = *reinterpret_cast<AudioSubmix*>(mtx.first); ... }]:
    every entry in the container's order, every key dereferenced. *)
Fixpoint mix_sends {A Mtx} (F : Format A) (C : VoiceClass Mtx) (oDone : N) (dt : float)
    (sends : list (SubmixPtr * Mtx)) : M Mtx (list (SubmixPtr * Mtx)) :=
  match sends with
  | [] => ret []
  | (p, mtx) :: rest =>
      let* r := get_root in
      let* mtx1 := route_and_mix F C oDone dt p (load p r) mtx in
      let* rest1 := mix_sends F C oDone dt rest in
      ret ((p, mtx1) :: rest1)
  end.

(** [size_t pumpAndMix(size_t frames)] in its three stretches.
    [samples_of frames] is the sample count compared with the scratch sizes,
    [resize_to samples] the size asked of [resize].

    First the scratch vectors, [dt] and the client's [preSupplyAudio]: *)
Definition pump_prepare {A Mtx} (F : Format A) (C : VoiceClass Mtx) (samples_of resize_to : N -> N)
    (frames : N) : M Mtx float :=
  let samples := samples_of frames in
  upd_root (fun r => f_set_pre F (grow (f_zero F) samples (resize_to samples) (f_pre F r)) r) ;;
  upd_root (fun r => f_set_post F (grow (f_zero F) samples (resize_to samples) (f_post F r)) r) ;;
  let* v := get_this in
  let dt := PrimFloat.div (double_of_size_t frames) (m_sampleRateOut v) in
  call_preSupplyAudio (c_call C) dt ;;
  ret dt.

(** then [_midUpdate(); size_t oDone = soxr_output(m_src, pre.data(), frames);] *)
Definition pump_resample {A Mtx} (F : Format A) (C : VoiceClass Mtx) (frames : N) : M Mtx N :=
  _midUpdate (c_resetSampleRate C) ;;
  let* res := call_soxr_output (c_SRCCallback C) frames in
  upd_root (fun r => f_set_pre F (f_store F res.1 (f_pre F r)) r) ;;
  ret res.2.

(** then the [if (oDone) { ... }] block. *)
Definition pump_route {A Mtx} (F : Format A) (C : VoiceClass Mtx) (oDone : N) (dt : float)
    : M Mtx unit :=
  if negb (oDone =? 0) then
    let* v := get_this in
    if negb (vsize (m_sendMatrices v) =? 0) then
      let* sends := mix_sends F C oDone dt (m_sendMatrices v) in
      upd_this (set_m_sendMatrices sends)
    else
      let* r := get_root in
      let* mtx := c_get_Default C in
      let* mtx1 := route_and_mix F C oDone dt MainSubmix (m_mainSubmix r) mtx in
      c_put_Default C mtx1
  else ret tt.

Definition pumpAndMix {A Mtx} (F : Format A) (C : VoiceClass Mtx) (samples_of resize_to : N -> N)
    (frames : N) : M Mtx N :=
  let* dt := pump_prepare F C samples_of resize_to frames in
  let* oDone := pump_resample F C frames in
  pump_route F C oDone dt ;;
  ret oDone.

Definition AudioVoiceMono_pumpAndMix16 : N -> M AudioMatrixMono N :=
  pumpAndMix Fmt16 Mono (fun frames => frames) (fun samples => samples).
Definition AudioVoiceMono_pumpAndMix32 : N -> M AudioMatrixMono N :=
  pumpAndMix Fmt32 Mono (fun frames => frames) (fun samples => samples).
Definition AudioVoiceMono_pumpAndMixFlt : N -> M AudioMatrixMono N :=
  pumpAndMix FmtFlt Mono (fun frames => frames) (fun samples => size_t_add samples 2).
Definition AudioVoiceStereo_pumpAndMix16 : N -> M AudioMatrixStereo N :=
  pumpAndMix Fmt16 Stereo (fun frames => size_t_mul frames 2) (fun samples => samples).
Definition AudioVoiceStereo_pumpAndMix32 : N -> M AudioMatrixStereo N :=
  pumpAndMix Fmt32 Stereo (fun frames => size_t_mul frames 2) (fun samples => samples).
Definition AudioVoiceStereo_pumpAndMixFlt : N -> M AudioMatrixStereo N :=
  pumpAndMix FmtFlt Stereo (fun frames => size_t_mul frames 2) (fun samples => size_t_add samples 4).

(** *** Several voices on one engine

    The engine pumps its voices one after the other on one thread; all of them
    share [m_root] and the two default matrices. *)
Inductive AnyVoice :=
| VMono (v : AudioVoice AudioMatrixMono)
| VStereo (v : AudioVoice AudioMatrixStereo).

Definition channels_of (v : AnyVoice) : N :=
  match v with VMono _ => 1 | VStereo _ => 2 end.

Record Engine := mkEngine {
  e_voices : list AnyVoice;
  e_root : BaseAudioVoiceEngine;
  e_DefaultMonoMtx : AudioMatrixMono;
  e_DefaultStereoMtx : AudioMatrixStereo;
  e_trace : list Event
}.

Inductive PumpKind := Pump16 | Pump32 | PumpFlt.

Inductive EngineOp :=
| op_pump (i : nat) (k : PumpKind) (frames : N)
| op_SRCCallback (i : nat) (frames : N)
| op_call (i : nat) (c : VoiceCall).

Definition enter {Mtx} (v : AudioVoice Mtx) (e : Engine) : State Mtx :=
  mkState v (e_root e) (e_DefaultMonoMtx e) (e_DefaultStereoMtx e) (e_trace e).

Definition leave {Mtx} (wrap : AudioVoice Mtx -> AnyVoice) (i : nat) (e : Engine) (s : State Mtx) : Engine :=
  mkEngine (<[i := wrap (this s)]> (e_voices e)) (m_root s) (DefaultMonoMtx s)
    (DefaultStereoMtx s) (trace s).

Definition pump_mono (k : PumpKind) : N -> M AudioMatrixMono N :=
  match k with
  | Pump16 => AudioVoiceMono_pumpAndMix16
  | Pump32 => AudioVoiceMono_pumpAndMix32
  | PumpFlt => AudioVoiceMono_pumpAndMixFlt
  end.

Definition pump_stereo (k : PumpKind) : N -> M AudioMatrixStereo N :=
  match k with
  | Pump16 => AudioVoiceStereo_pumpAndMix16
  | Pump32 => AudioVoiceStereo_pumpAndMix32
  | PumpFlt => AudioVoiceStereo_pumpAndMixFlt
  end.

Definition step (op : EngineOp) (e : Engine) : Engine :=
  match op with
  | op_pump i k frames =>
      match e_voices e !! i with
      | Some (VMono v) => leave VMono i e (pump_mono k frames (enter v e)).2
      | Some (VStereo v) => leave VStereo i e (pump_stereo k frames (enter v e)).2
      | None => e
      end
  | op_SRCCallback i frames =>
      match e_voices e !! i with
      | Some (VMono v) => leave VMono i e (AudioVoiceMono_SRCCallback frames (enter v e)).2
      | Some (VStereo v) => leave VStereo i e (AudioVoiceStereo_SRCCallback frames (enter v e)).2
      | None => e
      end
  | op_call i c =>
      match e_voices e !! i with
      | Some (VMono v) => leave VMono i e (AudioVoiceMono_call c (enter v e)).2
      | Some (VStereo v) => leave VStereo i e (AudioVoiceStereo_call c (enter v e)).2
      | None => e
      end
  end.

Definition run (ops : list EngineOp) (e : Engine) : Engine :=
  fold_left (fun e op => step op e) ops e.

(** The scratch vectors of the engine, and what one operation asks of them:
    a pump at a format asks [frames * channels] samples of that format's
    [Pre] and [Post] vectors, the resampler input callback asks the same of
    [scratchIn]. *)
Inductive Scratch :=
| ScratchIn | Scratch16Pre | Scratch16Post | Scratch32Pre | Scratch32Post
| ScratchFltPre | ScratchFltPost.

Global Instance Scratch_eq_dec : EqDecision Scratch.
Proof. solve_decision. Defined.

Definition scratch_size (x : Scratch) (r : BaseAudioVoiceEngine) : N :=
  match x with
  | ScratchIn => vsize (m_scratchIn r)
  | Scratch16Pre => vsize (m_scratch16Pre r)
  | Scratch16Post => vsize (m_scratch16Post r)
  | Scratch32Pre => vsize (m_scratch32Pre r)
  | Scratch32Post => vsize (m_scratch32Post r)
  | ScratchFltPre => vsize (m_scratchFltPre r)
  | ScratchFltPost => vsize (m_scratchFltPost r)
  end.

Definition uses (op : EngineOp) (x : Scratch) : bool :=
  match op, x with
  | op_pump _ Pump16 _, (Scratch16Pre | Scratch16Post) => true
  | op_pump _ Pump32 _, (Scratch32Pre | Scratch32Post) => true
  | op_pump _ PumpFlt _, (ScratchFltPre | ScratchFltPost) => true
  | op_SRCCallback _ _, ScratchIn => true
  | _, _ => false
  end.

Definition op_voice (op : EngineOp) : nat :=
  match op with op_pump i _ _ | op_SRCCallback i _ | op_call i _ => i end.

Definition op_frames (op : EngineOp) : N :=
  match op with op_pump _ _ frames | op_SRCCallback _ frames => frames | op_call _ _ => 0 end.

(** [frames * channels] for the voice the operation runs on; nothing when
    there is no such voice. *)
Definition demand (op : EngineOp) (e : Engine) : N :=
  match e_voices e !! op_voice op with
  | Some v => op_frames op * channels_of v
  | None => 0
  end.

(** *** Vocabulary for the statements below *)

(** Events of rebuilding the resampler, and of setting its ratio. *)
Definition is_reset_event (e : Event) : bool :=
  match e with
  | ev_soxr_delete _ | ev_soxr_create _ _ _ _ _ | ev_soxr_set_input_fn _ _ => true
  | _ => false
  end.

Definition is_ratio_event (e : Event) : bool :=
  match e with ev_soxr_set_io_ratio _ _ _ => true | _ => false end.

(** The outside calls of one [_setPitchRatio] on a dynamic-rate voice, made
    when the trace is [tr]: [soxr_set_io_ratio] and, if it fails, the report. *)
Definition ratio_calls (tr : list Event) (src : ptr) (io_ratio : float) (slew_len : N)
    : list Event :=
  ev_soxr_set_io_ratio src io_ratio slew_len
  :: match soxr_set_io_ratio tr src io_ratio slew_len with
     | Some err => [ev_Log_report_Fatal ("unable to set resampler rate: " +:+ err)]
     | None => []
     end.

(** [ratio * m_sampleRateIn / m_sampleRateOut] *)
Definition io_ratio_of (ratio rateIn rateOut : float) : float :=
  PrimFloat.div (PrimFloat.mul ratio rateIn) rateOut.

(** What a [_resetSampleRate] override does with the rate [rate] on a voice of
    [chans] channels, [created] being its test of what [soxr_create] gave.
    The old handle is deleted and a resampler asked for at [rate] and the mix
    rate and format; the handle that comes back is stored.  If it was created,
    the rates are the new ones, the input function is set, and the pitch ratio
    the voice holds goes to the new handle at once, without slew.  If not, the
    failure is reported and nothing else changes.  The reset request is clear
    either way. *)
Definition reset_effect {Mtx} (chans : N) (created : ptr * option string -> bool)
    (reset : float -> M Mtx unit) : Prop :=
  forall (rate : float) (s : State Mtx),
    let v := this s in
    let rateOut := m_sampleRate (m_mixInfo (m_root s)) in
    let fmt := m_sampleFormat (m_mixInfo (m_root s)) in
    let rebuild := [ev_soxr_delete (m_src v);
                    ev_soxr_create rate rateOut chans fmt (m_dynamicRate v)] in
    let made := soxr_create (trace s ++ [ev_soxr_delete (m_src v)]) rate rateOut chans fmt
                  (m_dynamicRate v) in
    let s' := (reset rate s).2 in
    m_root s' = m_root s
    /\ DefaultMonoMtx s' = DefaultMonoMtx s
    /\ DefaultStereoMtx s' = DefaultStereoMtx s
    /\ if created made then
         this s' = set_m_resetSampleRate false
                     (set_m_setPitchRatio false
                        (set_m_sampleRateOut rateOut
                           (set_m_sampleRateIn rate (set_m_src made.1 v))))
         /\ trace s'
            = trace s ++ rebuild ++ ev_soxr_set_input_fn made.1 chans
              :: (if m_dynamicRate v
                  then ratio_calls (trace s ++ rebuild ++ [ev_soxr_set_input_fn made.1 chans])
                         made.1 (io_ratio_of (m_pitchRatio v) rate rateOut) 0
                  else [])
       else
         exists msg,
           this s' = set_m_resetSampleRate false (set_m_src made.1 v)
           /\ trace s' = trace s ++ rebuild ++ [ev_Log_report_Fatal msg].

(** What [_midUpdate] does between [s] and [s'].  The engine and the default
    matrices are not touched and both requests are clear afterwards.

    With a reset pending, the resampler is rebuilt at the latched
    [m_deferredSampleRate] first.  If that succeeded the latched pitch ratio
    has gone to the new handle with the new rates inside the rebuild, without
    slew, and nothing follows.  If it failed, a pending pitch ratio is applied
    after the report, to the handle [soxr_create] left, with the old rates.

    With no reset pending, a pending pitch ratio is applied to the handle the
    voice has.  Applied outside a rebuild, a pitch ratio is slewed over
    [m_5msFrames] exactly when the latched [m_slew] is set. *)
Definition deferred_applied {Mtx} (chans : N) (created : ptr * option string -> bool)
    (s s' : State Mtx) : Prop :=
  let v := this s in
  let rateOut := m_sampleRate (m_mixInfo (m_root s)) in
  let fmt := m_sampleFormat (m_mixInfo (m_root s)) in
  let rate := m_deferredSampleRate v in
  let slew_len := if m_slew v then m_5msFrames (m_root s) else 0 in
  let rebuild := [ev_soxr_delete (m_src v);
                  ev_soxr_create rate rateOut chans fmt (m_dynamicRate v)] in
  let made := soxr_create (trace s ++ [ev_soxr_delete (m_src v)]) rate rateOut chans fmt
                (m_dynamicRate v) in
  let pending := m_setPitchRatio v && m_dynamicRate v in
  m_root s' = m_root s
  /\ DefaultMonoMtx s' = DefaultMonoMtx s
  /\ DefaultStereoMtx s' = DefaultStereoMtx s
  /\ if m_resetSampleRate v then
       if created made then
         this s' = set_m_resetSampleRate false
                     (set_m_setPitchRatio false
                        (set_m_sampleRateOut rateOut
                           (set_m_sampleRateIn rate (set_m_src made.1 v))))
         /\ trace s'
            = trace s ++ rebuild ++ ev_soxr_set_input_fn made.1 chans
              :: (if m_dynamicRate v
                  then ratio_calls (trace s ++ rebuild ++ [ev_soxr_set_input_fn made.1 chans])
                         made.1 (io_ratio_of (m_pitchRatio v) rate rateOut) 0
                  else [])
       else
         exists msg,
           this s' = set_m_setPitchRatio false (set_m_resetSampleRate false (set_m_src made.1 v))
           /\ trace s'
              = trace s ++ rebuild ++ ev_Log_report_Fatal msg
                :: (if pending
                    then ratio_calls (trace s ++ rebuild ++ [ev_Log_report_Fatal msg]) made.1
                           (io_ratio_of (m_pitchRatio v) (m_sampleRateIn v) (m_sampleRateOut v))
                           slew_len
                    else [])
     else
       this s' = set_m_setPitchRatio false v
       /\ trace s'
          = trace s
            ++ (if pending
                then ratio_calls (trace s) (m_src v)
                       (io_ratio_of (m_pitchRatio v) (m_sampleRateIn v) (m_sampleRateOut v))
                       slew_len
                else []).

(** What a pump has done up to its [soxr_output] call.  [s1] is the state
    when [_midUpdate] starts: the client's [preSupplyAudio] has been called,
    the handle, the rates and the engine's rate constants are as they were, a
    request that was pending still is, and everything latched is as it was if
    the client made no call on the voice from [preSupplyAudio].  [s2] is the
    state when [_midUpdate] ends: what was latched in [s1] has been applied.
    The [soxr_output] call comes next, on the handle of [s2]. *)
Definition pump_applies_deferred {A Mtx} (F : Format A) (C : VoiceClass Mtx)
    (samples_of resize_to : N -> N) : Prop :=
  forall (frames : N) (s : State Mtx),
    let p1 := pump_prepare F C samples_of resize_to frames s in
    let s1 := p1.2 in
    let s2 := (_midUpdate (c_resetSampleRate C) s1).2 in
    trace s1 = trace s ++ [ev_preSupplyAudio (m_cb (this s)) p1.1]
    /\ m_src (this s1) = m_src (this s)
    /\ m_dynamicRate (this s1) = m_dynamicRate (this s)
    /\ m_sampleRateIn (this s1) = m_sampleRateIn (this s)
    /\ m_sampleRateOut (this s1) = m_sampleRateOut (this s)
    /\ m_mixInfo (m_root s1) = m_mixInfo (m_root s)
    /\ m_5msFrames (m_root s1) = m_5msFrames (m_root s)
    /\ (m_resetSampleRate (this s) = true -> m_resetSampleRate (this s1) = true)
    /\ (m_setPitchRatio (this s) = true -> m_setPitchRatio (this s1) = true)
    /\ (preSupplyAudio (trace s) (m_cb (this s)) p1.1 = [] -> this s1 = this s)
    /\ deferred_applied (c_channels C) (c_created C) s1 s2
    /\ exists post,
         trace (pumpAndMix F C samples_of resize_to frames s).2
         = trace s2 ++ ev_soxr_output (m_src (this s2)) frames :: post.

(** Between two states of the engine no scratch vector has changed size,
    except that [scratchIn] may have grown; the mix info is the same. *)
Definition sizes_kept (r r' : BaseAudioVoiceEngine) : Prop :=
  m_mixInfo r' = m_mixInfo r
  /\ scratch_size ScratchIn r <= scratch_size ScratchIn r'
  /\ forall x, x <> ScratchIn -> scratch_size x r' = scratch_size x r.

Definition submixes_kept (r r' : BaseAudioVoiceEngine) : Prop :=
  m_mainSubmix r' = m_mainSubmix r /\ m_submixes r' = m_submixes r.

(** The trace only grows and the scratch sizes are kept. *)
Definition steady {Mtx} (s s' : State Mtx) : Prop :=
  (exists l, trace s' = trace s ++ l) /\ sizes_kept (m_root s) (m_root s').

(** The same, and no submix and neither default matrix has been touched. *)
Definition quiet {Mtx} (s s' : State Mtx) : Prop :=
  steady s s' /\ submixes_kept (m_root s) (m_root s')
  /\ DefaultMonoMtx s' = DefaultMonoMtx s /\ DefaultStereoMtx s' = DefaultStereoMtx s.

(** What the statements need of a [Format]: [pre] and [post] are two scratch
    vectors of the engine, distinct from [scratchIn], and writing one of them
    changes nothing else. *)
Definition Format_ok {A} (F : Format A) (x_pre x_post : Scratch) : Prop :=
  x_pre <> ScratchIn /\ x_post <> ScratchIn /\ x_pre <> x_post
  /\ (forall w l, length (f_store F w l) = length l)
  /\ (forall r, scratch_size x_pre r = vsize (f_pre F r))
  /\ (forall r, scratch_size x_post r = vsize (f_post F r))
  /\ (forall l r,
        f_pre F (f_set_pre F l r) = l
        /\ (forall x, x <> x_pre -> scratch_size x (f_set_pre F l r) = scratch_size x r)
        /\ m_mixInfo (f_set_pre F l r) = m_mixInfo r
        /\ submixes_kept r (f_set_pre F l r))
  /\ (forall l r,
        f_post F (f_set_post F l r) = l
        /\ (forall x, x <> x_post -> scratch_size x (f_set_post F l r) = scratch_size x r)
        /\ m_mixInfo (f_set_post F l r) = m_mixInfo r
        /\ submixes_kept r (f_set_post F l r)).

(** What a pump does with a voice that has no send when its [if (oDone)]
    block starts ([s3], with [oDone] frames resampled): one [routeAudio] call
    for the bus of the main submix, one mixing call with the class's default
    matrix into the merge buffer of the main submix, and nothing to any other
    submix since the pump began. *)
Definition routes_to_main_by_default {A Mtx} (F : Format A) (C : VoiceClass Mtx)
    (samples_of resize_to : N -> N) : Prop :=
  forall (frames : N) (s : State Mtx),
    let p1 := pump_prepare F C samples_of resize_to frames s in
    let p2 := pump_resample F C frames p1.2 in
    let dt := p1.1 in
    let oDone := p2.1 in
    let s3 := p2.2 in
    m_sendMatrices (this s3) = [] -> oDone <> 0 ->
    let r := m_root s3 in
    let main := m_mainSubmix r in
    let routed := routeAudio (trace s3) (m_cb (this s3)) oDone (c_channels C) dt (m_busId main)
                    (f_tag F (f_pre F r)) (f_tag F (f_post F r)) in
    let post := f_store F routed (f_post F r) in
    let main1 := f_getMergeBuf F (m_mixInfo r) oDone main in
    let res := c_mixSampleData C (m_mixInfo r) (f_tag F post) (f_tag F (f_merge F main1)) oDone
                 (c_get_Default C s3).1 in
    let s4 := (pumpAndMix F C samples_of resize_to frames s).2 in
    (pumpAndMix F C samples_of resize_to frames s).1 = oDone
    /\ m_mainSubmix (m_root s4) = f_set_merge F (f_store F res.2 (f_merge F main1)) main1
    /\ m_submixes (m_root s4) = m_submixes (m_root s)
    /\ (c_get_Default C s4).1 = res.1
    /\ trace s4 = trace s3 ++ [ev_routeAudio (m_cb (this s3)) oDone (c_channels C) dt (m_busId main)]
    /\ m_sendMatrices (this s4) = [].

(** What [r'] may differ from [r] in after an operation that asks [demand]
    samples of the scratch vectors [used]: no vector is smaller; a used vector
    has at least [demand]; a used vector that already had [demand] has kept its
    size; a vector that is neither used nor [scratchIn] has kept its size. *)
Definition scratch_grown (used : Scratch -> bool) (demand : N) (r r' : BaseAudioVoiceEngine) : Prop :=
  (forall x, scratch_size x r <= scratch_size x r')
  /\ (forall x, used x = true -> demand <= scratch_size x r')
  /\ (forall x, used x = true -> demand <= scratch_size x r ->
        scratch_size x r' = scratch_size x r)
  /\ (forall x, used x = false -> x <> ScratchIn -> scratch_size x r' = scratch_size x r).

(** What the calls a client makes on the voice from a callback leave alone. *)
Definition calls_frame {Mtx} (s s' : State Mtx) : Prop :=
  trace s' = trace s
  /\ m_cb (this s') = m_cb (this s)
  /\ m_dynamicRate (this s') = m_dynamicRate (this s)
  /\ m_src (this s') = m_src (this s)
  /\ m_sampleRateIn (this s') = m_sampleRateIn (this s)
  /\ m_sampleRateOut (this s') = m_sampleRateOut (this s)
  /\ m_silentOut (this s') = m_silentOut (this s)
  /\ (m_resetSampleRate (this s) = true -> m_resetSampleRate (this s') = true)
  /\ (m_setPitchRatio (this s) = true -> m_setPitchRatio (this s') = true)
  /\ m_root s' = set_submixesDirty (m_submixesDirty (m_root s')) (m_root s)
  /\ DefaultMonoMtx s' = DefaultMonoMtx s
  /\ DefaultStereoMtx s' = DefaultStereoMtx s.

(** What the statements need of a [VoiceClass]. *)
Definition VoiceClass_ok {Mtx} (C : VoiceClass Mtx) : Prop :=
  (forall c s, calls_frame s (c_call C c s).2)
  /\ reset_effect (c_channels C) (c_created C) (c_resetSampleRate C)
  /\ (forall rate s, quiet s (c_resetSampleRate C rate s).2)
  /\ (forall n s, quiet s (c_SRCCallback C n s).2)
  /\ (forall s, (c_get_Default C s).2 = s)
  /\ (forall m s,
        this (c_put_Default C m s).2 = this s
        /\ m_root (c_put_Default C m s).2 = m_root s
        /\ trace (c_put_Default C m s).2 = trace s).

End Voice.

Arguments this {_ _} _.
Arguments m_root {_ _} _.
Arguments DefaultMonoMtx {_ _} _.
Arguments DefaultStereoMtx {_ _} _.
Arguments trace {_ _} _.
Arguments mkState {_ _}.
Arguments f_zero {A} _.
Arguments f_tag {A} _ _.
Arguments f_store {A} _ _ _.
Arguments f_pre {A} _ _.
Arguments f_set_pre {A} _ _ _.
Arguments f_post {A} _ _.
Arguments f_set_post {A} _ _ _.
Arguments f_getMergeBuf {A} _ _ _ _.
Arguments f_merge {A} _ _.
Arguments f_set_merge {A} _ _ _.
Arguments c_channels {_ _} _.
Arguments c_resetSampleRate {_ _} _ _.
Arguments c_created {_ _} _ _.
Arguments c_SRCCallback {_ _} _ _.
Arguments c_call {_ _} _ _.
Arguments c_mixSampleData {_ _} _ _ _ _ _ _.
Arguments c_get_Default {_ _} _.
Arguments c_put_Default {_ _} _ _.

(** *** Vocabulary for the send matrices *)

(** The matrix the send map holds for a submix, if any. *)
Definition send_of {Mtx} (key : SubmixPtr) (sends : list (SubmixPtr * Mtx)) : option Mtx :=
  snd <$> find (fun e => bool_decide (e.1 = key)) sends.

Section Sends.
Context `{W : World} `{MX : Matrices}.

(** What a level setter has done between [s] and [s'] for the submix [key]:
    only the send map of the voice differs; the entry of [key] is [f] of the
    matrix it had, or of a [fresh] one; no other entry has changed; the keys
    stay distinct; the map has grown by one entry if [key] was new. *)
Definition sets_levels {Mtx} (fresh : Mtx) (f : Mtx -> Mtx) (key : SubmixPtr)
    (s s' : State Mtx) : Prop :=
  let sends := m_sendMatrices (this s) in
  let sends' := m_sendMatrices (this s') in
  s' = mkState (set_m_sendMatrices sends' (this s)) (m_root s) (DefaultMonoMtx s)
         (DefaultStereoMtx s) (trace s)
  /\ send_of key sends' = Some (f (default fresh (send_of key sends)))
  /\ (forall k, k <> key -> send_of k sends' = send_of k sends)
  /\ (NoDup (map fst sends) -> NoDup (map fst sends'))
  /\ length sends' = match send_of key sends with
                   | Some _ => length sends
                   | None => S (length sends)
                   end.


(** What a pump whose resampler delivered nothing has done: it returns [0]
    and stops where [soxr_output] returned; no submix and neither default
    matrix has been touched since the pump began. *)
Definition idles_without_output {A Mtx} (F : Format A) (C : VoiceClass Mtx)
    (samples_of resize_to : N -> N) : Prop :=
  forall (frames : N) (s : State Mtx),
    let p1 := pump_prepare F C samples_of resize_to frames s in
    let p2 := pump_resample F C frames p1.2 in
    p2.1 = 0 ->
    pumpAndMix F C samples_of resize_to frames s = (0, p2.2)
    /\ submixes_kept (m_root s) (m_root p2.2)
    /\ DefaultMonoMtx p2.2 = DefaultMonoMtx s
    /\ DefaultStereoMtx p2.2 = DefaultStereoMtx s.

End Sends.

End Audio.

(** ** The AudioQueue engine (AQS.cpp) *)

Module AQS.

Import Audio.

(** *** The hardware callback *)

Inductive cv_status := no_timeout | timeout.

(** The value of a [size_t] once it is stored in a [UInt32] field or passed
    as a [UInt32] argument. *)
Definition UInt32_of_size_t (n : N) : N := n mod 2 ^ 32.

(** [AudioQueueBuffer]: [mAudioDataByteSize] is the byte size the queue will
    play, a [UInt32]: what the code stores there goes through
    [UInt32_of_size_t].  [mAudioData] is the memory of the buffer, all of its
    [mAudioDataBytesCapacity] bytes. *)
Record AudioQueueBuffer := mkBuffer {
  mAudioDataByteSize : N;
  mAudioData : list byte
}.

(** Calls that leave AQS.cpp. *)
Inductive Event :=
| ev_wait_for (ns : N)
| ev_pumpAndMixVoices (frames : N)
| ev_AudioQueueEnqueueBuffer (queue : ptr) (buf : AudioQueueBuffer)
| ev_notify_one_leave
| ev_MIDIDestinationCreate (client : N) (name : string)
| ev_MIDISourceCreate (client : N) (name : string)
| ev_MIDIInputPortCreate (client : N) (name : string)
| ev_MIDIOutputPortCreate (client : N) (name : string)
| ev_MIDIPortConnectSource (port src : N)
| ev_MIDIEndpointDispose (endpoint : N)
| ev_MIDIPortDispose (port : N).

Definition is_pump (e : Event) : bool :=
  match e with ev_pumpAndMixVoices _ => true | _ => false end.

(** The system's MIDI setup as CoreMIDI enumerates it: [MIDIGetDevice(i)],
    the integer property [kMIDIPropertyUniqueID] (absent when the query
    fails), the entities of a device and their sources and destinations.
    References are [UInt32] handles, [0] for none. *)
Record MIDIEntity := mkEntity {
  ent_ref : N;
  ent_sources : list N;
  ent_destinations : list N
}.

Record MIDIDevice := mkDevice {
  dev_ref : N;
  dev_uniqueID : option Z;
  dev_entities : list MIDIEntity
}.

(** What is outside AQS.cpp.  [wait_for] is the bounded wait on the enter
    condition: it gives back the status and [m_inRetrace] as the client thread
    left it while the mutex was released.  [_pumpAndMixVoices] belongs to
    [BaseAudioVoiceEngine], whose state is [Base].  The four CoreMIDI
    constructors return an [OSStatus] and the reference they wrote. *)
Class CoreAudio (Base : Type) := {
  wait_for : list Event -> N -> cv_status * bool;
  _pumpAndMixVoices : Base -> N -> list byte -> Base * list byte;
  midi_devices : list Event -> list MIDIDevice;
  MIDIDestinationCreate : list Event -> N -> string -> Z * N;
  MIDISourceCreate : list Event -> N -> string -> Z * N;
  MIDIInputPortCreate : list Event -> N -> string -> Z * N;
  MIDIOutputPortCreate : list Event -> N -> string -> Z * N
}.

(** [struct AQSAudioVoiceEngine : BaseAudioVoiceEngine] *)
Record AQSAudioVoiceEngine (Base : Type) := mkAQS {
  base : Base;
  m_mixInfo : AudioVoiceEngineMixInfo;
  m_queue : ptr;
  m_frameBytes : N;
  m_midiClient : N;
  m_inRetrace : bool;
  m_inCb : bool;
  m_cbRunning : bool;
  m_midiInCounter : N;
  m_midiOutCounter : N
}.

Arguments mkAQS {Base}.
Arguments base {Base} _.
Arguments m_mixInfo {Base} _.
Arguments m_queue {Base} _.
Arguments m_frameBytes {Base} _.
Arguments m_midiClient {Base} _.
Arguments m_inRetrace {Base} _.
Arguments m_inCb {Base} _.
Arguments m_cbRunning {Base} _.
Arguments m_midiInCounter {Base} _.
Arguments m_midiOutCounter {Base} _.

Definition set_base {Base} (x : Base) (e : AQSAudioVoiceEngine Base) :=
  mkAQS x (m_mixInfo e) (m_queue e) (m_frameBytes e) (m_midiClient e) (m_inRetrace e)
    (m_inCb e) (m_cbRunning e) (m_midiInCounter e) (m_midiOutCounter e).
Definition set_inRetrace {Base} (x : bool) (e : AQSAudioVoiceEngine Base) :=
  mkAQS (base e) (m_mixInfo e) (m_queue e) (m_frameBytes e) (m_midiClient e) x
    (m_inCb e) (m_cbRunning e) (m_midiInCounter e) (m_midiOutCounter e).
Definition set_inCb {Base} (x : bool) (e : AQSAudioVoiceEngine Base) :=
  mkAQS (base e) (m_mixInfo e) (m_queue e) (m_frameBytes e) (m_midiClient e) (m_inRetrace e)
    x (m_cbRunning e) (m_midiInCounter e) (m_midiOutCounter e).
Definition set_midiInCounter {Base} (x : N) (e : AQSAudioVoiceEngine Base) :=
  mkAQS (base e) (m_mixInfo e) (m_queue e) (m_frameBytes e) (m_midiClient e) (m_inRetrace e)
    (m_inCb e) (m_cbRunning e) x (m_midiOutCounter e).
Definition set_midiOutCounter {Base} (x : N) (e : AQSAudioVoiceEngine Base) :=
  mkAQS (base e) (m_mixInfo e) (m_queue e) (m_frameBytes e) (m_midiClient e) (m_inRetrace e)
    (m_inCb e) (m_cbRunning e) (m_midiInCounter e) x.

(** [size_t(d)] for a [double]: truncation toward zero; negative, infinite
    and NaN values are undefined behaviour and give [0] here. *)
Definition size_t_of_double (d : float) : N :=
  match Prim2SF d with
  | S754_finite false m e =>
      match e with
      | Z0 => Npos m
      | Zpos p => (Npos m * 2 ^ Npos p) mod size_t_max
      | Zneg p => Npos m / 2 ^ Npos p
      end
  | _ => 0
  end.

(** The argument of [std::chrono::nanoseconds(...)] in the bounded wait:
    [m_periodFrames * 1000000000 / size_t(m_sampleRate)].  The division is an
    integer division: when [size_t(m_sampleRate)] is [0] it is a division by
    zero, which is undefined, and there is no value. *)
Definition wait_ns (info : AudioVoiceEngineMixInfo) : option N :=
  let rate := size_t_of_double (m_sampleRate info) in
  if rate =? 0 then None
  else Some (size_t_div (size_t_mul (m_periodFrames info) 1000000000) rate).

(** The constructor's [m_frameBytes = m_periodFrames * m_channelCount * 4]. *)
Definition frameBytes_of (info : AudioVoiceEngineMixInfo) : N :=
  size_t_mul (size_t_mul (m_periodFrames info) (m_channelCount info)) 4.

(** [memset(p, 0, n)] on the memory of a buffer: its first [n] bytes are
    zero afterwards.  With [n] above the capacity the write runs past the end
    of the buffer, which is undefined, and there is no value. *)
Definition memset_zero (n : N) (data : list byte) : option (list byte) :=
  if n <=? vsize data
  then Some (replicate (N.to_nat n) Byte.x00 ++ drop (N.to_nat n) data)
  else None.

(** Two engine states that differ at most in the two MIDI name counters. *)
Definition same_but_counters {Base} (e e' : AQSAudioVoiceEngine Base) : Prop :=
  e' = set_midiOutCounter (m_midiOutCounter e') (set_midiInCounter (m_midiInCounter e') e).

(** [m_midiInCounter++] on an [unsigned], and [k] of them. *)
Definition uint_succ (n : N) : N := (n + 1) mod 2 ^ 32.
Definition advanced (k : nat) (n : N) : N := Nat.iter k uint_succ n.

(** What a MIDI endpoint constructor promises about its result [r] on engine
    [e] and trace [tr]: it is null exactly when a precondition is missing (no
    client, nothing found under the name) or a CoreMIDI creation fails; the
    engine it leaves differs from [e] at most in the name counters; with a
    precondition missing nothing at all has happened; otherwise the counter of
    input names has advanced by [ins] and the counter of output names by
    [outs], whether the result is null or not. *)
Definition constructor_contract {Base T} (e : AQSAudioVoiceEngine Base) (tr : list Event)
    (r : option T * AQSAudioVoiceEngine Base * list Event)
    (precondition_missing creation_failed : Prop) (ins outs : nat) : Prop :=
  (r.1.1 = None <-> precondition_missing \/ creation_failed)
  /\ same_but_counters e r.1.2
  /\ (precondition_missing -> r = (None, e, tr))
  /\ (~ precondition_missing ->
      m_midiInCounter r.1.2 = advanced ins (m_midiInCounter e)
      /\ m_midiOutCounter r.1.2 = advanced outs (m_midiOutCounter e)).

Section Callback.
Context {Base : Type} `{CA : CoreAudio Base}.

(** The tail both exits of the callback share but for the fill:
    [AudioQueueEnqueueBuffer(inAQ, inBuffer, 0, nullptr);]
    [engine->m_engineLeaveCv.notify_one(); engine->m_inCb = false;] *)
Definition enqueue_and_leave (engine : AQSAudioVoiceEngine Base) (inAQ : ptr)
    (inBuffer : AudioQueueBuffer) (tr : list Event)
    : AQSAudioVoiceEngine Base * AudioQueueBuffer * list Event :=
  (set_inCb false engine, inBuffer,
   tr ++ [ev_AudioQueueEnqueueBuffer inAQ inBuffer; ev_notify_one_leave]).

(** [static void Callback(AQSAudioVoiceEngine* engine, AudioQueueRef inAQ, AudioQueueBufferRef inBuffer)].
    [None] is undefined behaviour: the division by zero in the wait, or the
    [memset] past the end of the buffer. *)
Definition Callback (engine : AQSAudioVoiceEngine Base) (inAQ : ptr) (inBuffer : AudioQueueBuffer)
    (tr : list Event) : option (AQSAudioVoiceEngine Base * AudioQueueBuffer * list Event) :=
  if negb (m_cbRunning engine) then Some (engine, inBuffer, tr)
  else
    let engine := set_inCb true engine in
    let pump (engine : AQSAudioVoiceEngine Base) (tr : list Event) :=
      let frames := m_periodFrames (m_mixInfo engine) in
      let '(b, data) := _pumpAndMixVoices (base engine) frames (mAudioData inBuffer) in
      Some (enqueue_and_leave (set_base b engine) inAQ
              (mkBuffer (UInt32_of_size_t (m_frameBytes engine)) data)
              (tr ++ [ev_pumpAndMixVoices frames])) in
    if negb (m_inRetrace engine) then
      match wait_ns (m_mixInfo engine) with
      | None => None
      | Some ns =>
          let '(status, retrace) := wait_for tr ns in
          let engine := set_inRetrace retrace engine in
          let tr := tr ++ [ev_wait_for ns] in
          if match status with timeout => true | no_timeout => false end
             || negb (m_inRetrace engine)
          then
            match memset_zero (m_frameBytes engine) (mAudioData inBuffer) with
            | None => None
            | Some data =>
                Some (enqueue_and_leave engine inAQ
                        (mkBuffer (UInt32_of_size_t (m_frameBytes engine)) data) tr)
            end
          else pump engine tr
      end
    else pump engine tr.

End Callback.

(** *** MIDI endpoints *)

(** [snprintf(idStr, 9, "%08X\n", idNum)]: eight upper-case hexadecimal digits
    of the 32-bit pattern; the buffer has no room for the newline. *)
Definition hex_digit (n : N) : ascii :=
  match n with
  | 0 => "0" | 1 => "1" | 2 => "2" | 3 => "3" | 4 => "4" | 5 => "5" | 6 => "6" | 7 => "7"
  | 8 => "8" | 9 => "9" | 10 => "A" | 11 => "B" | 12 => "C" | 13 => "D" | 14 => "E" | _ => "F"
  end%char.

Definition hex8 (idNum : Z) : string :=
  let u := Z.to_N (idNum mod 2 ^ 32) in
  string_of_list_ascii
    (map (fun k => hex_digit (N.land (N.shiftr u (4 * k)) 15)) [7; 6; 5; 4; 3; 2; 1; 0]).

(** [static MIDIDeviceRef LookupMIDIDevice(const char* name)] over the devices
    the system lists; the device found stands for its non-null reference. *)
Fixpoint LookupMIDIDevice (devices : list MIDIDevice) (name : string) : option MIDIDevice :=
  match devices with
  | [] => None
  | dev :: rest =>
      if negb (nonnull (dev_ref dev)) then LookupMIDIDevice rest name
      else match dev_uniqueID dev with
           | None => LookupMIDIDevice rest name
           | Some idNum =>
               if negb (String.eqb (hex8 idNum) name) then LookupMIDIDevice rest name
               else Some dev
           end
  end.

(** The two nested loops of [LookupMIDISource] and [LookupMIDIDest]: the first
    non-null endpoint of the first entity that has one. *)
Fixpoint first_endpoint (endpoints : MIDIEntity -> list N) (entities : list MIDIEntity) : N :=
  match entities with
  | [] => 0
  | ent :: rest =>
      if nonnull (ent_ref ent) then
        match find nonnull (endpoints ent) with
        | Some e => e
        | None => first_endpoint endpoints rest
        end
      else first_endpoint endpoints rest
  end.

(** [static MIDIEndpointRef LookupMIDISource(const char* name)] *)
Definition LookupMIDISource (devices : list MIDIDevice) (name : string) : N :=
  match LookupMIDIDevice devices name with
  | None => 0
  | Some dev => first_endpoint ent_sources (dev_entities dev)
  end.

(** [static MIDIEndpointRef LookupMIDIDest(const char* name)] *)
Definition LookupMIDIDest (devices : list MIDIDevice) (name : string) : N :=
  match LookupMIDIDevice devices name with
  | None => 0
  | Some dev => first_endpoint ent_destinations (dev_entities dev)
  end.

(** What reading [kMIDIPropertyName] of a device gives: the property query
    fails, the string has no UTF-8 C string pointer, or a name. *)
Inductive NameLookup :=
| name_error
| name_no_cstr
| name_ok (name : string).

(** [std::vector<std::pair<std::string, std::string>> enumerateMIDIDevices() const];
    the loop runs from the last device index down to [0] and appends. *)
Definition enumerateMIDIDevices (client : N) (devices : list MIDIDevice)
    (name_of : N -> NameLookup) : list (string * string) :=
  if negb (nonnull client) then []
  else
    omap (fun dev =>
            if negb (nonnull (dev_ref dev)) then None
            else match dev_uniqueID dev with
                 | None => None
                 | Some idNum =>
                     match name_of (dev_ref dev) with
                     | name_ok nameCstr => Some (hex8 idNum, nameCstr)
                     | _ => None
                     end
                 end)
         (reverse devices).

(** [struct MIDIIn], [struct MIDIOut], [struct MIDIInOut] with their
    destructors. *)
Record MIDIIn := mkMIDIIn { in_virt : bool; in_midi : N; in_midiPort : N }.
Record MIDIOut := mkMIDIOut { out_virt : bool; out_midi : N; out_midiPort : N }.
Record MIDIInOut := mkMIDIInOut {
  io_virt : bool; io_midiIn : N; io_midiPortIn : N; io_midiOut : N; io_midiPortOut : N
}.

Definition dispose_endpoint (r : N) : list Event :=
  if nonnull r then [ev_MIDIEndpointDispose r] else [].
Definition dispose_port (r : N) : list Event :=
  if nonnull r then [ev_MIDIPortDispose r] else [].

Definition MIDIIn_destructor (x : MIDIIn) : list Event :=
  dispose_endpoint (in_midi x) ++ dispose_port (in_midiPort x).
Definition MIDIOut_destructor (x : MIDIOut) : list Event :=
  dispose_endpoint (out_midi x) ++ dispose_port (out_midiPort x).
Definition MIDIInOut_destructor (x : MIDIInOut) : list Event :=
  dispose_endpoint (io_midiIn x) ++ dispose_port (io_midiPortIn x)
  ++ dispose_endpoint (io_midiOut x) ++ dispose_port (io_midiPortOut x).

Section MIDI.
Context {Base : Type} `{CA : CoreAudio Base}.

(** [std::unique_ptr<IMIDIIn> newVirtualMIDIIn(ReceiveFunctor&& receiver)] *)
Definition newVirtualMIDIIn (e : AQSAudioVoiceEngine Base) (tr : list Event) : option MIDIIn * AQSAudioVoiceEngine Base * list Event :=
  if negb (nonnull (m_midiClient e)) then (None, e, tr)
  else
    let ret := mkMIDIIn true 0 0 in
    let name := "Boo MIDI Virtual In " +:+ pretty (m_midiInCounter e) in
    let e := set_midiInCounter (uint_succ (m_midiInCounter e)) e in
    let '(stat, ref) := MIDIDestinationCreate tr (m_midiClient e) name in
    let tr := tr ++ [ev_MIDIDestinationCreate (m_midiClient e) name] in
    let ret := mkMIDIIn (in_virt ret) ref (in_midiPort ret) in
    if negb (stat =? 0)%Z then (None, e, tr ++ MIDIIn_destructor ret)
    else (Some ret, e, tr).

(** [std::unique_ptr<IMIDIOut> newVirtualMIDIOut()] *)
Definition newVirtualMIDIOut (e : AQSAudioVoiceEngine Base) (tr : list Event) : option MIDIOut * AQSAudioVoiceEngine Base * list Event :=
  if negb (nonnull (m_midiClient e)) then (None, e, tr)
  else
    let ret := mkMIDIOut true 0 0 in
    let name := "Boo MIDI Virtual Out " +:+ pretty (m_midiOutCounter e) in
    let e := set_midiOutCounter (uint_succ (m_midiOutCounter e)) e in
    let '(stat, ref) := MIDISourceCreate tr (m_midiClient e) name in
    let tr := tr ++ [ev_MIDISourceCreate (m_midiClient e) name] in
    let ret := mkMIDIOut (out_virt ret) ref (out_midiPort ret) in
    if negb (stat =? 0)%Z then (None, e, tr ++ MIDIOut_destructor ret)
    else (Some ret, e, tr).

(** [std::unique_ptr<IMIDIInOut> newVirtualMIDIInOut(ReceiveFunctor&& receiver)] *)
Definition newVirtualMIDIInOut (e : AQSAudioVoiceEngine Base) (tr : list Event)
    : option MIDIInOut * AQSAudioVoiceEngine Base * list Event :=
  if negb (nonnull (m_midiClient e)) then (None, e, tr)
  else
    let ret := mkMIDIInOut true 0 0 0 0 in
    let name := "Boo MIDI Virtual In " +:+ pretty (m_midiInCounter e) in
    let e := set_midiInCounter (uint_succ (m_midiInCounter e)) e in
    let '(stat, ref) := MIDIDestinationCreate tr (m_midiClient e) name in
    let tr := tr ++ [ev_MIDIDestinationCreate (m_midiClient e) name] in
    let ret := mkMIDIInOut (io_virt ret) ref (io_midiPortIn ret) (io_midiOut ret) (io_midiPortOut ret) in
    if negb (stat =? 0)%Z then (None, e, tr ++ MIDIInOut_destructor ret)
    else
      let name := "Boo MIDI Virtual Out " +:+ pretty (m_midiOutCounter e) in
      let e := set_midiOutCounter (uint_succ (m_midiOutCounter e)) e in
      let '(stat, ref) := MIDISourceCreate tr (m_midiClient e) name in
      let tr := tr ++ [ev_MIDISourceCreate (m_midiClient e) name] in
      let ret := mkMIDIInOut (io_virt ret) (io_midiIn ret) (io_midiPortIn ret) ref (io_midiPortOut ret) in
      if negb (stat =? 0)%Z then (None, e, tr ++ MIDIInOut_destructor ret)
      else (Some ret, e, tr).

(** [std::unique_ptr<IMIDIIn> newRealMIDIIn(const char* name, ReceiveFunctor&& receiver)] *)
Definition newRealMIDIIn (name : string) (e : AQSAudioVoiceEngine Base) (tr : list Event)
    : option MIDIIn * AQSAudioVoiceEngine Base * list Event :=
  if negb (nonnull (m_midiClient e)) then (None, e, tr)
  else
    let src := LookupMIDISource (midi_devices tr) name in
    if negb (nonnull src) then (None, e, tr)
    else
      let ret := mkMIDIIn false 0 0 in
      let mname := "Boo MIDI Real In " +:+ pretty (m_midiInCounter e) in
      let e := set_midiInCounter (uint_succ (m_midiInCounter e)) e in
      let '(stat, ref) := MIDIInputPortCreate tr (m_midiClient e) mname in
      let tr := tr ++ [ev_MIDIInputPortCreate (m_midiClient e) mname] in
      let ret := mkMIDIIn (in_virt ret) (in_midi ret) ref in
      if negb (stat =? 0)%Z then (None, e, tr ++ MIDIIn_destructor ret)
      else (Some ret, e, tr ++ [ev_MIDIPortConnectSource (in_midiPort ret) src]).

(** [std::unique_ptr<IMIDIOut> newRealMIDIOut(const char* name)] *)
Definition newRealMIDIOut (name : string) (e : AQSAudioVoiceEngine Base) (tr : list Event)
    : option MIDIOut * AQSAudioVoiceEngine Base * list Event :=
  if negb (nonnull (m_midiClient e)) then (None, e, tr)
  else
    let dst := LookupMIDIDest (midi_devices tr) name in
    if negb (nonnull dst) then (None, e, tr)
    else
      let ret := mkMIDIOut false 0 0 in
      let mname := "Boo MIDI Real Out " +:+ pretty (m_midiOutCounter e) in
      let e := set_midiOutCounter (uint_succ (m_midiOutCounter e)) e in
      let '(stat, ref) := MIDIOutputPortCreate tr (m_midiClient e) mname in
      let tr := tr ++ [ev_MIDIOutputPortCreate (m_midiClient e) mname] in
      let ret := mkMIDIOut (out_virt ret) (out_midi ret) ref in
      if negb (stat =? 0)%Z then (None, e, tr ++ MIDIOut_destructor ret)
      else (Some (mkMIDIOut (out_virt ret) dst (out_midiPort ret)), e, tr).

(** [std::unique_ptr<IMIDIInOut> newRealMIDIInOut(const char* name, ReceiveFunctor&& receiver)] *)
Definition newRealMIDIInOut (name : string) (e : AQSAudioVoiceEngine Base) (tr : list Event)
    : option MIDIInOut * AQSAudioVoiceEngine Base * list Event :=
  if negb (nonnull (m_midiClient e)) then (None, e, tr)
  else
    let src := LookupMIDISource (midi_devices tr) name in
    if negb (nonnull src) then (None, e, tr)
    else
      let dst := LookupMIDIDest (midi_devices tr) name in
      if negb (nonnull dst) then (None, e, tr)
      else
        let ret := mkMIDIInOut false 0 0 0 0 in
        let mname := "Boo MIDI Real In " +:+ pretty (m_midiInCounter e) in
        let e := set_midiInCounter (uint_succ (m_midiInCounter e)) e in
        let '(stat, ref) := MIDIInputPortCreate tr (m_midiClient e) mname in
        let tr := tr ++ [ev_MIDIInputPortCreate (m_midiClient e) mname] in
        let ret := mkMIDIInOut (io_virt ret) (io_midiIn ret) ref (io_midiOut ret) (io_midiPortOut ret) in
        if negb (stat =? 0)%Z then (None, e, tr ++ MIDIInOut_destructor ret)
        else
          let tr := tr ++ [ev_MIDIPortConnectSource (io_midiPortIn ret) src] in
          let mname := "Boo MIDI Real Out " +:+ pretty (m_midiOutCounter e) in
          let e := set_midiOutCounter (uint_succ (m_midiOutCounter e)) e in
          let '(stat, ref) := MIDIOutputPortCreate tr (m_midiClient e) mname in
          let tr := tr ++ [ev_MIDIOutputPortCreate (m_midiClient e) mname] in
          let ret := mkMIDIInOut (io_virt ret) (io_midiIn ret) (io_midiPortIn ret) (io_midiOut ret) ref in
          if negb (stat =? 0)%Z then (None, e, tr ++ MIDIInOut_destructor ret)
          else
            (Some (mkMIDIInOut (io_virt ret) (io_midiIn ret) (io_midiPortIn ret) dst (io_midiPortOut ret)),
             e, tr).

End MIDI.

(** *** Opening the audio queue *)

(** [enum class AudioChannel] and [enum class AudioChannelSet], with the
    values AQS.cpp names. *)
Module AudioChannel.
Inductive t :=
| FrontLeft | FrontRight | RearLeft | RearRight | FrontCenter | LFE | SideLeft | SideRight
| Unknown.
End AudioChannel.

Module AudioChannelSet.
Inductive t := Stereo | Quad | Surround51 | Surround71 | Unknown.
End AudioChannelSet.

(** [AudioChannelLabel]: the labels the switch names, and any other. *)
Inductive AudioChannelLabel :=
| kAudioChannelLabel_Left
| kAudioChannelLabel_Right
| kAudioChannelLabel_LeftSurround
| kAudioChannelLabel_RightSurround
| kAudioChannelLabel_Center
| kAudioChannelLabel_LFEScreen
| kAudioChannelLabel_LeftSurroundDirect
| kAudioChannelLabel_RightSurroundDirect
| kAudioChannelLabel_other.

(** [static AudioChannel AQSChannelToBooChannel(AudioChannelLabel ch)] *)
Definition AQSChannelToBooChannel (ch : AudioChannelLabel) : AudioChannel.t :=
  match ch with
  | kAudioChannelLabel_Left => AudioChannel.FrontLeft
  | kAudioChannelLabel_Right => AudioChannel.FrontRight
  | kAudioChannelLabel_LeftSurround => AudioChannel.RearLeft
  | kAudioChannelLabel_RightSurround => AudioChannel.RearRight
  | kAudioChannelLabel_Center => AudioChannel.FrontCenter
  | kAudioChannelLabel_LFEScreen => AudioChannel.LFE
  | kAudioChannelLabel_LeftSurroundDirect => AudioChannel.RearLeft
  | kAudioChannelLabel_RightSurroundDirect => AudioChannel.SideRight
  | kAudioChannelLabel_other => AudioChannel.Unknown
  end.

(** [AudioChannelLayoutTag]: the tags the switch names, and any other. *)
Inductive AudioChannelLayoutTag :=
| kAudioChannelLayoutTag_UseChannelDescriptions
| kAudioChannelLayoutTag_UseChannelBitmap
| kAudioChannelLayoutTag_Stereo
| kAudioChannelLayoutTag_StereoHeadphones
| kAudioChannelLayoutTag_Quadraphonic
| kAudioChannelLayoutTag_Pentagonal
| kAudioChannelLayoutTag_other (tag : N).

(** The bits of [mChannelBitmap] (CoreAudioBaseTypes.h). *)
Definition kAudioChannelBit_Left : N := 2 ^ 0.
Definition kAudioChannelBit_Right : N := 2 ^ 1.
Definition kAudioChannelBit_Center : N := 2 ^ 2.
Definition kAudioChannelBit_LFEScreen : N := 2 ^ 3.
Definition kAudioChannelBit_LeftSurround : N := 2 ^ 4.
Definition kAudioChannelBit_RightSurround : N := 2 ^ 5.
Definition kAudioChannelBit_LeftSurroundDirect : N := 2 ^ 9.
Definition kAudioChannelBit_RightSurroundDirect : N := 2 ^ 10.

(** [AudioChannelLayout]; [mNumberChannelDescriptions] is the length of the
    list of labels. *)
Record AudioChannelLayout := mkLayout {
  mChannelLayoutTag : AudioChannelLayoutTag;
  mChannelBitmap : N;
  mChannelDescriptions : list AudioChannelLabel
}.

(** [ChannelMap]: its first [m_channelCount] channels. *)
Definition ChannelMap := list AudioChannel.t.

(** [chMapOut.m_channels[chMapOut.m_channelCount++] = ch] *)
Definition push (ch : AudioChannel.t) (chMapOut : ChannelMap) : ChannelMap := chMapOut ++ [ch].

Definition push_if (bitmap bit : N) (ch : AudioChannel.t) (chMapOut : ChannelMap) : ChannelMap :=
  if negb (N.land bitmap bit =? 0) then push ch chMapOut else chMapOut.

(** The [switch (layout.mChannelLayoutTag)] of the constructor; the second
    component is the tag it reports as unknown. *)
Definition channels_of_layout (layout : AudioChannelLayout) (chMapOut : ChannelMap)
    : ChannelMap * option N :=
  match mChannelLayoutTag layout with
  | kAudioChannelLayoutTag_UseChannelDescriptions =>
      (map AQSChannelToBooChannel (mChannelDescriptions layout), None)
  | kAudioChannelLayoutTag_UseChannelBitmap =>
      let b := mChannelBitmap layout in
      let m := push_if b kAudioChannelBit_Left AudioChannel.FrontLeft chMapOut in
      let m := push_if b kAudioChannelBit_Right AudioChannel.FrontRight m in
      let m := push_if b kAudioChannelBit_Center AudioChannel.FrontCenter m in
      let m := push_if b kAudioChannelBit_LFEScreen AudioChannel.LFE m in
      let m := push_if b kAudioChannelBit_LeftSurround AudioChannel.RearLeft m in
      let m := push_if b kAudioChannelBit_RightSurround AudioChannel.RearRight m in
      let m := push_if b kAudioChannelBit_LeftSurroundDirect AudioChannel.SideLeft m in
      let m := push_if b kAudioChannelBit_RightSurroundDirect AudioChannel.SideRight m in
      (m, None)
  | kAudioChannelLayoutTag_Stereo
  | kAudioChannelLayoutTag_StereoHeadphones =>
      ([AudioChannel.FrontLeft; AudioChannel.FrontRight], None)
  | kAudioChannelLayoutTag_Quadraphonic =>
      ([AudioChannel.FrontLeft; AudioChannel.FrontRight; AudioChannel.RearLeft;
        AudioChannel.RearRight], None)
  | kAudioChannelLayoutTag_Pentagonal =>
      ([AudioChannel.FrontLeft; AudioChannel.FrontRight; AudioChannel.RearLeft;
        AudioChannel.RearRight; AudioChannel.FrontCenter], None)
  | kAudioChannelLayoutTag_other tag =>
      ([AudioChannel.FrontLeft; AudioChannel.FrontRight], Some tag)
  end.

(** [while (chMapOut.m_channelCount < chCount)]
    [chMapOut.m_channels[chMapOut.m_channelCount++] = AudioChannel::Unknown;] *)
Definition pad_unknown (chCount : N) (chMapOut : ChannelMap) : ChannelMap :=
  chMapOut ++ replicate (N.to_nat (chCount - vsize chMapOut)) AudioChannel.Unknown.

(** Calls that leave AQS.cpp while the queue is set up and torn down. *)
Inductive CallbackFn := fn_Callback | fn_DummyCallback.
Inductive QueueProperty :=
| kAudioQueueDeviceProperty_NumberChannels
| kAudioQueueDeviceProperty_SampleRate
| kAudioQueueProperty_ChannelLayout.
Inductive LogLevel := Error | Fatal.

Inductive QCall :=
| call_AudioQueueNewOutput (mSampleRate : float) (mChannelsPerFrame : N) (fn : CallbackFn)
| call_AudioQueueGetProperty (queue : ptr) (prop : QueueProperty)
| call_AudioQueueDispose (queue : ptr) (inImmediate : bool)
| call_AudioQueueAllocateBuffer (queue : ptr) (bytes : N)
| call_memset_zero (buffer : ptr) (bytes : N)
| call_AudioQueueEnqueueBuffer (queue : ptr) (buffer : ptr) (mAudioDataByteSize : N)
| call_AudioQueuePrime (queue : ptr)
| call_AudioQueueStart (queue : ptr)
| call_MIDIClientCreate
| call_MIDIClientDispose (client : N)
| call_notify_one_enter
| call_Log_report (level : LogLevel) (msg : string).

(** AudioToolbox and CoreMIDI as the constructor meets them, each answer a
    function of the calls so far.  A creation gives its status and what it wrote
    through the out pointer, if it wrote; a property query gives its status and
    the value.  [ChannelCount] is declared with [AudioChannelSet], outside
    these sources. *)
Class AudioToolbox := {
  AudioQueueNewOutput : list QCall -> float -> N -> CallbackFn -> Z * option ptr;
  AudioQueueGetProperty_NumberChannels : list QCall -> ptr -> Z * N;
  AudioQueueGetProperty_SampleRate : list QCall -> ptr -> Z * float;
  AudioQueueGetProperty_ChannelLayout : list QCall -> ptr -> Z * AudioChannelLayout;
  AudioQueueAllocateBuffer : list QCall -> ptr -> N -> Z * ptr;
  MIDIClientCreate : list QCall -> option N;
  ChannelCount : AudioChannelSet.t -> N
}.

(** The members of the engine the audio thread does not use, beside those of
    [AQSAudioVoiceEngine]: [m_mixInfo.m_channels], [m_mixInfo.m_channelMap]
    (whose length [m_channelCount] of the mix info repeats), [m_5msFrames], and
    the buffers allocated so far. *)
Record Object (Base : Type) := mkObject {
  engine : AQSAudioVoiceEngine Base;
  m_channels : AudioChannelSet.t;
  m_channelMap : ChannelMap;
  m_5msFrames : N;
  m_buffers : list ptr
}.

Arguments mkObject {Base}.
Arguments engine {Base} _.
Arguments m_channels {Base} _.
Arguments m_channelMap {Base} _.
Arguments m_5msFrames {Base} _.
Arguments m_buffers {Base} _.

Section Setup.
Context {Base : Type} `{AT : AudioToolbox}.

Definition set_engine (f : AQSAudioVoiceEngine Base -> AQSAudioVoiceEngine Base)
    (this : Object Base) : Object Base :=
  mkObject (f (engine this)) (m_channels this) (m_channelMap this) (m_5msFrames this)
    (m_buffers this).

Definition set_queue (x : ptr) (e : AQSAudioVoiceEngine Base) : AQSAudioVoiceEngine Base :=
  mkAQS (base e) (m_mixInfo e) x (m_frameBytes e) (m_midiClient e) (m_inRetrace e)
    (m_inCb e) (m_cbRunning e) (m_midiInCounter e) (m_midiOutCounter e).
Definition set_mixInfo (x : AudioVoiceEngineMixInfo) (e : AQSAudioVoiceEngine Base)
    : AQSAudioVoiceEngine Base :=
  mkAQS (base e) x (m_queue e) (m_frameBytes e) (m_midiClient e) (m_inRetrace e)
    (m_inCb e) (m_cbRunning e) (m_midiInCounter e) (m_midiOutCounter e).
Definition set_frameBytes (x : N) (e : AQSAudioVoiceEngine Base) : AQSAudioVoiceEngine Base :=
  mkAQS (base e) (m_mixInfo e) (m_queue e) x (m_midiClient e) (m_inRetrace e)
    (m_inCb e) (m_cbRunning e) (m_midiInCounter e) (m_midiOutCounter e).
Definition set_midiClient (x : N) (e : AQSAudioVoiceEngine Base) : AQSAudioVoiceEngine Base :=
  mkAQS (base e) (m_mixInfo e) (m_queue e) (m_frameBytes e) x (m_inRetrace e)
    (m_inCb e) (m_cbRunning e) (m_midiInCounter e) (m_midiOutCounter e).
Definition set_cbRunning (x : bool) (e : AQSAudioVoiceEngine Base) : AQSAudioVoiceEngine Base :=
  mkAQS (base e) (m_mixInfo e) (m_queue e) (m_frameBytes e) (m_midiClient e) (m_inRetrace e)
    (m_inCb e) x (m_midiInCounter e) (m_midiOutCounter e).

(** [AudioChannelSet _getAvailableSet()] *)
Definition _getAvailableSet (tr : list QCall) : AudioChannelSet.t * list QCall :=
  let chCount := 8 in
  let '(stat, written) := AudioQueueNewOutput tr 96000 chCount fn_DummyCallback in
  let tr := tr ++ [call_AudioQueueNewOutput 96000 chCount fn_DummyCallback] in
  if negb (stat =? 0)%Z then
    (AudioChannelSet.Unknown,
     tr ++ [call_Log_report Error "unable to create output audio queue"])
  else
    let queue := default nullptr written in
    let '(stat, hwChannels) := AudioQueueGetProperty_NumberChannels tr queue in
    let tr := tr ++ [call_AudioQueueGetProperty queue kAudioQueueDeviceProperty_NumberChannels] in
    if negb (stat =? 0)%Z then
      (AudioChannelSet.Unknown,
       tr ++ [call_Log_report Error "unable to get channel count from audio queue";
              call_AudioQueueDispose queue true])
    else
      let tr := tr ++ [call_AudioQueueDispose queue true] in
      (match hwChannels with
       | 2 => AudioChannelSet.Stereo
       | 4 => AudioChannelSet.Quad
       | 6 => AudioChannelSet.Surround51
       | 8 => AudioChannelSet.Surround71
       | _ => AudioChannelSet.Unknown
       end, tr).

(** The loop that allocates the three buffers: whether all allocations
    succeeded, and the buffers allocated.  [bytes] is the [UInt32] argument
    [inBufferByteSize]. *)
Fixpoint allocate_buffers (n : nat) (queue : ptr) (bytes : N) (bufs : list ptr)
    (tr : list QCall) : bool * list ptr * list QCall :=
  match n with
  | O => (true, bufs, tr)
  | S n' =>
      let '(stat, buf) := AudioQueueAllocateBuffer tr queue bytes in
      let tr := tr ++ [call_AudioQueueAllocateBuffer queue bytes] in
      if negb (stat =? 0)%Z then (false, bufs, tr)
      else allocate_buffers n' queue bytes (bufs ++ [buf]) tr
  end.

(** The loop that fills and enqueues them:
    [memset(m_buffers[i]->mAudioData, 0, m_frameBytes);]
    [m_buffers[i]->mAudioDataByteSize = m_frameBytes;]
    [AudioQueueEnqueueBuffer(m_queue, m_buffers[i], 0, nullptr);]
    [memset] takes the [size_t]; the byte size field is a [UInt32]. *)
Definition enqueue_silence (queue : ptr) (frameBytes : N) (bufs : list ptr) : list QCall :=
  flat_map (fun buf => [call_memset_zero buf frameBytes;
                        call_AudioQueueEnqueueBuffer queue buf (UInt32_of_size_t frameBytes)])
    bufs.

(** [m_mixInfo.m_channelMap] and its count. *)
Definition set_channelMap (chMapOut : ChannelMap) (this : Object Base) : Object Base :=
  let info := m_mixInfo (engine this) in
  mkObject
    (set_mixInfo (mkMixInfo (m_sampleRate info) (m_sampleFormat info) (m_bitsPerSample info)
                    (vsize chMapOut) (m_periodFrames info)) (engine this))
    (m_channels this) chMapOut (m_5msFrames this) (m_buffers this).

(** The constructor from [m_mixInfo.m_periodFrames = m_5msFrames * 3;] on. *)
Definition ctor_buffers (chCount : N) (this : Object Base) (tr : list QCall)
    : Object Base * list QCall :=
  let info := m_mixInfo (engine this) in
  let periodFrames := size_t_mul (m_5msFrames this) 3 in
  let info := mkMixInfo (m_sampleRate info) (m_sampleFormat info) (m_bitsPerSample info)
                (m_channelCount info) periodFrames in
  let this := set_engine (set_mixInfo info) this in
  let queue := m_queue (engine this) in
  let '(ok, bufs, tr) :=
    allocate_buffers 3 queue
      (UInt32_of_size_t (size_t_mul (size_t_mul periodFrames chCount) 4)) [] tr in
  let this := mkObject (engine this) (m_channels this) (m_channelMap this) (m_5msFrames this)
                bufs in
  if negb ok then
    (set_engine (set_queue nullptr) this,
     tr ++ [call_Log_report Fatal "unable to create audio queue buffer";
            call_AudioQueueDispose queue false])
  else
    let frameBytes := size_t_mul (size_t_mul periodFrames (m_channelCount info)) 4 in
    let this := set_engine (set_frameBytes frameBytes) this in
    let tr := tr ++ enqueue_silence queue frameBytes bufs
                 ++ [call_AudioQueuePrime queue; call_AudioQueueStart queue] in
    let written := MIDIClientCreate tr in
    let tr := tr ++ [call_MIDIClientCreate] in
    (set_engine (fun e => set_midiClient (default (m_midiClient e) written) e) this, tr).

(** The constructor from [m_mixInfo.m_sampleRate = actualSampleRate;] on. *)
Definition ctor_configure (chCount : N) (actualSampleRate : float) (this : Object Base)
    (tr : list QCall) : Object Base * list QCall :=
  let info := m_mixInfo (engine this) in
  let info := mkMixInfo actualSampleRate SOXR_FLOAT32_I 32 (m_channelCount info)
                (m_periodFrames info) in
  let ms5 := size_t_of_double (PrimFloat.div (PrimFloat.mul actualSampleRate 5) 1000) in
  let this := mkObject (set_mixInfo info (engine this)) (m_channels this) (m_channelMap this)
                ms5 (m_buffers this) in
  let queue := m_queue (engine this) in
  if 2 <? chCount then
    let '(stat, layout) := AudioQueueGetProperty_ChannelLayout tr queue in
    let tr := tr ++ [call_AudioQueueGetProperty queue kAudioQueueProperty_ChannelLayout] in
    if negb (stat =? 0)%Z then
      (this, tr ++ [call_Log_report Fatal "unable to get channel layout from audio queue"])
    else
      let '(chMapOut, unknown) := channels_of_layout layout (m_channelMap this) in
      let tr := match unknown with
                | Some tag =>
                    tr ++ [call_Log_report Fatal
                             ("unknown channel layout " +:+ pretty tag +:+ "; using stereo")]
                | None => tr
                end in
      ctor_buffers chCount (set_channelMap (pad_unknown chCount chMapOut) this) tr
  else
    let chMapOut := push AudioChannel.FrontRight (push AudioChannel.FrontLeft (m_channelMap this)) in
    ctor_buffers chCount (set_channelMap (pad_unknown chCount chMapOut) this) tr.

(** [AQSAudioVoiceEngine()], on the object as its member initialisers and the
    constructor of [BaseAudioVoiceEngine] left it. *)
Definition AQSAudioVoiceEngine_ctor (this : Object Base) (tr : list QCall)
    : Object Base * list QCall :=
  let '(set, tr) := _getAvailableSet tr in
  let this := mkObject (engine this) set (m_channelMap this) (m_5msFrames this) (m_buffers this) in
  let chCount := ChannelCount set in
  let '(err, written) := AudioQueueNewOutput tr 96000 chCount fn_Callback in
  let tr := tr ++ [call_AudioQueueNewOutput 96000 chCount fn_Callback] in
  let this := set_engine (fun e => set_queue (default (m_queue e) written) e) this in
  if negb (err =? 0)%Z then
    (this, tr ++ [call_Log_report Fatal "unable to create output audio queue"])
  else
    let queue := m_queue (engine this) in
    let '(err, actualSampleRate) := AudioQueueGetProperty_SampleRate tr queue in
    let tr := tr ++ [call_AudioQueueGetProperty queue kAudioQueueDeviceProperty_SampleRate;
                     call_AudioQueueDispose queue true] in
    if negb (err =? 0)%Z then
      (this, tr ++ [call_Log_report Fatal "unable to get native sample rate from audio queue"])
    else
      let '(err, written) := AudioQueueNewOutput tr actualSampleRate chCount fn_Callback in
      let tr := tr ++ [call_AudioQueueNewOutput actualSampleRate chCount fn_Callback] in
      let this := set_engine (fun e => set_queue (default (m_queue e) written) e) this in
      if negb (err =? 0)%Z then
        (this, tr ++ [call_Log_report Fatal "unable to create output audio queue"])
      else ctor_configure chCount actualSampleRate this tr.

(** [~AQSAudioVoiceEngine()] *)
Definition AQSAudioVoiceEngine_dtor (this : Object Base) (tr : list QCall)
    : Object Base * list QCall :=
  let this := set_engine (set_cbRunning false) this in
  let tr := if m_inCb (engine this) then tr ++ [call_notify_one_enter] else tr in
  let tr := tr ++ [call_AudioQueueDispose (m_queue (engine this)) true] in
  let tr := if nonnull (m_midiClient (engine this))
            then tr ++ [call_MIDIClientDispose (m_midiClient (engine this))] else tr in
  (this, tr).


End Setup.

(** The queues a stretch of calls disposes of, and the calls that write to or
    hand over a buffer. *)
Definition queues_disposed (l : list QCall) : list ptr :=
  flat_map (fun c => match c with call_AudioQueueDispose q _ => [q] | _ => [] end) l.

Definition is_Log_report (c : QCall) : bool :=
  match c with call_Log_report _ _ => true | _ => false end.

Definition is_Start (c : QCall) : bool :=
  match c with call_AudioQueueStart _ => true | _ => false end.

(** Calls that allocate, fill, enqueue or play buffers, or create the MIDI
    client: the constructor's last stretch. *)
Definition is_buffer_call (c : QCall) : bool :=
  match c with
  | call_AudioQueueAllocateBuffer _ _ | call_memset_zero _ _
  | call_AudioQueueEnqueueBuffer _ _ _ | call_AudioQueuePrime _ | call_AudioQueueStart _
  | call_MIDIClientCreate => true
  | _ => false
  end.



(** *** Vocabulary for the lookups *)

(** A device [LookupMIDIDevice] stops at: its reference is not null, its
    unique id reads, and the id formats to [name]. *)
Definition device_matches (name : string) (dev : MIDIDevice) : Prop :=
  dev_ref dev <> 0 /\ exists idNum, dev_uniqueID dev = Some idNum /\ hex8 idNum = name.

(** An endpoint the nested loops of [LookupMIDISource] and [LookupMIDIDest]
    can stop at: not null, and listed by an entity of [dev] whose reference is
    not null. *)
Definition endpoint_of (endpoints : MIDIEntity -> list N) (dev : MIDIDevice) (e : N) : Prop :=
  e <> 0 /\ exists ent, In ent (dev_entities dev) /\ ent_ref ent <> 0 /\ In e (endpoints ent).

(** *** Vocabulary for the references a constructor holds *)

(** The references a stretch of trace gives back to CoreMIDI, in order. *)
Definition disposed (l : list Event) : list N :=
  flat_map (fun ev => match ev with
                      | ev_MIDIEndpointDispose r | ev_MIDIPortDispose r => [r]
                      | _ => []
                      end) l.

(** The reference a CoreMIDI creation wrote, if it wrote one. *)
Definition written (r : Z * N) : list N := if nonnull r.2 then [r.2] else [].

Section References.
Context {Base : Type} `{CA : CoreAudio Base}.

(** The references CoreMIDI wrote during the stretch [added] that follows
    [tr], in order. *)
Fixpoint refs_written (tr added : list Event) : list N :=
  match added with
  | [] => []
  | ev :: rest =>
      match ev with
      | ev_MIDIDestinationCreate client name => written (MIDIDestinationCreate tr client name)
      | ev_MIDISourceCreate client name => written (MIDISourceCreate tr client name)
      | ev_MIDIInputPortCreate client name => written (MIDIInputPortCreate tr client name)
      | ev_MIDIOutputPortCreate client name => written (MIDIOutputPortCreate tr client name)
      | _ => []
      end ++ refs_written (tr ++ [ev]) rest
  end.

(** A constructor result [r] on trace [tr] hands back what it does not keep:
    a null result has disposed of every reference written meanwhile; an object
    has disposed of nothing, and its destructor disposes of exactly the
    references written and those in [borrowed]. *)
Definition hands_back {T} (destructor : T -> list Event) (borrowed : list N) (tr : list Event)
    (r : option T * AQSAudioVoiceEngine Base * list Event) : Prop :=
  let added := drop (length tr) r.2 in
  r.2 = tr ++ added
  /\ match r.1.1 with
     | None => disposed added = refs_written tr added
     | Some x =>
         disposed added = []
         /\ Permutation (disposed (destructor x)) (refs_written tr added ++ borrowed)
     end.

End References.

End AQS.

(** ** The HID listener (CHIDListenerIOKit.cpp) *)

Module HID.

(** [CDeviceToken(vid, pid, manuf, product, device)]; the last member is the
    [IOHIDDeviceRef], the OS handle. *)
Record CDeviceToken := mkToken {
  tok_vid : Z;
  tok_pid : Z;
  tok_manuf : string;
  tok_product : string;
  tok_handle : N
}.

(** Modelled from the spec: [CDeviceFinder] is declared outside these sources.
    Section 3.3: "Finder: a set of tokens keyed by OS handle, guarded by a
    lock"; section 6: "[has_token(handle) -> bool], [insert_token(token)],
    [remove_token(handle)]". *)
Definition _hasToken (handle : N) (tokens : gmap N CDeviceToken) : bool :=
  bool_decide (is_Some (tokens !! handle)).

Definition _insertToken (token : CDeviceToken) (tokens : gmap N CDeviceToken) : gmap N CDeviceToken :=
  <[tok_handle token := token]> tokens.

Definition _removeToken (handle : N) (tokens : gmap N CDeviceToken) : gmap N CDeviceToken :=
  delete handle tokens.

(** The properties IOKit reports for a device: vendor id, product id,
    manufacturer and product strings. *)
Class IOKit := {
  IOHIDDeviceGetProperty : N -> Z * Z * string * string
}.

(** [class CHIDListenerIOKit]: the finder it refers to, the scanning flag, and
    the blocks queued on the listener's run loop ([CFRunLoopPerformBlock]),
    each a removal waiting for the listener thread. *)
Record CHIDListenerIOKit := mkListener {
  m_finder : gmap N CDeviceToken;
  m_scanningEnabled : bool;
  m_runLoopBlocks : list N
}.

Section Listener.
Context `{IO : IOKit}.

Definition make_token (device : N) : CDeviceToken :=
  let '(vid, pid, manuf, product) := IOHIDDeviceGetProperty device in
  mkToken vid pid manuf product device.

(** [static void deviceConnected(CHIDListenerIOKit* listener, IOReturn, void*, IOHIDDeviceRef device)] *)
Definition deviceConnected (listener : CHIDListenerIOKit) (device : N) : CHIDListenerIOKit :=
  if negb (m_scanningEnabled listener) then listener
  else if _hasToken device (m_finder listener) then listener
  else mkListener (_insertToken (make_token device) (m_finder listener))
         (m_scanningEnabled listener) (m_runLoopBlocks listener).

(** [static void deviceDisconnected(CHIDListenerIOKit* listener, IOReturn ret, void* sender, IOHIDDeviceRef device)];
    [on_listener_thread] is [CFRunLoopGetCurrent() == listener->m_listenerRunLoop]. *)
Definition deviceDisconnected (on_listener_thread : bool) (listener : CHIDListenerIOKit)
    (device : N) : CHIDListenerIOKit :=
  if negb on_listener_thread
  then mkListener (m_finder listener) (m_scanningEnabled listener)
         (m_runLoopBlocks listener ++ [device])
  else mkListener (_removeToken device (m_finder listener)) (m_scanningEnabled listener)
         (m_runLoopBlocks listener).

(** One turn of the listener's run loop: the queued blocks run, in order, on
    the listener thread. *)
Definition run_loop_tick (listener : CHIDListenerIOKit) : CHIDListenerIOKit :=
  fold_left (deviceDisconnected true)
    (m_runLoopBlocks listener)
    (mkListener (m_finder listener) (m_scanningEnabled listener) []).

(** [static void applyDevice(IOHIDDeviceRef device, CHIDListenerIOKit* listener)] *)
Definition applyDevice (device : N) (listener : CHIDListenerIOKit) : CHIDListenerIOKit :=
  if _hasToken device (m_finder listener) then listener
  else mkListener (_insertToken (make_token device) (m_finder listener))
         (m_scanningEnabled listener) (m_runLoopBlocks listener).

(** [bool startScanning()], [bool stopScanning()] *)
Definition startScanning (listener : CHIDListenerIOKit) : bool * CHIDListenerIOKit :=
  (true, mkListener (m_finder listener) true (m_runLoopBlocks listener)).
Definition stopScanning (listener : CHIDListenerIOKit) : bool * CHIDListenerIOKit :=
  (true, mkListener (m_finder listener) false (m_runLoopBlocks listener)).

(** [bool scanNow()] over the devices [IOHIDManagerCopyDevices] returns. *)
Definition scanNow (devs : list N) (listener : CHIDListenerIOKit) : bool * CHIDListenerIOKit :=
  (true, fold_left (fun l d => applyDevice d l) devs listener).

(** What the HID manager has pending when the run loop is turned: devices
    matched and devices removed, delivered on the thread that turns it. *)
Inductive Pending :=
| matched (device : N)
| removed (device : N).

(** [CFRunLoopRunInMode(kCFRunLoopDefaultMode, 0, false)] on the listener's
    thread: the pending callbacks, then the blocks queued on the loop. *)
Definition CFRunLoopRunInMode (pending : list Pending) (listener : CHIDListenerIOKit)
    : CHIDListenerIOKit :=
  run_loop_tick
    (fold_left (fun l p => match p with
                           | matched d => deviceConnected l d
                           | removed d => deviceDisconnected true l d
                           end) pending listener).

(** [CHIDListenerIOKit(CDeviceFinder& finder)], as [IHIDListenerNew] calls it.
    [ret] is what [IOHIDManagerOpen] returns ([kIOReturnSuccess] is [0]);
    [None] is the [std::runtime_error] thrown, with the finder as it was. *)
Definition IHIDListenerNew (finder : gmap N CDeviceToken) (ret : Z) (pending : list Pending)
    : option CHIDListenerIOKit :=
  if negb (ret =? 0)%Z then None
  else
    let listener := mkListener finder true [] in
    let listener := CFRunLoopRunInMode pending listener in
    Some (mkListener (m_finder listener) false (m_runLoopBlocks listener)).

(** *** What happens to a listener *)

Inductive ListenerEvent :=
| ev_deviceConnected (device : N)
| ev_deviceDisconnected (on_listener_thread : bool) (device : N)
| ev_run_loop_tick
| ev_startScanning
| ev_stopScanning
| ev_scanNow (devs : list N).

Definition handle (listener : CHIDListenerIOKit) (ev : ListenerEvent) : CHIDListenerIOKit :=
  match ev with
  | ev_deviceConnected d => deviceConnected listener d
  | ev_deviceDisconnected t d => deviceDisconnected t listener d
  | ev_run_loop_tick => run_loop_tick listener
  | ev_startScanning => (startScanning listener).2
  | ev_stopScanning => (stopScanning listener).2
  | ev_scanNow devs => (scanNow devs listener).2
  end.

Definition handle_all (evs : list ListenerEvent) (listener : CHIDListenerIOKit)
    : CHIDListenerIOKit :=
  fold_left handle evs listener.

(** An event that can add a token whatever the scanning flag says, or that
    sets the flag. *)
Definition opens_scanning (ev : ListenerEvent) : bool :=
  match ev with ev_startScanning | ev_scanNow _ => true | _ => false end.

End Listener.

(** Every token of the finder sits under its own handle. *)
Definition finder_keyed (tokens : gmap N CDeviceToken) : Prop :=
  forall h tok, tokens !! h = Some tok -> tok_handle tok = h.

End HID.

(** ** A small concrete setting

    An engine at 48 kHz with a mono and a stereo voice; a resampler that asks
    its input function once for as many frames as it is asked for and passes
    them through; a client that supplies a constant and routes unchanged;
    matrices that count the frames they mixed and add the input to the merge
    buffer.  An AudioQueue engine at 96 kHz whose client never arrives and for
    which CoreMIDI refuses to create a destination.  One HID device.  The
    examples below run the embedded code on them. *)

Module Sample.

Import Audio.

Definition add_samples (input output : Samples) (n : N) : Samples :=
  match input, output with
  | S16 i, S16 o => S16 (zip_with Z.add (take (N.to_nat n) i) o)
  | S32 i, S32 o => S32 (zip_with Z.add (take (N.to_nat n) i) o)
  | SFlt i, SFlt o => SFlt (zip_with PrimFloat.add (take (N.to_nat n) i) o)
  | _, _ => output
  end.

Definition world : World := {|
  soxr_create := fun _ _ _ _ _ _ => (1, None);
  soxr_set_io_ratio := fun _ _ _ _ => None;
  soxr_output := fun _ _ frames =>
    soxr_pull frames (fun data got => soxr_done (S16 (take (N.to_nat got) data)) got);
  preSupplyAudio := fun _ _ _ => [];
  supplyAudio := fun _ _ frames _ => ([], replicate (N.to_nat frames) 7%Z, frames);
  routeAudio := fun _ _ _ _ _ _ input _ => input;
  send_order := fun _ _ k => match k with MainSubmix => 0 | HeapSubmix a => 1000 - a end;
  stray_submix := fun _ => mkSubmix 0 [] [] []
|}.

(** The same world with a libsoxr that cannot create a resampler. *)
Definition world_no_resampler : World := {|
  soxr_create := fun _ _ _ _ _ _ => (0, Some "out of memory");
  soxr_set_io_ratio := fun _ _ _ _ => None;
  soxr_output := fun _ _ frames =>
    soxr_pull frames (fun data got => soxr_done (S16 (take (N.to_nat got) data)) got);
  preSupplyAudio := fun _ _ _ => [];
  supplyAudio := fun _ _ frames _ => ([], replicate (N.to_nat frames) 7%Z, frames);
  routeAudio := fun _ _ _ _ _ _ input _ => input;
  send_order := fun _ _ k => match k with MainSubmix => 0 | HeapSubmix a => 1000 - a end;
  stray_submix := fun _ => mkSubmix 0 [] [] []
|}.

Definition matrices : Matrices := {|
  AudioMatrixMono := N;
  AudioMatrixStereo := N;
  AudioMatrixMono_new := 0;
  AudioMatrixStereo_new := 0;
  setMatrixCoefficientsMono := fun _ _ m => m;
  setMatrixCoefficientsStereo := fun _ _ m => m;
  mixMonoSampleData := fun _ input output n m => (m + n, add_samples input output n);
  mixStereoSampleData := fun _ input output n m => (m + n, add_samples input output (2 * n))
|}.

Definition mixInfo : AudioVoiceEngineMixInfo := mkMixInfo 48000 SOXR_INT16_I 16 2 720.

Definition main_submix : AudioSubmix := mkSubmix 0 [] [] [].

Definition root : BaseAudioVoiceEngine :=
  mkRoot mixInfo 240 [] [] [] [] [] [] [] main_submix {[ 64 := mkSubmix 1 [] [] [] ]} false.

Definition voice {Mtx} (dynamicRate silentOut : bool) : AudioVoice Mtx :=
  mkVoice 100 dynamicRate 1 48000 48000 false 48000 false 1 false true true silentOut [].

Definition state {Mtx} (v : AudioVoice Mtx) : @State matrices Mtx :=
  @mkState matrices Mtx v root 0 0 [].

Definition engine : @Engine matrices :=
  @mkEngine matrices [@VMono matrices (voice true false); @VStereo matrices (voice true true)]
    root 0 0 [].

Definition core_audio : AQS.CoreAudio unit := {|
  AQS.wait_for := fun _ _ => (AQS.timeout, false);
  AQS._pumpAndMixVoices := fun b _ data => (b, data);
  AQS.midi_devices := fun _ => [AQS.mkDevice 3 (Some 48879%Z) [AQS.mkEntity 4 [0; 5] []]];
  AQS.MIDIDestinationCreate := fun _ _ _ => ((-50)%Z, 0);
  AQS.MIDISourceCreate := fun _ _ _ => (0%Z, 11);
  AQS.MIDIInputPortCreate := fun _ _ _ => (0%Z, 12);
  AQS.MIDIOutputPortCreate := fun _ _ _ => (0%Z, 13)
|}.

Definition aqs_engine : AQS.AQSAudioVoiceEngine unit :=
  AQS.mkAQS tt (mkMixInfo 96000 SOXR_FLOAT32_I 32 2 1440) 1 11520 1 false false true 0 0.

Definition aqs_buffer : AQS.AudioQueueBuffer := AQS.mkBuffer 0 (replicate (N.to_nat 11520) "001"%byte).

Definition iokit : HID.IOKit := {|
  HID.IOHIDDeviceGetProperty := fun _ => (1406%Z, 823%Z, "Nintendo", "WUP-028")
|}.

(** A 5.1 device at 48 kHz whose layout comes as a bitmap; every call
    succeeds, queues and buffers are numbered by the calls made so far. *)
Definition audio_toolbox : AQS.AudioToolbox := {|
  AQS.AudioQueueNewOutput := fun tr _ _ _ => (0%Z, Some (100 + N.of_nat (length tr)));
  AQS.AudioQueueGetProperty_NumberChannels := fun _ _ => (0%Z, 6);
  AQS.AudioQueueGetProperty_SampleRate := fun _ _ => (0%Z, 48000%float);
  AQS.AudioQueueGetProperty_ChannelLayout :=
    fun _ _ => (0%Z, AQS.mkLayout AQS.kAudioChannelLayoutTag_UseChannelBitmap 63 []);
  AQS.AudioQueueAllocateBuffer := fun tr _ _ => (0%Z, 200 + N.of_nat (length tr));
  AQS.MIDIClientCreate := fun _ => Some 1;
  AQS.ChannelCount := fun set =>
    match set with
    | AQS.AudioChannelSet.Stereo => 2
    | AQS.AudioChannelSet.Quad => 4
    | AQS.AudioChannelSet.Surround51 => 6
    | AQS.AudioChannelSet.Surround71 => 8
    | AQS.AudioChannelSet.Unknown => 0
    end
|}.

(** The same device when the third buffer cannot be allocated. *)
Definition audio_toolbox_short : AQS.AudioToolbox := {|
  AQS.AudioQueueNewOutput := fun tr _ _ _ => (0%Z, Some (100 + N.of_nat (length tr)));
  AQS.AudioQueueGetProperty_NumberChannels := fun _ _ => (0%Z, 6);
  AQS.AudioQueueGetProperty_SampleRate := fun _ _ => (0%Z, 48000%float);
  AQS.AudioQueueGetProperty_ChannelLayout :=
    fun _ _ => (0%Z, AQS.mkLayout AQS.kAudioChannelLayoutTag_UseChannelBitmap 63 []);
  AQS.AudioQueueAllocateBuffer :=
    fun tr _ _ => if (length tr <? 9)%nat then (0%Z, 200 + N.of_nat (length tr))
                  else ((-108)%Z, 0);
  AQS.MIDIClientCreate := fun _ => Some 1;
  AQS.ChannelCount := fun set =>
    match set with
    | AQS.AudioChannelSet.Stereo => 2
    | AQS.AudioChannelSet.Quad => 4
    | AQS.AudioChannelSet.Surround51 => 6
    | AQS.AudioChannelSet.Surround71 => 8
    | AQS.AudioChannelSet.Unknown => 0
    end
|}.

(** A stereo device that reports a rate of 40 GHz: a period of buffer bytes
    no longer fits 32 bits. *)
Definition audio_toolbox_fast : AQS.AudioToolbox := {|
  AQS.AudioQueueNewOutput := fun tr _ _ _ => (0%Z, Some (100 + N.of_nat (length tr)));
  AQS.AudioQueueGetProperty_NumberChannels := fun _ _ => (0%Z, 2);
  AQS.AudioQueueGetProperty_SampleRate := fun _ _ => (0%Z, 40000000000%float);
  AQS.AudioQueueGetProperty_ChannelLayout :=
    fun _ _ => (0%Z, AQS.mkLayout AQS.kAudioChannelLayoutTag_Stereo 0 []);
  AQS.AudioQueueAllocateBuffer := fun tr _ _ => (0%Z, 200 + N.of_nat (length tr));
  AQS.MIDIClientCreate := fun _ => Some 1;
  AQS.ChannelCount := fun set =>
    match set with
    | AQS.AudioChannelSet.Stereo => 2
    | AQS.AudioChannelSet.Quad => 4
    | AQS.AudioChannelSet.Surround51 => 6
    | AQS.AudioChannelSet.Surround71 => 8
    | AQS.AudioChannelSet.Unknown => 0
    end
|}.

(** The engine object as its member initialisers leave it. *)
Definition fresh_object : AQS.Object unit :=
  AQS.mkObject
    (AQS.mkAQS tt (mkMixInfo 0%float SOXR_INT16_I 0 0 0) nullptr 0 0 false false true 0 0)
    AQS.AudioChannelSet.Unknown [] 0 [].

End Sample.

(** * Properties *)

(** ** Pointers and sizes *)

Lemma nonnull_nullptr : nonnull nullptr = false.
Proof. reflexivity. Qed.

Lemma nonnull_true p : nonnull p = true <-> p <> nullptr.
Proof.
  unfold nonnull, nullptr. rewrite negb_true_iff, N.eqb_neq. reflexivity.
Qed.

Lemma nonnull_false p : nonnull p = false <-> p = nullptr.
Proof.
  unfold nonnull, nullptr. rewrite negb_false_iff, N.eqb_eq. reflexivity.
Qed.

(** ** Vectors *)

Section VectorFacts.
Import Audio.
Context {A : Type}.
Implicit Types (v w : list A) (zero : A) (n m : N).

Lemma vsize_store w v : vsize (store w v) = vsize v.
Proof. unfold vsize, store. rewrite length_inserts. reflexivity. Qed.

Lemma length_store w v : length (store w v) = length v.
Proof. unfold store. apply length_inserts. Qed.

Lemma vsize_vresize zero n v : vsize (vresize zero n v) = n.
Proof. unfold vsize, vresize. rewrite length_resize. lia. Qed.

Lemma grow_enough zero n m v : n <= vsize v -> grow zero n m v = v.
Proof.
  intros H. unfold grow. destruct (N.ltb_spec (vsize v) n) as [Hlt|_]; [lia|reflexivity].
Qed.

Lemma vsize_grow zero n m v :
  vsize (grow zero n m v) = if vsize v <? n then m else vsize v.
Proof.
  unfold grow. destruct (vsize v <? n); [apply vsize_vresize|reflexivity].
Qed.

Lemma vsize_grow_demand zero n m v : n <= m -> n <= vsize (grow zero n m v).
Proof.
  intros H. rewrite vsize_grow. destruct (N.ltb_spec (vsize v) n); lia.
Qed.

Lemma vsize_grow_mono zero n m v : n <= m -> vsize v <= vsize (grow zero n m v).
Proof.
  intros H. rewrite vsize_grow. destruct (N.ltb_spec (vsize v) n); lia.
Qed.

Lemma store_prefix w v :
  (length w <= length v)%nat -> store w v = w ++ drop (length w) v.
Proof.
  intros H. unfold store.
  rewrite <- (take_drop (length w) v) at 1.
  apply list_inserts_0_r. rewrite length_take. lia.
Qed.

End VectorFacts.

(** ** Lifetime tokens *)

Section TokenFacts.
Import Gfx.

Lemma data_doDestroy_holding f d log :
  f <> nullptr -> d <> nullptr ->
  GraphicsDataToken.doDestroy (GraphicsDataToken.make f d) log
  = (GraphicsDataToken.default, log ++ [destroyData f d]).
Proof.
  intros Hf Hd. unfold GraphicsDataToken.doDestroy. simpl.
  apply nonnull_true in Hf, Hd. rewrite Hf, Hd. reflexivity.
Qed.

Lemma data_doDestroy_empty tok log :
  GraphicsDataToken.to_bool tok = false ->
  GraphicsDataToken.doDestroy tok log = (tok, log).
Proof.
  unfold GraphicsDataToken.to_bool, GraphicsDataToken.doDestroy. intros ->. reflexivity.
Qed.

Lemma pool_doDestroy_holding f p log :
  f <> nullptr -> p <> nullptr ->
  GraphicsBufferPoolToken.doDestroy (GraphicsBufferPoolToken.make f p) log
  = (GraphicsBufferPoolToken.default, log ++ [destroyPool f p]).
Proof.
  intros Hf Hp. unfold GraphicsBufferPoolToken.doDestroy. simpl.
  apply nonnull_true in Hf, Hp. rewrite Hf, Hp. reflexivity.
Qed.

Lemma pool_doDestroy_empty tok log :
  GraphicsBufferPoolToken.to_bool tok = false ->
  GraphicsBufferPoolToken.doDestroy tok log = (tok, log).
Proof.
  unfold GraphicsBufferPoolToken.to_bool, GraphicsBufferPoolToken.doDestroy. intros ->. reflexivity.
Qed.

(** Any number of further drops of an empty token. *)
Lemma data_drops_empty n log :
  Nat.iter n (fun st => GraphicsDataToken.doDestroy st.1 st.2) (GraphicsDataToken.default, log)
  = (GraphicsDataToken.default, log).
Proof. induction n as [|n IH]; [reflexivity|]. simpl. rewrite IH. reflexivity. Qed.

Lemma pool_drops_empty n log :
  Nat.iter n (fun st => GraphicsBufferPoolToken.doDestroy st.1 st.2)
    (GraphicsBufferPoolToken.default, log)
  = (GraphicsBufferPoolToken.default, log).
Proof. induction n as [|n IH]; [reflexivity|]. simpl. rewrite IH. reflexivity. Qed.

(** C4.  A token that holds a committed group (factory and data both
    non-null) calls the factory's [destroyData] on that group exactly once on
    its first drop, destructor and [doDestroy] alike, and is empty afterwards;
    whatever number of [doDestroy] calls or drops follow on the same token add
    no factory call.  The same holds for the pool token with [destroyPool]. *)
Theorem token_drop_exactly_once :
  forall (f g : ptr) (log : FactoryLog) (n : nat),
    f <> nullptr -> g <> nullptr ->
    GraphicsDataToken.destructor (GraphicsDataToken.make f g) log
      = (GraphicsDataToken.default, log ++ [destroyData f g])
    /\ GraphicsDataToken.doDestroy (GraphicsDataToken.make f g) log
      = (GraphicsDataToken.default, log ++ [destroyData f g])
    /\ Nat.iter (S n) (fun st => GraphicsDataToken.doDestroy st.1 st.2)
         (GraphicsDataToken.make f g, log)
      = (GraphicsDataToken.default, log ++ [destroyData f g])
    /\ GraphicsBufferPoolToken.destructor (GraphicsBufferPoolToken.make f g) log
      = (GraphicsBufferPoolToken.default, log ++ [destroyPool f g])
    /\ GraphicsBufferPoolToken.doDestroy (GraphicsBufferPoolToken.make f g) log
      = (GraphicsBufferPoolToken.default, log ++ [destroyPool f g])
    /\ Nat.iter (S n) (fun st => GraphicsBufferPoolToken.doDestroy st.1 st.2)
         (GraphicsBufferPoolToken.make f g, log)
      = (GraphicsBufferPoolToken.default, log ++ [destroyPool f g]).
Proof.
  intros f g log n Hf Hg.
  pose proof (data_doDestroy_holding f g log Hf Hg) as Hd.
  pose proof (pool_doDestroy_holding f g log Hf Hg) as Hp.
  repeat split; try assumption.
  - rewrite Nat.iter_succ_r. cbn [fst snd]. rewrite Hd. apply data_drops_empty.
  - rewrite Nat.iter_succ_r. cbn [fst snd]. rewrite Hp. apply pool_drops_empty.
Qed.

Lemma token_drop_exactly_once_witness :
  Nat.iter 3 (fun st => GraphicsDataToken.doDestroy st.1 st.2) (GraphicsDataToken.make 7 9, [])
  = (GraphicsDataToken.default, [destroyData 7 9]).
Proof.
  exact (proj1 (proj2 (proj2 (token_drop_exactly_once 7 9 [] 2 ltac:(discriminate) ltac:(discriminate))))).
Defined.

Lemma data_moved_from_is_empty (tok : GraphicsDataToken.t) :
  GraphicsDataToken.m_factory tok = nullptr -> GraphicsDataToken.m_data tok = nullptr ->
  GraphicsDataToken.to_bool tok = false
  /\ forall log, GraphicsDataToken.destructor tok log = (tok, log).
Proof.
  intros Hf Hd.
  assert (GraphicsDataToken.to_bool tok = false) as H.
  { unfold GraphicsDataToken.to_bool. rewrite Hf. reflexivity. }
  split; [exact H|]. intros log. apply data_doDestroy_empty, H.
Qed.

Lemma pool_moved_from_is_empty (tok : GraphicsBufferPoolToken.t) :
  GraphicsBufferPoolToken.m_factory tok = nullptr -> GraphicsBufferPoolToken.m_pool tok = nullptr ->
  GraphicsBufferPoolToken.to_bool tok = false
  /\ forall log, GraphicsBufferPoolToken.destructor tok log = (tok, log).
Proof.
  intros Hf Hd.
  assert (GraphicsBufferPoolToken.to_bool tok = false) as H.
  { unfold GraphicsBufferPoolToken.to_bool. rewrite Hf. reflexivity. }
  split; [exact H|]. intros log. apply pool_doDestroy_empty, H.
Qed.

(** *** Programs over tokens keep single ownership *)

Lemma DataTokens_ok : TokenClass_ok DataTokens.
Proof.
  split; [reflexivity|].
  split.
  { intros [f d] log. cbn. unfold GraphicsDataToken.doDestroy, GraphicsDataToken.to_bool.
    cbn. destruct (nonnull f && nonnull d); reflexivity. }
  split; [intros [f d]; reflexivity|].
  split.
  { intros [f d] [f' d'] log. cbn.
    unfold GraphicsDataToken.move_assign, GraphicsDataToken.doDestroy.
    cbn. destruct (nonnull f && nonnull d); reflexivity. }
  split.
  { intros [f d] log. cbn.
    unfold GraphicsDataToken.move_assign_self, GraphicsDataToken.doDestroy.
    cbn. destruct (nonnull f && nonnull d); reflexivity. }
  intros f d f' d' H. cbn in H. injection H as -> ->. split; reflexivity.
Qed.

Lemma PoolTokens_ok : TokenClass_ok PoolTokens.
Proof.
  split; [reflexivity|].
  split.
  { intros [f d] log. cbn. unfold GraphicsBufferPoolToken.doDestroy, GraphicsBufferPoolToken.to_bool.
    cbn. destruct (nonnull f && nonnull d); reflexivity. }
  split; [intros [f d]; reflexivity|].
  split.
  { intros [f d] [f' d'] log. cbn.
    unfold GraphicsBufferPoolToken.move_assign, GraphicsBufferPoolToken.doDestroy.
    cbn. destruct (nonnull f && nonnull d); reflexivity. }
  split.
  { intros [f d] log. cbn.
    unfold GraphicsBufferPoolToken.move_assign_self, GraphicsBufferPoolToken.doDestroy.
    cbn. destruct (nonnull f && nonnull d); reflexivity. }
  intros f d f' d' H. cbn in H. injection H as -> ->. split; reflexivity.
Qed.

Ltac look :=
  repeat match goal with
  | H : <[_ := _]> _ !! _ = Some _ |- _ =>
      apply lookup_insert_Some in H as [[? ?]|[? H]]; subst
  | H : delete _ _ !! _ = Some _ |- _ =>
      apply lookup_delete_Some in H as [? H]
  end.

(** Destroying the group of one live token keeps the other live tokens'
    groups out of the log. *)
Lemma destroy_keeps_single_owner K (h : gmap nat (tc_T K)) log x tx :
  TokenClass_ok K -> single_owner K (h, log) -> h !! x = Some tx ->
  NoDup (tc_doDestroy K tx log).2
  /\ forall z tz f d, z <> x -> h !! z = Some tz -> tc_held K tz = Some (f, d) ->
       tc_call K f d ∉ (tc_doDestroy K tx log).2.
Proof.
  intros (Hdef & Hdes & Hmc & Hma & Hself & Hinj) (HU & HF & HN) Hx.
  cbn [fst snd] in HU, HF, HN. rewrite Hdes.
  destruct (tc_held K tx) as [[fx dx]|] eqn:Hh; cbn [snd].
  - split.
    + apply NoDup_app. split; [exact HN|]. split; [|apply NoDup_singleton].
      intros c Hc Hc'. apply list_elem_of_singleton in Hc'. subst c.
      exact (HF _ _ _ _ Hx Hh Hc).
    + intros z tz f d Hne Hz Hg Hin. apply elem_of_app in Hin as [Hin|Hin].
      * exact (HF _ _ _ _ Hz Hg Hin).
      * apply list_elem_of_singleton in Hin. apply Hinj in Hin as [-> ->].
        apply Hne. exact (HU _ _ _ _ _ Hz Hx Hg Hh).
  - split; [exact HN|]. intros z tz f d _ Hz Hg. exact (HF _ _ _ _ Hz Hg).
Qed.

Ltac owner HU :=
  try congruence; try reflexivity;
  try (exfalso;
       match goal with
       | H : _ <> _ |- _ =>
           solve [ apply H; eapply HU; eassumption
                 | apply H; symmetry; eapply HU; eassumption ]
       end);
  eauto.

Lemma exec_single_owner K op st :
  TokenClass_ok K -> single_owner K st -> single_owner K (exec K op st).
Proof.
  intros HK Hst. destruct st as [h log].
  pose proof HK as (Hdef & Hdes & Hmc & Hma & Hself & Hinj).
  pose proof Hst as (HU & HF & HN). cbn [fst snd] in HU, HF, HN.
  destruct op as [x|x y|x y|x|x]; unfold exec; cbn [fst snd].
  - destruct (h !! x) eqn:Hx; [exact Hst|].
    split; [|split]; cbn [fst snd]; [| |exact HN].
    + intros a b ta tb g Ha Hb Hga Hgb. look; owner HU.
    + intros a ta f d Ha Hg. look; owner HU.
  - destruct (h !! x) eqn:Hx; [exact Hst|].
    destruct (h !! y) as [ty|] eqn:Hy; [|exact Hst].
    rewrite Hmc. cbn [fst snd].
    split; [|split]; cbn [fst snd]; [| |exact HN].
    + intros a b ta tb g Ha Hb Hga Hgb. look; owner HU.
    + intros a ta f d Ha Hg. look; owner HU.
  - destruct (h !! x) as [tx|] eqn:Hx; [|exact Hst].
    destruct (h !! y) as [ty|] eqn:Hy; [|exact Hst].
    destruct (destroy_keeps_single_owner K h log x tx HK Hst Hx) as [HN' HF'].
    destruct (decide (x = y)) as [->|Hxy].
    + rewrite Hself. cbn [fst snd].
      split; [|split]; cbn [fst snd]; [| |exact HN'].
      * intros a b ta tb g Ha Hb Hga Hgb. look; owner HU.
      * intros a ta f d Ha Hg. look; owner HU.
    + rewrite Hma. cbn [fst snd].
      split; [|split]; cbn [fst snd]; [| |exact HN'].
      * intros a b ta tb g Ha Hb Hga Hgb. look; owner HU.
      * intros a ta f d Ha Hg. look; owner HU.
  - destruct (h !! x) as [tx|] eqn:Hx; [|exact Hst].
    destruct (destroy_keeps_single_owner K h log x tx HK Hst Hx) as [HN' HF'].
    assert (forall g, tc_held K (tc_doDestroy K tx log).1 = Some g -> False) as Hgone.
    { intros g. rewrite Hdes. destruct (tc_held K tx) as [[? ?]|] eqn:Hh; cbn [fst]; congruence. }
    split; [|split]; cbn [fst snd]; [| |exact HN'].
    + intros a b ta tb g Ha Hb Hga Hgb. look; owner HU; try (exfalso; eauto).
    + intros a ta f d Ha Hg. look; owner HU; try (exfalso; eauto).
  - destruct (h !! x) as [tx|] eqn:Hx; [|exact Hst].
    destruct (destroy_keeps_single_owner K h log x tx HK Hst Hx) as [HN' HF'].
    split; [|split]; cbn [fst snd]; [| |exact HN'].
    + intros a b ta tb g Ha Hb Hga Hgb. look; owner HU.
    + intros a ta f d Ha Hg. look; owner HU.
Qed.

Lemma exec_all_single_owner K ops st :
  TokenClass_ok K -> single_owner K st -> single_owner K (exec_all K ops st).
Proof.
  intros HK. unfold exec_all. revert st.
  induction ops as [|op ops IH]; intros st Hst; [exact Hst|].
  cbn [fold_left]. apply IH, exec_single_owner; assumption.
Qed.

(** C5.  Tokens are move-only.  Move construction hands the factory and data
    pointers of the source to the new token and leaves the source empty: its
    conversion to [bool] is false and its destructor calls nothing.  Move
    assignment runs [doDestroy] on the destination first, so the group it held
    is destroyed (one [destroyData] call if it held one, none otherwise), then
    takes the pointers of the source and leaves the source empty.  The same for
    the pool token.  The copy constructor and copy assignment are deleted in
    the header, so a program has only the statements of [TokenOp]; whatever
    sequence of them it runs, no two live tokens ever own the same group, no
    live token owns a destroyed group, and no group is destroyed twice. *)
Theorem token_move_semantics :
  (forall (other : GraphicsDataToken.t),
     let new := (GraphicsDataToken.move_construct other).1 in
     let src := (GraphicsDataToken.move_construct other).2 in
     new = other
     /\ GraphicsDataToken.to_bool src = false
     /\ forall log, GraphicsDataToken.destructor src log = (src, log))
  /\ (forall (this other : GraphicsDataToken.t) (log : FactoryLog),
     let dst := (GraphicsDataToken.move_assign this other log).1.1 in
     let src := (GraphicsDataToken.move_assign this other log).1.2 in
     let log' := (GraphicsDataToken.move_assign this other log).2 in
     log' = (if GraphicsDataToken.to_bool this
             then log ++ [destroyData (GraphicsDataToken.m_factory this)
                            (GraphicsDataToken.m_data this)]
             else log)
     /\ dst = other
     /\ GraphicsDataToken.to_bool src = false
     /\ forall l, GraphicsDataToken.destructor src l = (src, l))
  /\ (forall (other : GraphicsBufferPoolToken.t),
     let new := (GraphicsBufferPoolToken.move_construct other).1 in
     let src := (GraphicsBufferPoolToken.move_construct other).2 in
     new = other
     /\ GraphicsBufferPoolToken.to_bool src = false
     /\ forall log, GraphicsBufferPoolToken.destructor src log = (src, log))
  /\ (forall (this other : GraphicsBufferPoolToken.t) (log : FactoryLog),
     let dst := (GraphicsBufferPoolToken.move_assign this other log).1.1 in
     let src := (GraphicsBufferPoolToken.move_assign this other log).1.2 in
     let log' := (GraphicsBufferPoolToken.move_assign this other log).2 in
     log' = (if GraphicsBufferPoolToken.to_bool this
             then log ++ [destroyPool (GraphicsBufferPoolToken.m_factory this)
                            (GraphicsBufferPoolToken.m_pool this)]
             else log)
     /\ dst = other
     /\ GraphicsBufferPoolToken.to_bool src = false
     /\ forall l, GraphicsBufferPoolToken.destructor src l = (src, l))
  /\ (forall (ops : list TokenOp) st,
     single_owner DataTokens st -> single_owner DataTokens (exec_all DataTokens ops st))
  /\ (forall (ops : list TokenOp) st,
     single_owner PoolTokens st -> single_owner PoolTokens (exec_all PoolTokens ops st)).
Proof.
  split; [|split; [|split; [|split; [|split]]]];
    [| | | |intros ops st; apply exec_all_single_owner, DataTokens_ok
           |intros ops st; apply exec_all_single_owner, PoolTokens_ok].
  - intros [f d]. simpl. split; [reflexivity|].
    apply data_moved_from_is_empty; reflexivity.
  - intros [f d] [f' d'] log.
    unfold GraphicsDataToken.move_assign, GraphicsDataToken.doDestroy,
      GraphicsDataToken.to_bool.
    simpl. destruct (nonnull f && nonnull d); simpl;
      (split; [reflexivity|split; [reflexivity|split; [reflexivity|intros l; reflexivity]]]).
  - intros [f d]. simpl. split; [reflexivity|].
    apply pool_moved_from_is_empty; reflexivity.
  - intros [f d] [f' d'] log.
    unfold GraphicsBufferPoolToken.move_assign, GraphicsBufferPoolToken.doDestroy,
      GraphicsBufferPoolToken.to_bool.
    simpl. destruct (nonnull f && nonnull d); simpl;
      (split; [reflexivity|split; [reflexivity|split; [reflexivity|intros l; reflexivity]]]).
Qed.

Lemma token_move_semantics_witness :
  single_owner DataTokens ({[ 0%nat := GraphicsDataToken.make 7 9 ]}, [])
  /\ single_owner DataTokens
       (exec_all DataTokens
          [op_default 1; op_move_assign 1 0; op_move_construct 2 1; op_move_assign 2 2;
           op_end_of_life 0; op_end_of_life 1; op_end_of_life 2]
          ({[ 0%nat := GraphicsDataToken.make 7 9 ]}, [])).
Proof.
  assert (single_owner DataTokens ({[ 0%nat := GraphicsDataToken.make 7 9 ]}, [])) as H.
  { split; [|split]; cbn [fst snd].
    - intros x y tx ty g Hx Hy _ _.
      apply lookup_singleton_Some in Hx as [<- _].
      apply lookup_singleton_Some in Hy as [<- _]. reflexivity.
    - intros x tx f d _ _. apply not_elem_of_nil.
    - apply NoDup_nil_2. }
  split; [exact H|].
  exact (proj1 (proj2 (proj2 (proj2 (proj2 token_move_semantics)))) _ _ H).
Defined.

(** A group handed from token to token is destroyed once, by the self
    assignment of the last owner; the three ends of life add nothing. *)
Example token_program_log :
  exec_all DataTokens
    [op_default 1; op_move_assign 1 0; op_move_construct 2 1; op_move_assign 2 2;
     op_end_of_life 0; op_end_of_life 1; op_end_of_life 2]
    ({[ 0%nat := GraphicsDataToken.make 7 9 ]}, [])
  = (∅, [destroyData 7 9]).
Proof. vm_compute. reflexivity. Qed.

End TokenFacts.

(** ** Audio voices *)

Section VoiceFacts.
Import Audio.
Context `{W : World} `{MX : Matrices}.

(** The request methods only write members of the voice. *)
Lemma setPitchRatio_latches {Mtx} (s : State Mtx) ratio slew :
  setPitchRatio ratio slew s
  = (tt, mkState (set_m_slew slew (set_m_pitchRatio ratio (set_m_setPitchRatio true (this s))))
           (m_root s) (DefaultMonoMtx s) (DefaultStereoMtx s) (trace s)).
Proof. reflexivity. Qed.

Lemma resetSampleRate_latches {Mtx} (s : State Mtx) sampleRate :
  resetSampleRate sampleRate s
  = (tt, mkState (set_m_deferredSampleRate sampleRate (set_m_resetSampleRate true (this s)))
           (m_root s) (DefaultMonoMtx s) (DefaultStereoMtx s) (trace s)).
Proof. reflexivity. Qed.

(** C10.  On a voice built with the dynamic-rate flag false, [_setPitchRatio]
    with any ratio and slew makes no call to the resampler and leaves the
    handle and everything else as they were: it only clears the pending flag
    [m_setPitchRatio]. *)
Theorem setPitchRatio_fixed_rate_only_clears_flag :
  forall {Mtx} (s : State Mtx) (ratio : float) (slew : bool),
    m_dynamicRate (this s) = false ->
    _setPitchRatio ratio slew s
    = (tt, mkState (set_m_setPitchRatio false (this s)) (m_root s)
             (DefaultMonoMtx s) (DefaultStereoMtx s) (trace s)).
Proof.
  intros Mtx s ratio slew Hdyn.
  unfold _setPitchRatio, bind, get_this. simpl. rewrite Hdyn. reflexivity.
Qed.

(** *** Calls made by the client from inside a callback *)

Ltac unfold_monad :=
  unfold pump_prepare, pump_resample, call_preSupplyAudio, call_supplyAudio, call_routeAudio,
    call_soxr_output, Log_report_Fatal, setPitchRatio, resetSampleRate, start, stop,
    bind, ret, get_this, get_root, get_trace, upd_this, upd_root, emit,
    get_DefaultMonoMtx, get_DefaultStereoMtx, put_DefaultMonoMtx, put_DefaultStereoMtx in *.

Lemma calls_frame_refl {Mtx} (s : State Mtx) : calls_frame s s.
Proof.
  unfold calls_frame. repeat split; try reflexivity; try tauto.
  destruct s as [v [] dm ds tr]; reflexivity.
Qed.

Lemma calls_frame_trans {Mtx} (s1 s2 s3 : State Mtx) :
  calls_frame s1 s2 -> calls_frame s2 s3 -> calls_frame s1 s3.
Proof.
  unfold calls_frame.
  intros (A1 & A2 & A3 & A4 & A5 & A6 & A7 & A8 & A9 & A10 & A11 & A12)
         (B1 & B2 & B3 & B4 & B5 & B6 & B7 & B8 & B9 & B10 & B11 & B12).
  repeat split; try congruence; try tauto.
  rewrite B10, A10. reflexivity.
Qed.

Lemma AudioVoiceMono_call_frame (c : VoiceCall) (s : State AudioMatrixMono) :
  calls_frame s (AudioVoiceMono_call c s).2.
Proof.
  destruct s as [v [] dm ds tr].
  destruct c; unfold calls_frame; cbn; repeat split; auto.
Qed.

Lemma AudioVoiceStereo_call_frame (c : VoiceCall) (s : State AudioMatrixStereo) :
  calls_frame s (AudioVoiceStereo_call c s).2.
Proof.
  destruct s as [v [] dm ds tr].
  destruct c; unfold calls_frame; cbn; repeat split; auto.
Qed.

Lemma run_calls_frame {Mtx} (call : VoiceCall -> M Mtx unit) (cs : list VoiceCall) :
  (forall c s, calls_frame s (call c s).2) ->
  forall s, calls_frame s (run_calls call cs s).2.
Proof.
  intros Hcall. induction cs as [|c cs IH]; intros s.
  - apply calls_frame_refl.
  - simpl. unfold bind. specialize (Hcall c s).
    destruct (call c s) as [[] s1]. simpl in *.
    eapply calls_frame_trans; [exact Hcall|apply IH].
Qed.

Lemma c_call_frame_Mono c s : calls_frame s (c_call Mono c s).2.
Proof. apply AudioVoiceMono_call_frame. Qed.

Lemma c_call_frame_Stereo c s : calls_frame s (c_call Stereo c s).2.
Proof. apply AudioVoiceStereo_call_frame. Qed.

(** *** Deferred parameters *)

Lemma setPitchRatio_eq {Mtx} (s : State Mtx) (ratio : float) (slew : bool) :
  _setPitchRatio ratio slew s
  = (tt, mkState (set_m_setPitchRatio false (this s)) (m_root s) (DefaultMonoMtx s)
           (DefaultStereoMtx s)
           (trace s
            ++ (if m_dynamicRate (this s)
                then ratio_calls (trace s) (m_src (this s))
                       (io_ratio_of ratio (m_sampleRateIn (this s)) (m_sampleRateOut (this s)))
                       (if slew then m_5msFrames (m_root s) else 0)
                else []))).
Proof.
  destruct s as [v r dm ds tr]. unfold _setPitchRatio, ratio_calls, io_ratio_of.
  unfold_monad. cbn.
  destruct (m_dynamicRate v); cbn.
  - destruct (soxr_set_io_ratio _ _ _ _); cbn; rewrite <- ?app_assoc; reflexivity.
  - rewrite app_nil_r. reflexivity.
Qed.

Ltac trace_norm := rewrite <- ?app_assoc; cbn [app]; try reflexivity.

Lemma AudioVoiceMono_reset_effect : reset_effect 1 created_mono AudioVoiceMono_resetSampleRate.
Proof.
  intros rate s. destruct s as [v r dm ds tr]. cbn zeta.
  unfold AudioVoiceMono_resetSampleRate, created_mono. unfold_monad. cbn -[_setPitchRatio].
  destruct (soxr_create _ _ _ _ _ _) as [src [msg|]]; cbn -[_setPitchRatio].
  - split; [reflexivity|]. split; [reflexivity|]. split; [reflexivity|].
    eexists. split; [reflexivity|]. trace_norm.
  - rewrite setPitchRatio_eq. cbn.
    split; [reflexivity|]. split; [reflexivity|]. split; [reflexivity|].
    split; [destruct v; reflexivity|].
    destruct (m_dynamicRate v); trace_norm.
Qed.

Lemma AudioVoiceStereo_reset_effect :
  reset_effect 2 created_stereo AudioVoiceStereo_resetSampleRate.
Proof.
  intros rate s. destruct s as [v r dm ds tr]. cbn zeta.
  unfold AudioVoiceStereo_resetSampleRate, created_stereo. unfold_monad. cbn -[_setPitchRatio].
  destruct (soxr_create _ _ _ _ _ _) as [src err]; cbn -[_setPitchRatio].
  destruct (nonnull src); cbn -[_setPitchRatio].
  - rewrite setPitchRatio_eq. cbn.
    split; [reflexivity|]. split; [reflexivity|]. split; [reflexivity|].
    split; [destruct v; reflexivity|].
    destruct (m_dynamicRate v); trace_norm.
  - split; [reflexivity|]. split; [reflexivity|]. split; [reflexivity|].
    eexists. split; [reflexivity|]. trace_norm.
Qed.

Lemma midUpdate_deferred_applied {Mtx} (chans : N) (created : ptr * option string -> bool)
    (reset : float -> M Mtx unit) :
  reset_effect chans created reset ->
  forall s : State Mtx, deferred_applied chans created s (_midUpdate reset s).2.
Proof.
  intros Hreset s. unfold deferred_applied. cbn zeta.
  remember (_midUpdate reset s).2 as s' eqn:Es'.
  unfold _midUpdate, bind, get_this, ret in Es'. cbn beta iota in Es'.
  destruct (m_resetSampleRate (this s)) eqn:Hr.
  - specialize (Hreset (m_deferredSampleRate (this s)) s). cbn zeta in Hreset.
    destruct (reset (m_deferredSampleRate (this s)) s) as [[] s1]. cbn [snd] in Hreset.
    destruct Hreset as (R1 & R2 & R3 & R4).
    destruct (created _).
    + destruct R4 as [Hthis Htr].
      assert (m_setPitchRatio (this s1) = false) as Hp
        by (rewrite Hthis; destruct (this s); reflexivity).
      rewrite Hp in Es'. cbn [snd] in Es'. subst s'. repeat split; assumption.
    + destruct R4 as (msg & Hthis & Htr).
      assert (m_setPitchRatio (this s1) = m_setPitchRatio (this s)) as Hp
        by (rewrite Hthis; destruct (this s); reflexivity).
      rewrite Hp in Es'. destruct (m_setPitchRatio (this s)) eqn:Hp0.
      * rewrite setPitchRatio_eq in Es'. cbn [snd] in Es'. subst s'.
        cbn [this m_root DefaultMonoMtx DefaultStereoMtx trace].
        split; [exact R1|]. split; [exact R2|]. split; [exact R3|].
        exists msg. split; [rewrite Hthis; destruct (this s); reflexivity|].
        rewrite Htr, R1, Hthis. cbn [andb].
        destruct (this s) as [cb dyn src rin rout rs dsr sp pr sl run bnd sil sends].
        cbn. destruct dyn; trace_norm.
      * cbn [snd] in Es'. subst s'. cbn [andb].
        split; [exact R1|]. split; [exact R2|]. split; [exact R3|].
        exists msg. split.
        { rewrite Hthis. destruct (this s); cbn in *; subst; reflexivity. }
        rewrite Htr. trace_norm.
  - cbn [snd] in Es'. destruct (m_setPitchRatio (this s)) eqn:Hp.
    + rewrite setPitchRatio_eq in Es'. cbn [snd] in Es'. subst s'.
      cbn [this m_root DefaultMonoMtx DefaultStereoMtx trace andb].
      repeat split.
    + cbn [snd] in Es'. subst s'. cbn [andb]. rewrite app_nil_r.
      split; [reflexivity|]. split; [reflexivity|]. split; [reflexivity|].
      split; [|reflexivity]. destruct (this s); cbn in *; subst; reflexivity.
Qed.

(** *** What the pieces of a pump leave alone *)

Lemma Fmt16_ok : Format_ok Fmt16 Scratch16Pre Scratch16Post.
Proof.
  unfold Format_ok. repeat split; try discriminate; try reflexivity.
  - intros [w|w|w] l; simpl; try reflexivity; apply length_store.
  - intros x Hx. destruct x; try reflexivity. congruence.
  - intros x Hx. destruct x; try reflexivity. congruence.
Qed.

Lemma Fmt32_ok : Format_ok Fmt32 Scratch32Pre Scratch32Post.
Proof.
  unfold Format_ok. repeat split; try discriminate; try reflexivity.
  - intros [w|w|w] l; simpl; try reflexivity; apply length_store.
  - intros x Hx. destruct x; try reflexivity. congruence.
  - intros x Hx. destruct x; try reflexivity. congruence.
Qed.

Lemma FmtFlt_ok : Format_ok FmtFlt ScratchFltPre ScratchFltPost.
Proof.
  unfold Format_ok. repeat split; try discriminate; try reflexivity.
  - intros [w|w|w] l; simpl; try reflexivity; apply length_store.
  - intros x Hx. destruct x; try reflexivity. congruence.
  - intros x Hx. destruct x; try reflexivity. congruence.
Qed.

Lemma sizes_kept_refl r : sizes_kept r r.
Proof. unfold sizes_kept. split; [reflexivity|]. split; [lia|]. intros x _. reflexivity. Qed.

Lemma sizes_kept_trans r1 r2 r3 : sizes_kept r1 r2 -> sizes_kept r2 r3 -> sizes_kept r1 r3.
Proof.
  intros (A1 & A2 & A3) (B1 & B2 & B3). split; [congruence|]. split; [lia|].
  intros x Hx. rewrite B3, A3 by exact Hx. reflexivity.
Qed.

Lemma steady_refl {Mtx} (s : State Mtx) : steady s s.
Proof. split; [exists []; rewrite app_nil_r; reflexivity|apply sizes_kept_refl]. Qed.

Lemma steady_trans {Mtx} (s1 s2 s3 : State Mtx) : steady s1 s2 -> steady s2 s3 -> steady s1 s3.
Proof.
  intros [[l1 H1] K1] [[l2 H2] K2]. split.
  - exists (l1 ++ l2). rewrite H2, H1, app_assoc. reflexivity.
  - eapply sizes_kept_trans; eassumption.
Qed.

Lemma quiet_refl {Mtx} (s : State Mtx) : quiet s s.
Proof. split; [apply steady_refl|]. repeat split. Qed.

Lemma quiet_trans {Mtx} (s1 s2 s3 : State Mtx) : quiet s1 s2 -> quiet s2 s3 -> quiet s1 s3.
Proof.
  intros (A & [A1 A2] & A3 & A4) (B & [B1 B2] & B3 & B4).
  split; [eapply steady_trans; eassumption|].
  split; [split; congruence|]. split; congruence.
Qed.

Lemma quiet_steady {Mtx} (s s' : State Mtx) : quiet s s' -> steady s s'.
Proof. intros [H _]. exact H. Qed.

Lemma calls_frame_quiet {Mtx} (s s' : State Mtx) : calls_frame s s' -> quiet s s'.
Proof.
  intros (Htr & _ & _ & _ & _ & _ & _ & _ & _ & Hroot & Hdm & Hds).
  split; [split|].
  - exists []. rewrite app_nil_r. exact Htr.
  - rewrite Hroot. destruct (m_root s). unfold sizes_kept. cbn. repeat split. lia.
  - split; [|split; assumption]. rewrite Hroot. destruct (m_root s). split; reflexivity.
Qed.

(** Writing [scratchIn] without shrinking it. *)
Lemma set_scratchIn_quiet {Mtx} (s : State Mtx) (l : list Z) :
  vsize (m_scratchIn (m_root s)) <= vsize l ->
  quiet s (mkState (this s) (set_scratchIn l (m_root s)) (DefaultMonoMtx s)
             (DefaultStereoMtx s) (trace s)).
Proof.
  intros H. split; [split|].
  - exists []. rewrite app_nil_r. reflexivity.
  - unfold sizes_kept. cbn. repeat split; [exact H|].
    intros x Hx. destruct x; try reflexivity. congruence.
  - repeat split.
Qed.

Lemma emit_quiet {Mtx} (s : State Mtx) (e : Event) : quiet s (emit e s).2.
Proof.
  split; [split|].
  - exists [e]. reflexivity.
  - apply sizes_kept_refl.
  - repeat split.
Qed.

Lemma call_supplyAudio_quiet {Mtx} (call : VoiceCall -> M Mtx unit) (frames : N) (s : State Mtx) :
  (forall c s, calls_frame s (call c s).2) ->
  quiet s (call_supplyAudio call frames s).2.
Proof.
  intros Hcall. unfold call_supplyAudio. unfold_monad. cbn.
  destruct (supplyAudio _ _ _ _) as [[calls written] done]. cbn.
  match goal with
  | |- context [run_calls call calls ?st] =>
      pose proof (run_calls_frame call calls Hcall st) as Hf;
      destruct (run_calls call calls st) as [[] s2]
  end.
  cbn in *. apply calls_frame_quiet in Hf.
  eapply quiet_trans; [|exact Hf].
  eapply quiet_trans; [apply (emit_quiet s (ev_supplyAudio (m_cb (this s)) frames))|].
  cbn. match goal with
  | |- quiet ?a _ => apply (set_scratchIn_quiet a)
  end.
  cbn. rewrite vsize_store. lia.
Qed.

Lemma AudioVoiceMono_SRCCallback_quiet (frames : N) (s : State AudioMatrixMono) :
  quiet s (AudioVoiceMono_SRCCallback frames s).2.
Proof.
  unfold AudioVoiceMono_SRCCallback.
  unfold bind at 1. unfold upd_root at 1. cbn beta iota.
  unfold bind at 1. unfold get_this at 1. cbn beta iota. cbn [this].
  eapply quiet_trans.
  { apply (set_scratchIn_quiet s (grow 0%Z frames frames (m_scratchIn (m_root s)))).
    apply vsize_grow_mono. lia. }
  destruct (m_silentOut (this s)).
  - unfold_monad. cbn.
    match goal with
    | |- quiet ?a _ => apply (set_scratchIn_quiet a)
    end.
    cbn. unfold memset16_zero. rewrite vsize_store. lia.
  - apply call_supplyAudio_quiet. apply AudioVoiceMono_call_frame.
Qed.

Lemma AudioVoiceStereo_SRCCallback_quiet (frames : N) (s : State AudioMatrixStereo) :
  quiet s (AudioVoiceStereo_SRCCallback frames s).2.
Proof.
  unfold AudioVoiceStereo_SRCCallback. cbn zeta.
  unfold bind at 1. unfold upd_root at 1. cbn beta iota.
  unfold bind at 1. unfold get_this at 1. cbn beta iota. cbn [this].
  eapply quiet_trans.
  { apply (set_scratchIn_quiet s
             (grow 0%Z (size_t_mul frames 2) (size_t_mul frames 2) (m_scratchIn (m_root s)))).
    apply vsize_grow_mono. lia. }
  destruct (m_silentOut (this s)).
  - unfold_monad. cbn.
    match goal with
    | |- quiet ?a _ => apply (set_scratchIn_quiet a)
    end.
    cbn. unfold memset16_zero. rewrite vsize_store. lia.
  - apply call_supplyAudio_quiet. apply AudioVoiceStereo_call_frame.
Qed.

Lemma run_soxr_quiet {Mtx} (SRCCallback : N -> M Mtx N) (run : SoxrRun) :
  (forall n s, quiet s (SRCCallback n s).2) ->
  forall s, quiet s (run_soxr SRCCallback run s).2.
Proof.
  intros HSRC. induction run as [frames k IH|out odone]; intros s.
  - simpl. specialize (HSRC frames s). destruct (SRCCallback frames s) as [got s1].
    eapply quiet_trans; [exact HSRC|apply IH].
  - apply quiet_refl.
Qed.

(** A step that leaves the engine and the default matrices alone and only
    adds events is quiet. *)
Lemma quiet_intro {Mtx} (s s' : State Mtx) (l : list Event) :
  trace s' = trace s ++ l -> m_root s' = m_root s ->
  DefaultMonoMtx s' = DefaultMonoMtx s -> DefaultStereoMtx s' = DefaultStereoMtx s ->
  quiet s s'.
Proof.
  intros Htr Hroot Hdm Hds. split; [split|].
  - exists l. exact Htr.
  - rewrite Hroot. apply sizes_kept_refl.
  - rewrite Hroot. repeat split; assumption.
Qed.

Lemma setPitchRatio_quiet {Mtx} (ratio : float) (slew : bool) (s : State Mtx) :
  quiet s (_setPitchRatio ratio slew s).2.
Proof.
  destruct s as [v r dm ds tr]. unfold _setPitchRatio. unfold_monad. cbn.
  destruct (m_dynamicRate v); cbn.
  - destruct (soxr_set_io_ratio _ _ _ _); cbn.
    + eapply quiet_intro; cbn; try reflexivity. rewrite <- app_assoc. reflexivity.
    + eapply quiet_intro; cbn; reflexivity.
  - eapply (quiet_intro _ _ []); cbn; try reflexivity. rewrite app_nil_r. reflexivity.
Qed.

Lemma AudioVoiceMono_resetSampleRate_quiet (rate : float) (s : State AudioMatrixMono) :
  quiet s (AudioVoiceMono_resetSampleRate rate s).2.
Proof.
  destruct s as [v r dm ds tr].
  unfold AudioVoiceMono_resetSampleRate. unfold_monad. cbn -[_setPitchRatio].
  destruct (soxr_create _ _ _ _ _ _) as [src [msg|]]; cbn -[_setPitchRatio].
  - eapply quiet_intro; cbn; try reflexivity. rewrite <- !app_assoc. reflexivity.
  - match goal with
    | |- context [_setPitchRatio ?ratio ?slew ?st] =>
        pose proof (setPitchRatio_quiet ratio slew st) as Hq;
        destruct (_setPitchRatio ratio slew st) as [[] s2]
    end.
    cbn in *. destruct Hq as ([[l Hl] Hk] & Hsub & Hdm & Hds).
    split; [split|]; cbn in *.
    + exists ([ev_soxr_delete (m_src v);
               ev_soxr_create rate (m_sampleRate (m_mixInfo r)) 1
                 (m_sampleFormat (m_mixInfo r)) (m_dynamicRate v);
               ev_soxr_set_input_fn src 1] ++ l).
      rewrite Hl, <- !app_assoc. reflexivity.
    + exact Hk.
    + split; [exact Hsub|]. split; assumption.
Qed.

Lemma AudioVoiceStereo_resetSampleRate_quiet (rate : float) (s : State AudioMatrixStereo) :
  quiet s (AudioVoiceStereo_resetSampleRate rate s).2.
Proof.
  destruct s as [v r dm ds tr].
  unfold AudioVoiceStereo_resetSampleRate. unfold_monad. cbn -[_setPitchRatio].
  destruct (soxr_create _ _ _ _ _ _) as [src err]; cbn -[_setPitchRatio].
  destruct (nonnull src); cbn -[_setPitchRatio].
  - match goal with
    | |- context [_setPitchRatio ?ratio ?slew ?st] =>
        pose proof (setPitchRatio_quiet ratio slew st) as Hq;
        destruct (_setPitchRatio ratio slew st) as [[] s2]
    end.
    cbn in *. destruct Hq as ([[l Hl] Hk] & Hsub & Hdm & Hds).
    split; [split|]; cbn in *.
    + exists ([ev_soxr_delete (m_src v);
               ev_soxr_create rate (m_sampleRate (m_mixInfo r)) 2
                 (m_sampleFormat (m_mixInfo r)) (m_dynamicRate v);
               ev_soxr_set_input_fn src 2] ++ l).
      rewrite Hl, <- !app_assoc. reflexivity.
    + exact Hk.
    + split; [exact Hsub|]. split; assumption.
  - eapply quiet_intro; cbn; try reflexivity. rewrite <- !app_assoc. reflexivity.
Qed.

Lemma midUpdate_quiet {Mtx} (reset : float -> M Mtx unit) :
  (forall rate s, quiet s (reset rate s).2) ->
  forall s : State Mtx, quiet s (_midUpdate reset s).2.
Proof.
  intros Hreset s. unfold _midUpdate.
  unfold bind at 1. unfold get_this at 1. cbn beta iota.
  unfold bind at 1.
  assert (quiet s ((if m_resetSampleRate (this s) then reset (m_deferredSampleRate (this s))
                    else ret ()) s).2) as H1.
  { destruct (m_resetSampleRate (this s)); [apply Hreset|apply quiet_refl]. }
  destruct ((if m_resetSampleRate (this s) then reset (m_deferredSampleRate (this s))
             else ret ()) s) as [[] s1].
  cbn [snd] in H1. unfold bind, get_this. cbn beta iota.
  eapply quiet_trans; [exact H1|].
  destruct (m_setPitchRatio (this s1)); [apply setPitchRatio_quiet|apply quiet_refl].
Qed.

Lemma call_soxr_output_quiet {Mtx} (SRCCallback : N -> M Mtx N) (frames : N) :
  (forall n s, quiet s (SRCCallback n s).2) ->
  forall s : State Mtx, quiet s (call_soxr_output SRCCallback frames s).2.
Proof.
  intros HSRC s. unfold call_soxr_output. unfold_monad. cbn beta iota.
  eapply quiet_trans; [apply (emit_quiet s (ev_soxr_output (m_src (this s)) frames))|].
  apply run_soxr_quiet. exact HSRC.
Qed.

Lemma Mono_ok : VoiceClass_ok Mono.
Proof.
  split; [exact AudioVoiceMono_call_frame|].
  split; [exact AudioVoiceMono_reset_effect|].
  split; [exact AudioVoiceMono_resetSampleRate_quiet|].
  split; [exact AudioVoiceMono_SRCCallback_quiet|].
  split; [reflexivity|]. intros m s. repeat split.
Qed.

Lemma Stereo_ok : VoiceClass_ok Stereo.
Proof.
  split; [exact AudioVoiceStereo_call_frame|].
  split; [exact AudioVoiceStereo_reset_effect|].
  split; [exact AudioVoiceStereo_resetSampleRate_quiet|].
  split; [exact AudioVoiceStereo_SRCCallback_quiet|].
  split; [reflexivity|]. intros m s. repeat split.
Qed.

Lemma call_soxr_output_trace {Mtx} (SRCCallback : N -> M Mtx N) (frames : N) (s : State Mtx) :
  (forall n s, quiet s (SRCCallback n s).2) ->
  exists l, trace (call_soxr_output SRCCallback frames s).2
            = trace s ++ ev_soxr_output (m_src (this s)) frames :: l.
Proof.
  intros HSRC. unfold call_soxr_output. unfold_monad. cbn beta iota.
  match goal with
  | |- context [run_soxr SRCCallback ?run ?st] =>
      destruct (run_soxr_quiet SRCCallback run HSRC st) as ([[l Hl] _] & _)
  end.
  exists l. rewrite Hl. cbn. rewrite <- app_assoc. reflexivity.
Qed.

Lemma scratch_size_set_submixesDirty x b r :
  scratch_size x (set_submixesDirty b r) = scratch_size x r.
Proof. destruct x; reflexivity. Qed.

(** The first stretch of a pump: the two guarded resizes, then the client's
    [preSupplyAudio] and the calls it makes. *)
Lemma pump_prepare_effect {A Mtx} (F : Format A) (C : VoiceClass Mtx) (x_pre x_post : Scratch)
    (samples_of resize_to : N -> N) (frames : N) (s : State Mtx) :
  Format_ok F x_pre x_post -> VoiceClass_ok C ->
  let s1 := (pump_prepare F C samples_of resize_to frames s).2 in
  let dt := (pump_prepare F C samples_of resize_to frames s).1 in
  let samples := samples_of frames in
  trace s1 = trace s ++ [ev_preSupplyAudio (m_cb (this s)) dt]
  /\ m_src (this s1) = m_src (this s)
  /\ m_dynamicRate (this s1) = m_dynamicRate (this s)
  /\ (m_resetSampleRate (this s) = true -> m_resetSampleRate (this s1) = true)
  /\ (m_setPitchRatio (this s) = true -> m_setPitchRatio (this s1) = true)
  /\ (forall x, x = x_pre \/ x = x_post ->
        scratch_size x (m_root s1)
        = if scratch_size x (m_root s) <? samples then resize_to samples
          else scratch_size x (m_root s))
  /\ (forall x, x <> x_pre -> x <> x_post ->
        scratch_size x (m_root s1) = scratch_size x (m_root s))
  /\ m_mixInfo (m_root s1) = m_mixInfo (m_root s)
  /\ submixes_kept (m_root s) (m_root s1)
  /\ DefaultMonoMtx s1 = DefaultMonoMtx s /\ DefaultStereoMtx s1 = DefaultStereoMtx s.
Proof.
  intros HF (Hcall & _) s1 dt samples. subst s1 dt.
  destruct HF as (Hpre_in & Hpost_in & Hne & Hstore & Hxpre & Hxpost & Hsetpre & Hsetpost).
  unfold pump_prepare. unfold_monad. cbn beta iota zeta.
  cbn [this m_root trace DefaultMonoMtx DefaultStereoMtx fst snd].
  set (r := m_root s).
  set (r1 := f_set_pre F (grow (f_zero F) samples (resize_to samples) (f_pre F r)) r).
  set (r2 := f_set_post F (grow (f_zero F) samples (resize_to samples) (f_post F r1)) r1).
  set (d := PrimFloat.div (double_of_size_t frames) (m_sampleRateOut (this s))).
  match goal with
  | |- context [run_calls ?call ?cs ?st] =>
      pose proof (run_calls_frame call cs Hcall st) as Hf;
      destruct (run_calls call cs st) as [[] s2]
  end.
  cbn [fst snd] in *.
  destruct Hf as (F1 & F2 & F3 & F4 & F5 & F6 & F7 & F8 & F9 & F10 & F11 & F12).
  cbn [this m_root trace DefaultMonoMtx DefaultStereoMtx] in *.
  destruct (Hsetpre (grow (f_zero F) samples (resize_to samples) (f_pre F r)) r)
    as (P1 & P2 & P3 & P4 & P5).
  destruct (Hsetpost (grow (f_zero F) samples (resize_to samples) (f_post F r1)) r1)
    as (Q1 & Q2 & Q3 & Q4 & Q5).
  fold r1 in P1, P2, P3, P4, P5. fold r2 in Q1, Q2, Q3, Q4, Q5.
  assert (forall x, scratch_size x (m_root s2) = scratch_size x r2) as Hsz.
  { intros x. rewrite F10. apply scratch_size_set_submixesDirty. }
  assert (m_mainSubmix (m_root s2) = m_mainSubmix r2 /\ m_submixes (m_root s2) = m_submixes r2
          /\ m_mixInfo (m_root s2) = m_mixInfo r2) as (M1 & M2 & M3).
  { rewrite F10. repeat split. }
  split; [exact F1|]. split; [exact F4|]. split; [exact F3|].
  split; [exact F8|]. split; [exact F9|].
  split; [|split; [|split; [|split; [|split; assumption]]]].
  - intros x [->| ->]; rewrite Hsz.
    + rewrite Q2 by exact Hne. rewrite !Hxpre, P1. apply vsize_grow.
    + rewrite Hxpost, Q1, vsize_grow. rewrite <- !Hxpost.
      rewrite P2 by congruence. reflexivity.
  - intros x H1 H2. rewrite Hsz, Q2, P2 by assumption. reflexivity.
  - congruence.
  - split; congruence.
Qed.

(** Overwriting the [pre] or [post] vector of a format in place. *)
Lemma set_pre_quiet {A Mtx} (F : Format A) (x_pre x_post : Scratch) (w : Samples) (s : State Mtx) :
  Format_ok F x_pre x_post ->
  quiet s (mkState (this s) (f_set_pre F (f_store F w (f_pre F (m_root s))) (m_root s))
             (DefaultMonoMtx s) (DefaultStereoMtx s) (trace s)).
Proof.
  intros (Hpre_in & Hpost_in & Hne & Hstore & Hxpre & Hxpost & Hsetpre & Hsetpost).
  destruct (Hsetpre (f_store F w (f_pre F (m_root s))) (m_root s)) as (P1 & P2 & P3 & P4).
  split; [split|]; cbn.
  - exists []. rewrite app_nil_r. reflexivity.
  - split; [exact P3|]. split.
    + rewrite P2 by congruence. lia.
    + intros x Hx. destruct (decide (x = x_pre)) as [->|Hx'].
      * rewrite !Hxpre, P1. unfold vsize. rewrite Hstore. reflexivity.
      * apply P2, Hx'.
  - split; [exact P4|]. split; reflexivity.
Qed.

Lemma set_post_steady {A Mtx} (F : Format A) (x_pre x_post : Scratch) (w : Samples) (s : State Mtx) :
  Format_ok F x_pre x_post ->
  quiet s (mkState (this s) (f_set_post F (f_store F w (f_post F (m_root s))) (m_root s))
             (DefaultMonoMtx s) (DefaultStereoMtx s) (trace s)).
Proof.
  intros (Hpre_in & Hpost_in & Hne & Hstore & Hxpre & Hxpost & Hsetpre & Hsetpost).
  destruct (Hsetpost (f_store F w (f_post F (m_root s))) (m_root s)) as (P1 & P2 & P3 & P4).
  split; [split|]; cbn.
  - exists []. rewrite app_nil_r. reflexivity.
  - split; [exact P3|]. split.
    + rewrite P2 by congruence. lia.
    + intros x Hx. destruct (decide (x = x_post)) as [->|Hx'].
      * rewrite !Hxpost, P1. unfold vsize. rewrite Hstore. reflexivity.
      * apply P2, Hx'.
  - split; [exact P4|]. split; reflexivity.
Qed.

Lemma pump_resample_effect {A Mtx} (F : Format A) (C : VoiceClass Mtx) (x_pre x_post : Scratch)
    (frames : N) (s : State Mtx) :
  Format_ok F x_pre x_post -> VoiceClass_ok C ->
  let s2 := (_midUpdate (c_resetSampleRate C) s).2 in
  let s3 := (pump_resample F C frames s).2 in
  quiet s s3
  /\ exists l, trace s3 = trace s2 ++ ev_soxr_output (m_src (this s2)) frames :: l.
Proof.
  intros HF (Hcall & Heff & Hreset & HSRC & _). cbn zeta.
  unfold pump_resample, bind.
  pose proof (midUpdate_quiet (c_resetSampleRate C) Hreset s) as Hq.
  destruct (_midUpdate (c_resetSampleRate C) s) as [[] s2]. cbn [snd] in *.
  pose proof (call_soxr_output_quiet (c_SRCCallback C) frames HSRC s2) as Hq2.
  destruct (call_soxr_output_trace (c_SRCCallback C) frames s2 HSRC) as [l Hl].
  destruct (call_soxr_output (c_SRCCallback C) frames s2) as [res s3]. cbn [snd] in *.
  unfold upd_root, ret. cbn [fst snd].
  split.
  - eapply quiet_trans; [exact Hq|]. eapply quiet_trans; [exact Hq2|].
    eapply set_pre_quiet. exact HF.
  - exists l. cbn. exact Hl.
Qed.

(** *** Routing and mixing *)

Lemma route_and_mix_eq {A Mtx} (F : Format A) (C : VoiceClass Mtx) (oDone : N) (dt : float)
    (p : SubmixPtr) (smx : AudioSubmix) (mtx : Mtx) (s : State Mtx) :
  route_and_mix F C oDone dt p smx mtx s
  = let r := m_root s in
    let routed := routeAudio (trace s) (m_cb (this s)) oDone (c_channels C) dt (m_busId smx)
                    (f_tag F (f_pre F r)) (f_tag F (f_post F r)) in
    let r1 := f_set_post F (f_store F routed (f_post F r)) r in
    let smx1 := f_getMergeBuf F (m_mixInfo r1) oDone smx in
    let res := c_mixSampleData C (m_mixInfo r1) (f_tag F (f_post F r1))
                 (f_tag F (f_merge F smx1)) oDone mtx in
    (res.1,
     mkState (this s) (assign p (f_set_merge F (f_store F res.2 (f_merge F smx1)) smx1) r1)
       (DefaultMonoMtx s) (DefaultStereoMtx s)
       (trace s ++ [ev_routeAudio (m_cb (this s)) oDone (c_channels C) dt (m_busId smx)])).
Proof.
  unfold route_and_mix. unfold_monad. cbn.
  destruct (c_mixSampleData C _ _ _ _ _) as [mtx1 mixed]. reflexivity.
Qed.

Lemma scratch_size_assign x p smx r : scratch_size x (assign p smx r) = scratch_size x r.
Proof. destruct p, x; reflexivity. Qed.

Lemma route_and_mix_steady {A Mtx} (F : Format A) (C : VoiceClass Mtx) (x_pre x_post : Scratch)
    (oDone : N) (dt : float) (p : SubmixPtr) (smx : AudioSubmix) (mtx : Mtx) (s : State Mtx) :
  Format_ok F x_pre x_post ->
  steady s (route_and_mix F C oDone dt p smx mtx s).2.
Proof.
  intros HF. rewrite route_and_mix_eq. cbn zeta. cbn [snd].
  set (routed := routeAudio _ _ _ _ _ _ _ _).
  destruct (set_post_steady F x_pre x_post routed s HF) as ([_ (K1 & K2 & K3)] & _).
  cbn [m_root] in K1, K2, K3.
  split.
  - eexists. reflexivity.
  - cbn [m_root]. split; [|split].
    + rewrite <- K1. destruct p; reflexivity.
    + rewrite scratch_size_assign. exact K2.
    + intros x Hx. rewrite scratch_size_assign. apply K3, Hx.
Qed.

Lemma mix_sends_steady {A Mtx} (F : Format A) (C : VoiceClass Mtx) (x_pre x_post : Scratch)
    (oDone : N) (dt : float) (sends : list (SubmixPtr * Mtx)) :
  Format_ok F x_pre x_post ->
  forall s : State Mtx, steady s (mix_sends F C oDone dt sends s).2.
Proof.
  intros HF. induction sends as [|[p mtx] rest IH]; intros s.
  - apply steady_refl.
  - cbn [mix_sends]. unfold bind, get_root, ret.
    pose proof (route_and_mix_steady F C x_pre x_post oDone dt p (load p (m_root s)) mtx s HF)
      as H1.
    destruct (route_and_mix F C oDone dt p (load p (m_root s)) mtx s) as [mtx1 s1].
    specialize (IH s1). destruct (mix_sends F C oDone dt rest s1) as [rest1 s2].
    cbn [snd] in *. eapply steady_trans; eassumption.
Qed.

Lemma pump_route_steady {A Mtx} (F : Format A) (C : VoiceClass Mtx) (x_pre x_post : Scratch)
    (oDone : N) (dt : float) (s : State Mtx) :
  Format_ok F x_pre x_post -> VoiceClass_ok C ->
  steady s (pump_route F C oDone dt s).2.
Proof.
  intros HF (_ & _ & _ & _ & Hget & Hput). unfold pump_route.
  destruct (negb (oDone =? 0)); [|apply steady_refl].
  unfold bind, get_this, get_root.
  destruct (negb (vsize (m_sendMatrices (this s)) =? 0)).
  - pose proof (mix_sends_steady F C x_pre x_post oDone dt (m_sendMatrices (this s)) HF s) as H.
    destruct (mix_sends F C oDone dt (m_sendMatrices (this s)) s) as [sends s1].
    unfold upd_this. cbn [snd] in *. exact H.
  - pose proof (Hget s) as Hg. destruct (c_get_Default C s) as [mtx s0]. cbn [snd] in Hg. subst s0.
    pose proof (route_and_mix_steady F C x_pre x_post oDone dt MainSubmix
                  (m_mainSubmix (m_root s)) mtx s HF) as H.
    destruct (route_and_mix F C oDone dt MainSubmix (m_mainSubmix (m_root s)) mtx s) as [mtx1 s1].
    cbn [snd] in H. destruct (Hput mtx1 s1) as (P1 & P2 & P3).
    destruct H as [[l Hl] Hk]. split.
    + exists l. rewrite P3. exact Hl.
    + rewrite P2. exact Hk.
Qed.

(** *** The whole pump *)

(** What the first stretch of a pump leaves of the voice: the rates and the
    engine's slew constant always, everything if the client makes no call. *)
Lemma pump_prepare_latches {A Mtx} (F : Format A) (C : VoiceClass Mtx)
    (samples_of resize_to : N -> N) (frames : N) (s : State Mtx) :
  (forall c s, calls_frame s (c_call C c s).2) ->
  (forall l r, Audio.m_5msFrames (f_set_pre F l r) = Audio.m_5msFrames r
               /\ Audio.m_5msFrames (f_set_post F l r) = Audio.m_5msFrames r) ->
  let p1 := pump_prepare F C samples_of resize_to frames s in
  m_sampleRateIn (this p1.2) = m_sampleRateIn (this s)
  /\ m_sampleRateOut (this p1.2) = m_sampleRateOut (this s)
  /\ Audio.m_5msFrames (m_root p1.2) = Audio.m_5msFrames (m_root s)
  /\ (preSupplyAudio (trace s) (m_cb (this s)) p1.1 = [] -> this p1.2 = this s).
Proof.
  intros Hcall H5. cbn zeta.
  unfold pump_prepare. unfold_monad. cbn beta iota zeta.
  cbn [this m_root trace DefaultMonoMtx DefaultStereoMtx fst snd].
  match goal with
  | |- context [run_calls ?call ?cs ?st] =>
      pose proof (run_calls_frame call cs Hcall st) as Hf;
      destruct (run_calls call cs st) as [[] s2] eqn:Erun
  end.
  cbn [fst snd] in *.
  destruct Hf as (F1 & F2 & F3 & F4 & F5 & F6 & F7 & F8 & F9 & F10 & F11 & F12).
  cbn [this m_root trace DefaultMonoMtx DefaultStereoMtx] in *.
  split; [exact F5|]. split; [exact F6|]. split.
  - rewrite F10.
    match goal with
    | |- Audio.m_5msFrames (set_submixesDirty _ (f_set_post F ?l (f_set_pre F ?l' ?r))) = _ =>
        transitivity (Audio.m_5msFrames (f_set_post F l (f_set_pre F l' r)));
        [reflexivity|];
        rewrite (proj2 (H5 l (f_set_pre F l' r))); apply (proj1 (H5 l' r))
    end.
  - intros Hnone. rewrite Hnone in Erun. cbn in Erun. injection Erun as <-. reflexivity.
Qed.

Lemma pumpAndMix_applies_deferred {A Mtx} (F : Format A) (C : VoiceClass Mtx)
    (x_pre x_post : Scratch) (samples_of resize_to : N -> N) :
  Format_ok F x_pre x_post -> VoiceClass_ok C ->
  (forall l r, Audio.m_5msFrames (f_set_pre F l r) = Audio.m_5msFrames r
               /\ Audio.m_5msFrames (f_set_post F l r) = Audio.m_5msFrames r) ->
  pump_applies_deferred F C samples_of resize_to.
Proof.
  intros HF HC H5 frames s. cbn zeta.
  pose proof (pump_prepare_effect F C x_pre x_post samples_of resize_to frames s HF HC) as Hprep.
  pose proof (pump_prepare_latches F C samples_of resize_to frames s (proj1 HC) H5) as Hlat.
  cbn zeta in Hprep, Hlat.
  unfold pumpAndMix, bind.
  destruct (pump_prepare F C samples_of resize_to frames s) as [dt s1]. cbn [fst snd] in *.
  destruct Hprep as (P1 & P2 & P3 & P4 & P5 & _ & _ & P8 & _).
  destruct Hlat as (L1 & L2 & L3 & L4).
  pose proof (pump_resample_effect F C x_pre x_post frames s1 HF HC) as Hres.
  cbn zeta in Hres. destruct Hres as [_ [l Hl]].
  pose proof (midUpdate_deferred_applied (c_channels C) (c_created C) (c_resetSampleRate C)
                (proj1 (proj2 HC)) s1) as Hmid.
  destruct (pump_resample F C frames s1) as [oDone s3]. cbn [snd] in Hl.
  destruct (pump_route_steady F C x_pre x_post oDone dt s3 HF HC) as [[l' Hl'] _].
  destruct (pump_route F C oDone dt s3) as [[] s4]. cbn [snd] in Hl'.
  split; [exact P1|]. split; [exact P2|]. split; [exact P3|].
  split; [exact L1|]. split; [exact L2|]. split; [exact P8|]. split; [exact L3|].
  split; [exact P4|]. split; [exact P5|]. split; [exact L4|]. split; [exact Hmid|].
  exists (l ++ l'). unfold ret. cbn [snd]. rewrite Hl', Hl, <- app_assoc. reflexivity.
Qed.

(** C1.  [setPitchRatio] and [resetSampleRate] only write the requested value
    and raise the pending flag: the resampler handle, the engine and the trace
    of outside calls are what they were, so the resampler is not touched at
    call time.  Each of the six [pumpAndMix] members then applies what is
    latched before it asks the resampler for output: after the client's
    [preSupplyAudio] come exactly the outside calls of [_midUpdate], then
    [soxr_output] on the handle the voice then has.  A pending reset deletes
    the old handle and creates a resampler at the latched rate, and the handle
    [soxr_create] returns is the one stored; the latched pitch ratio goes to
    [soxr_set_io_ratio] after it, never before, on that handle: without slew
    and with the new rates inside a rebuild that succeeded, with the latched
    slew and the old rates after one that failed or when no reset was pending.
    Both pending flags are clear afterwards.  What is latched when [_midUpdate]
    starts is what was latched when the pump began, unless the client called
    the voice from [preSupplyAudio]. *)
Theorem deferred_changes_latched_then_applied_in_order :
  (forall Mtx (s : State Mtx) (ratio : float) (slew : bool),
     setPitchRatio ratio slew s
     = (tt, mkState (set_m_slew slew (set_m_pitchRatio ratio (set_m_setPitchRatio true (this s))))
              (m_root s) (DefaultMonoMtx s) (DefaultStereoMtx s) (trace s)))
  /\ (forall Mtx (s : State Mtx) (sampleRate : float),
     resetSampleRate sampleRate s
     = (tt, mkState (set_m_deferredSampleRate sampleRate (set_m_resetSampleRate true (this s)))
              (m_root s) (DefaultMonoMtx s) (DefaultStereoMtx s) (trace s)))
  /\ pump_applies_deferred Fmt16 Mono (fun frames => frames) (fun samples => samples)
  /\ pump_applies_deferred Fmt32 Mono (fun frames => frames) (fun samples => samples)
  /\ pump_applies_deferred FmtFlt Mono (fun frames => frames)
       (fun samples => size_t_add samples 2)
  /\ pump_applies_deferred Fmt16 Stereo (fun frames => size_t_mul frames 2)
       (fun samples => samples)
  /\ pump_applies_deferred Fmt32 Stereo (fun frames => size_t_mul frames 2)
       (fun samples => samples)
  /\ pump_applies_deferred FmtFlt Stereo (fun frames => size_t_mul frames 2)
       (fun samples => size_t_add samples 4).
Proof.
  split; [intros; apply setPitchRatio_latches|].
  split; [intros; apply resetSampleRate_latches|].
  split; [|split; [|split; [|split; [|split]]]].
  - apply (pumpAndMix_applies_deferred Fmt16 Mono _ _ _ _ Fmt16_ok Mono_ok).
    intros l r; split; reflexivity.
  - apply (pumpAndMix_applies_deferred Fmt32 Mono _ _ _ _ Fmt32_ok Mono_ok).
    intros l r; split; reflexivity.
  - apply (pumpAndMix_applies_deferred FmtFlt Mono _ _ _ _ FmtFlt_ok Mono_ok).
    intros l r; split; reflexivity.
  - apply (pumpAndMix_applies_deferred Fmt16 Stereo _ _ _ _ Fmt16_ok Stereo_ok).
    intros l r; split; reflexivity.
  - apply (pumpAndMix_applies_deferred Fmt32 Stereo _ _ _ _ Fmt32_ok Stereo_ok).
    intros l r; split; reflexivity.
  - apply (pumpAndMix_applies_deferred FmtFlt Stereo _ _ _ _ FmtFlt_ok Stereo_ok).
    intros l r; split; reflexivity.
Qed.

(** *** The resampler input callback *)

Lemma memset16_zero_spec (n : N) (v : list Z) :
  n <= vsize v -> n * 2 < size_t_max ->
  memset16_zero (size_t_mul n 2) v = replicate (N.to_nat n) 0%Z ++ drop (N.to_nat n) v.
Proof.
  intros Hn Hwrap. unfold memset16_zero, size_t_mul.
  rewrite N.mod_small by exact Hwrap. rewrite N.div_mul by discriminate.
  rewrite store_prefix; rewrite length_replicate; [reflexivity|].
  unfold vsize in Hn. lia.
Qed.

(** C2.  With the silent-out flag set, the input callback of either subclass
    grows [scratchIn] to the request if it is smaller, zeroes the samples of
    the whole request ([frames] for mono, [2 * frames] for stereo) and leaves
    the rest of the vector alone, returns exactly [frames], and makes no
    outside call at all: the trace is unchanged, so [supplyAudio] is not
    invoked.  With the flag clear it invokes [supplyAudio] once on the grown
    buffer and returns the count the client reports.  The request is one whose
    byte count fits [size_t]. *)
Theorem SRCCallback_silent_or_supplied :
  (forall (frames : N) (s : State AudioMatrixMono),
     m_silentOut (this s) = true -> frames * 2 < size_t_max ->
     let grown := grow 0%Z frames frames (m_scratchIn (m_root s)) in
     frames <= vsize grown
     /\ AudioVoiceMono_SRCCallback frames s
        = (frames,
           mkState (this s)
             (set_scratchIn (replicate (N.to_nat frames) 0%Z ++ drop (N.to_nat frames) grown)
                (m_root s))
             (DefaultMonoMtx s) (DefaultStereoMtx s) (trace s)))
  /\ (forall (frames : N) (s : State AudioMatrixStereo),
     m_silentOut (this s) = true -> frames * 4 < size_t_max ->
     let samples := frames * 2 in
     let grown := grow 0%Z samples samples (m_scratchIn (m_root s)) in
     samples <= vsize grown
     /\ AudioVoiceStereo_SRCCallback frames s
        = (frames,
           mkState (this s)
             (set_scratchIn (replicate (N.to_nat samples) 0%Z ++ drop (N.to_nat samples) grown)
                (m_root s))
             (DefaultMonoMtx s) (DefaultStereoMtx s) (trace s)))
  /\ (forall (frames : N) (s : State AudioMatrixMono),
     m_silentOut (this s) = false ->
     let grown := grow 0%Z frames frames (m_scratchIn (m_root s)) in
     let r := AudioVoiceMono_SRCCallback frames s in
     r.1 = (supplyAudio (trace s) (m_cb (this s)) frames grown).2
     /\ trace r.2 = trace s ++ [ev_supplyAudio (m_cb (this s)) frames])
  /\ (forall (frames : N) (s : State AudioMatrixStereo),
     m_silentOut (this s) = false ->
     let samples := size_t_mul frames 2 in
     let grown := grow 0%Z samples samples (m_scratchIn (m_root s)) in
     let r := AudioVoiceStereo_SRCCallback frames s in
     r.1 = (supplyAudio (trace s) (m_cb (this s)) frames grown).2
     /\ trace r.2 = trace s ++ [ev_supplyAudio (m_cb (this s)) frames]).
Proof.
  split; [|split; [|split]].
  - intros frames s Hsilent Hwrap grown.
    assert (frames <= vsize grown) as Hsz by (apply vsize_grow_demand; lia).
    split; [exact Hsz|].
    unfold AudioVoiceMono_SRCCallback. unfold_monad. cbn. rewrite Hsilent.
    rewrite memset16_zero_spec by assumption.
    destruct s as [v [] dm ds tr]. reflexivity.
  - intros frames s Hsilent Hwrap samples grown.
    assert (size_t_mul frames 2 = samples) as Hs.
    { unfold size_t_mul, samples. apply N.mod_small. unfold size_t_max in *. lia. }
    assert (samples <= vsize grown) as Hsz by (apply vsize_grow_demand; lia).
    split; [exact Hsz|].
    unfold AudioVoiceStereo_SRCCallback. unfold_monad. cbn. rewrite Hsilent, Hs.
    fold grown.
    rewrite memset16_zero_spec; [| exact Hsz | unfold samples, size_t_max in *; lia].
    destruct s as [v [] dm ds tr]. reflexivity.
  - intros frames s Hsilent grown r. subst r grown.
    unfold AudioVoiceMono_SRCCallback, call_supplyAudio. unfold_monad. cbn. rewrite Hsilent.
    destruct (supplyAudio _ _ _ _) as [[calls written] done]. cbn.
    match goal with
    | |- context [run_calls ?call calls ?st] =>
        pose proof (run_calls_frame call calls AudioVoiceMono_call_frame st) as Hf;
        destruct (run_calls call calls st) as [[] s2]
    end.
    destruct Hf as (Htr & _). cbn in *. split; [reflexivity|exact Htr].
  - intros frames s Hsilent samples grown r. subst r grown samples.
    unfold AudioVoiceStereo_SRCCallback, call_supplyAudio. unfold_monad. cbn. rewrite Hsilent.
    destruct (supplyAudio _ _ _ _) as [[calls written] done]. cbn.
    match goal with
    | |- context [run_calls ?call calls ?st] =>
        pose proof (run_calls_frame call calls AudioVoiceStereo_call_frame st) as Hf;
        destruct (run_calls call calls st) as [[] s2]
    end.
    destruct Hf as (Htr & _). cbn in *. split; [reflexivity|exact Htr].
Qed.

(** *** A voice without sends *)

Lemma vsize_nil_eq {A} (l : list A) : (vsize l =? 0) = true <-> l = [].
Proof.
  unfold vsize. rewrite N.eqb_eq. destruct l; cbn; split; intros; try reflexivity; try lia.
  discriminate.
Qed.

Lemma pumpAndMix_routes_to_main {A Mtx} (F : Format A) (C : VoiceClass Mtx)
    (x_pre x_post : Scratch) (samples_of resize_to : N -> N) :
  Format_ok F x_pre x_post -> VoiceClass_ok C ->
  (forall m s, (c_get_Default C (c_put_Default C m s).2).1 = m) ->
  routes_to_main_by_default F C samples_of resize_to.
Proof.
  intros HF HC Hputget frames s. cbn zeta.
  pose proof (pump_prepare_effect F C x_pre x_post samples_of resize_to frames s HF HC) as Hprep.
  cbn zeta in Hprep.
  unfold pumpAndMix, bind.
  destruct (pump_prepare F C samples_of resize_to frames s) as [dt s1]. cbn [fst snd] in *.
  destruct Hprep as (_ & _ & _ & _ & _ & _ & _ & _ & [_ Hsub1] & _).
  pose proof (pump_resample_effect F C x_pre x_post frames s1 HF HC) as Hres.
  cbn zeta in Hres. destruct Hres as [(_ & [_ Hsub3] & _) _].
  destruct (pump_resample F C frames s1) as [oDone s3]. cbn [fst snd] in *.
  intros Hsends HoDone.
  unfold pump_route.
  assert (negb (oDone =? 0) = true) as ->.
  { apply negb_true_iff, N.eqb_neq, HoDone. }
  unfold bind, get_this, get_root. rewrite Hsends.
  change (negb (vsize (@nil (SubmixPtr * Mtx)) =? 0)) with false. cbn beta iota.
  destruct HC as (_ & _ & _ & _ & Hget & Hput).
  pose proof (Hget s3) as Hg. destruct (c_get_Default C s3) as [mtx s0] eqn:Eg.
  cbn [snd] in Hg. subst s0. cbn [fst].
  rewrite route_and_mix_eq. cbn zeta.
  destruct HF as (_ & _ & _ & _ & _ & _ & _ & Hsetpost).
  match goal with
  | |- context [f_set_post F ?l (m_root s3)] =>
      destruct (Hsetpost l (m_root s3)) as (Q1 & _ & Q3 & [_ Q5])
  end.
  rewrite Q1, Q3.
  match goal with
  | |- context [c_put_Default C ?m ?st] =>
      destruct (Hput m st) as (P1 & P2 & P3); pose proof (Hputget m st) as P4
  end.
  destruct (c_put_Default C _ _) as [[] s4]. unfold ret. cbn [fst snd] in *.
  cbn [this m_root trace] in P1, P2, P3.
  split; [reflexivity|]. split; [rewrite P2; reflexivity|].
  split; [rewrite P2; cbn [assign set_mainSubmix m_submixes]; congruence|].
  split; [exact P4|]. split; [rewrite P3; reflexivity|rewrite P1; exact Hsends].
Qed.

(** C3.  In each of the six [pumpAndMix] members, when the voice has no
    send-matrix entry as the [if (oDone)] block starts and the resampler
    produced at least one frame, the block makes one [routeAudio] call with the
    bus id of the main submix and one mixing call with the file's default
    matrix ([DefaultMonoMtx] through [mixMonoSampleData] for a mono voice,
    [DefaultStereoMtx] through [mixStereoSampleData] for a stereo voice) into
    the merge buffer of the main submix; the other submixes are as they were
    when the pump began. *)
Theorem no_sends_mix_into_main_only :
  (forall s : State AudioMatrixMono, (c_get_Default Mono s).1 = DefaultMonoMtx s)
  /\ (forall s : State AudioMatrixStereo, (c_get_Default Stereo s).1 = DefaultStereoMtx s)
  /\ c_mixSampleData Mono = mixMonoSampleData
  /\ c_mixSampleData Stereo = mixStereoSampleData
  /\ routes_to_main_by_default Fmt16 Mono (fun frames => frames) (fun samples => samples)
  /\ routes_to_main_by_default Fmt32 Mono (fun frames => frames) (fun samples => samples)
  /\ routes_to_main_by_default FmtFlt Mono (fun frames => frames)
       (fun samples => size_t_add samples 2)
  /\ routes_to_main_by_default Fmt16 Stereo (fun frames => size_t_mul frames 2)
       (fun samples => samples)
  /\ routes_to_main_by_default Fmt32 Stereo (fun frames => size_t_mul frames 2)
       (fun samples => samples)
  /\ routes_to_main_by_default FmtFlt Stereo (fun frames => size_t_mul frames 2)
       (fun samples => size_t_add samples 4).
Proof.
  do 4 (split; [reflexivity|]).
  split; [apply (pumpAndMix_routes_to_main Fmt16 Mono _ _ _ _ Fmt16_ok Mono_ok); reflexivity|].
  split; [apply (pumpAndMix_routes_to_main Fmt32 Mono _ _ _ _ Fmt32_ok Mono_ok); reflexivity|].
  split; [apply (pumpAndMix_routes_to_main FmtFlt Mono _ _ _ _ FmtFlt_ok Mono_ok); reflexivity|].
  split; [apply (pumpAndMix_routes_to_main Fmt16 Stereo _ _ _ _ Fmt16_ok Stereo_ok); reflexivity|].
  split; [apply (pumpAndMix_routes_to_main Fmt32 Stereo _ _ _ _ Fmt32_ok Stereo_ok); reflexivity|].
  apply (pumpAndMix_routes_to_main FmtFlt Stereo _ _ _ _ FmtFlt_ok Stereo_ok); reflexivity.
Qed.

(** *** Scratch vectors *)

Lemma pumpAndMix_sizes {A Mtx} (F : Format A) (C : VoiceClass Mtx) (x_pre x_post : Scratch)
    (samples_of resize_to : N -> N) (frames : N) (s : State Mtx) :
  Format_ok F x_pre x_post -> VoiceClass_ok C ->
  let s' := (pumpAndMix F C samples_of resize_to frames s).2 in
  let samples := samples_of frames in
  (forall x, x = x_pre \/ x = x_post ->
     scratch_size x (m_root s')
     = if scratch_size x (m_root s) <? samples then resize_to samples
       else scratch_size x (m_root s))
  /\ (forall x, x <> x_pre -> x <> x_post -> x <> ScratchIn ->
        scratch_size x (m_root s') = scratch_size x (m_root s))
  /\ scratch_size ScratchIn (m_root s) <= scratch_size ScratchIn (m_root s').
Proof.
  intros HF HC. cbn zeta.
  pose proof (pump_prepare_effect F C x_pre x_post samples_of resize_to frames s HF HC) as Hprep.
  cbn zeta in Hprep.
  unfold pumpAndMix, bind.
  destruct (pump_prepare F C samples_of resize_to frames s) as [dt s1]. cbn [fst snd] in *.
  destruct Hprep as (_ & _ & _ & _ & _ & Hused & Hother & _).
  pose proof (pump_resample_effect F C x_pre x_post frames s1 HF HC) as Hres.
  cbn zeta in Hres. destruct Hres as [([_ (_ & K2 & K3)] & _) _].
  destruct (pump_resample F C frames s1) as [oDone s3]. cbn [fst snd] in *.
  destruct (pump_route_steady F C x_pre x_post oDone dt s3 HF HC) as [_ (_ & L2 & L3)].
  destruct (pump_route F C oDone dt s3) as [[] s4]. unfold ret. cbn [fst snd] in *.
  destruct HF as (Hpre_in & Hpost_in & _).
  split; [|split].
  - intros x Hx. rewrite L3, K3 by (destruct Hx; congruence). apply Hused, Hx.
  - intros x H1 H2 H3. rewrite L3, K3 by assumption. apply Hother; assumption.
  - rewrite <- (Hother ScratchIn) by congruence. lia.
Qed.

Lemma call_supplyAudio_sizes {Mtx} (call : VoiceCall -> M Mtx unit) (frames : N) (s : State Mtx) :
  (forall c s, calls_frame s (call c s).2) ->
  forall x, scratch_size x (m_root (call_supplyAudio call frames s).2) = scratch_size x (m_root s).
Proof.
  intros Hcall x. unfold call_supplyAudio. unfold_monad. cbn.
  destruct (supplyAudio _ _ _ _) as [[calls written] done]. cbn.
  match goal with
  | |- context [run_calls call calls ?st] =>
      pose proof (run_calls_frame call calls Hcall st) as Hf;
      destruct (run_calls call calls st) as [[] s2]
  end.
  destruct Hf as (_ & _ & _ & _ & _ & _ & _ & _ & _ & Hroot & _). cbn in *.
  rewrite Hroot, scratch_size_set_submixesDirty.
  destruct x; cbn; try reflexivity. apply vsize_store.
Qed.

Lemma AudioVoiceMono_SRCCallback_eq (frames : N) (s : State AudioMatrixMono) :
  AudioVoiceMono_SRCCallback frames s
  = let grown := grow 0%Z frames frames (m_scratchIn (m_root s)) in
    let s0 := mkState (this s) (set_scratchIn grown (m_root s)) (DefaultMonoMtx s)
                (DefaultStereoMtx s) (trace s) in
    if m_silentOut (this s)
    then (frames,
          mkState (this s)
            (set_scratchIn (memset16_zero (size_t_mul frames 2) grown) (m_root s0))
            (DefaultMonoMtx s) (DefaultStereoMtx s) (trace s))
    else call_supplyAudio AudioVoiceMono_call frames s0.
Proof.
  unfold AudioVoiceMono_SRCCallback, bind, upd_root, get_this, ret. cbn.
  destruct (m_silentOut (this s)); reflexivity.
Qed.

Lemma AudioVoiceStereo_SRCCallback_eq (frames : N) (s : State AudioMatrixStereo) :
  AudioVoiceStereo_SRCCallback frames s
  = let samples := size_t_mul frames 2 in
    let grown := grow 0%Z samples samples (m_scratchIn (m_root s)) in
    let s0 := mkState (this s) (set_scratchIn grown (m_root s)) (DefaultMonoMtx s)
                (DefaultStereoMtx s) (trace s) in
    if m_silentOut (this s)
    then (frames,
          mkState (this s)
            (set_scratchIn (memset16_zero (size_t_mul samples 2) grown) (m_root s0))
            (DefaultMonoMtx s) (DefaultStereoMtx s) (trace s))
    else call_supplyAudio AudioVoiceStereo_call frames s0.
Proof.
  unfold AudioVoiceStereo_SRCCallback, bind, upd_root, get_this, ret. cbn.
  destruct (m_silentOut (this s)); reflexivity.
Qed.

Lemma SRCCallback_sizes_Mono (frames : N) (s : State AudioMatrixMono) :
  let s' := (AudioVoiceMono_SRCCallback frames s).2 in
  scratch_size ScratchIn (m_root s')
  = (if scratch_size ScratchIn (m_root s) <? frames then frames
     else scratch_size ScratchIn (m_root s))
  /\ forall x, x <> ScratchIn -> scratch_size x (m_root s') = scratch_size x (m_root s).
Proof.
  cbn zeta. rewrite AudioVoiceMono_SRCCallback_eq. cbn zeta.
  destruct (m_silentOut (this s)).
  - cbn [snd m_root]. split.
    + cbn. unfold memset16_zero. rewrite vsize_store. apply vsize_grow.
    + intros x Hx. destruct x; try reflexivity. congruence.
  - split.
    + rewrite call_supplyAudio_sizes by apply AudioVoiceMono_call_frame. cbn. apply vsize_grow.
    + intros x Hx. rewrite call_supplyAudio_sizes by apply AudioVoiceMono_call_frame.
      destruct x; try reflexivity. congruence.
Qed.

Lemma SRCCallback_sizes_Stereo (frames : N) (s : State AudioMatrixStereo) :
  let s' := (AudioVoiceStereo_SRCCallback frames s).2 in
  let samples := size_t_mul frames 2 in
  scratch_size ScratchIn (m_root s')
  = (if scratch_size ScratchIn (m_root s) <? samples then samples
     else scratch_size ScratchIn (m_root s))
  /\ forall x, x <> ScratchIn -> scratch_size x (m_root s') = scratch_size x (m_root s).
Proof.
  cbn zeta. rewrite AudioVoiceStereo_SRCCallback_eq. cbn zeta.
  destruct (m_silentOut (this s)).
  - cbn [snd m_root]. split.
    + cbn. unfold memset16_zero. rewrite vsize_store. apply vsize_grow.
    + intros x Hx. destruct x; try reflexivity. congruence.
  - split.
    + rewrite call_supplyAudio_sizes by apply AudioVoiceStereo_call_frame. cbn. apply vsize_grow.
    + intros x Hx. rewrite call_supplyAudio_sizes by apply AudioVoiceStereo_call_frame.
      destruct x; try reflexivity. congruence.
Qed.

(** What one operation does to the scratch sizes, in the shape the engine
    lemmas use: nothing shrinks, the vectors in [used] reach [demand], a used
    vector that already had [demand] keeps its size, and a vector that is
    neither used nor [scratchIn] keeps its size. *)
Lemma sizes_summary (r r' : BaseAudioVoiceEngine) (used : Scratch -> Prop) (demand target : N) :
  demand <= target ->
  (forall x, used x ->
     scratch_size x r' = if scratch_size x r <? demand then target else scratch_size x r) ->
  (forall x, ~ used x -> x <> ScratchIn -> scratch_size x r' = scratch_size x r) ->
  (~ used ScratchIn -> scratch_size ScratchIn r <= scratch_size ScratchIn r') ->
  (forall x, Decision (used x)) ->
  (forall x, scratch_size x r <= scratch_size x r')
  /\ (forall x, used x -> demand <= scratch_size x r')
  /\ (forall x, used x -> demand <= scratch_size x r -> scratch_size x r' = scratch_size x r)
  /\ (forall x, ~ used x -> x <> ScratchIn -> scratch_size x r' = scratch_size x r).
Proof.
  intros Hle Hused Hother Hin Hdec.
  assert (forall x, used x -> scratch_size x r <= scratch_size x r'
                              /\ demand <= scratch_size x r'
                              /\ (demand <= scratch_size x r ->
                                  scratch_size x r' = scratch_size x r)) as Hu.
  { intros x Hx. rewrite (Hused x Hx).
    destruct (N.ltb_spec (scratch_size x r) demand); repeat split; lia. }
  split; [|split; [|split]].
  - intros x. destruct (Hdec x) as [Hx|Hx]; [apply Hu, Hx|].
    destruct (decide (x = ScratchIn)) as [->|Hne]; [apply Hin, Hx|].
    rewrite Hother by assumption. lia.
  - intros x Hx. apply Hu, Hx.
  - intros x Hx. apply Hu, Hx.
  - exact Hother.
Qed.

Lemma e_root_leave {Mtx} (wrap : AudioVoice Mtx -> AnyVoice) (i : nat) (e : Engine)
    (s : State Mtx) : e_root (leave wrap i e s) = m_root s.
Proof. reflexivity. Qed.

Lemma channels_leave {Mtx} (wrap : AudioVoice Mtx -> AnyVoice) (i : nat) (e : Engine)
    (s : State Mtx) (v : AudioVoice Mtx) :
  e_voices e !! i = Some (wrap v) ->
  (forall v1 v2, channels_of (wrap v1) = channels_of (wrap v2)) ->
  forall j, channels_of <$> (e_voices (leave wrap i e s) !! j) = channels_of <$> (e_voices e !! j).
Proof.
  intros Hi Hc j. cbn. destruct (decide (i = j)) as [->|Hne].
  - rewrite list_lookup_insert_eq by (eapply lookup_lt_Some; exact Hi).
    rewrite Hi. cbn. f_equal. apply Hc.
  - rewrite list_lookup_insert_ne by exact Hne. reflexivity.
Qed.

Lemma scratch_grown_intro (r r' : BaseAudioVoiceEngine) (used : Scratch -> bool)
    (demand target : N) :
  demand <= target ->
  (forall x, used x = true ->
     scratch_size x r' = if scratch_size x r <? demand then target else scratch_size x r) ->
  (forall x, used x = false -> x <> ScratchIn -> scratch_size x r' = scratch_size x r) ->
  (used ScratchIn = false -> scratch_size ScratchIn r <= scratch_size ScratchIn r') ->
  scratch_grown used demand r r'.
Proof.
  intros Hle Hused Hother Hin.
  destruct (sizes_summary r r' (fun x => used x = true) demand target Hle Hused) as (A & B & C & D).
  - intros x Hx. apply Hother. destruct (used x); congruence.
  - intros Hx. apply Hin. destruct (used ScratchIn); congruence.
  - intros x. apply _.
  - split; [exact A|]. split; [exact B|]. split; [exact C|].
    intros x Hx. apply D. rewrite Hx. discriminate.
Qed.

Lemma pump_scratch_grown {A Mtx} (F : Format A) (C : VoiceClass Mtx) (x_pre x_post : Scratch)
    (samples_of resize_to : N -> N) (frames : N) (s : State Mtx) (used : Scratch -> bool)
    (demand : N) :
  Format_ok F x_pre x_post -> VoiceClass_ok C ->
  (forall x, used x = true <-> x = x_pre \/ x = x_post) ->
  samples_of frames = demand -> demand <= resize_to demand ->
  scratch_grown used demand (m_root s) (m_root (pumpAndMix F C samples_of resize_to frames s).2).
Proof.
  intros HF HC Hused Hs Hle.
  destruct (pumpAndMix_sizes F C x_pre x_post samples_of resize_to frames s HF HC) as (H1 & H2 & H3).
  rewrite Hs in H1.
  apply (scratch_grown_intro _ _ used demand (resize_to demand) Hle).
  - intros x Hx. apply H1, Hused, Hx.
  - intros x Hx Hne. apply H2; try assumption.
    + intros ->. assert (used x_pre = true) by (apply Hused; left; reflexivity). congruence.
    + intros ->. assert (used x_post = true) by (apply Hused; right; reflexivity). congruence.
  - intros _. exact H3.
Qed.

Lemma size_t_mul_small a b : a * b < size_t_max -> size_t_mul a b = a * b.
Proof. intros H. unfold size_t_mul. apply N.mod_small, H. Qed.

Lemma size_t_add_small a b : a + b < size_t_max -> size_t_add a b = a + b.
Proof. intros H. unfold size_t_add. apply N.mod_small, H. Qed.

Lemma calls_scratch_same {Mtx} (s s' : State Mtx) :
  calls_frame s s' -> forall x, scratch_size x (m_root s') = scratch_size x (m_root s).
Proof.
  intros (_ & _ & _ & _ & _ & _ & _ & _ & _ & Hroot & _) x.
  rewrite Hroot. apply scratch_size_set_submixesDirty.
Qed.

Lemma demand_same (op : EngineOp) (e e' : Engine) :
  (forall j, channels_of <$> (e_voices e' !! j) = channels_of <$> (e_voices e !! j)) ->
  demand op e' = demand op e.
Proof.
  intros H. unfold demand. specialize (H (op_voice op)).
  destruct (e_voices e' !! op_voice op), (e_voices e !! op_voice op); cbn in H;
    congruence.
Qed.

Ltac pump_case F C HF HC :=
  match goal with
  | |- scratch_grown ?used ?d _ (m_root (pumpAndMix _ _ ?so ?rt ?fr ?st).2) /\ _ =>
      split;
      [ apply (pump_scratch_grown F C _ _ so rt fr st used d HF HC);
        [ intros x; destruct x; cbn; intuition congruence
        | cbn beta; rewrite ?size_t_mul_small by lia; lia
        | cbn beta; rewrite ?size_t_add_small by lia; lia ]
      | eapply channels_leave; [eassumption|intros; reflexivity] ]
  end.

Lemma step_scratch (op : EngineOp) (e : Engine) :
  op_frames op * 2 + 4 < size_t_max ->
  scratch_grown (uses op) (demand op e) (e_root e) (e_root (step op e))
  /\ forall j, channels_of <$> (e_voices (step op e) !! j) = channels_of <$> (e_voices e !! j).
Proof.
  intros Hwrap.
  assert (scratch_grown (uses op) 0 (e_root e) (e_root e)) as Hsame.
  { repeat split; intros; reflexivity || lia. }
  destruct op as [i k frames|i frames|i c]; unfold step, demand;
    cbn [op_voice op_frames] in *;
    destruct (e_voices e !! i) as [[v|v]|] eqn:Hi; try (split; [exact Hsame|reflexivity]);
    rewrite ?e_root_leave.
  - destruct k; unfold pump_mono, AudioVoiceMono_pumpAndMix16, AudioVoiceMono_pumpAndMix32,
      AudioVoiceMono_pumpAndMixFlt; cbn [channels_of].
    + pump_case Fmt16 Mono Fmt16_ok Mono_ok.
    + pump_case Fmt32 Mono Fmt32_ok Mono_ok.
    + pump_case FmtFlt Mono FmtFlt_ok Mono_ok.
  - destruct k; unfold pump_stereo, AudioVoiceStereo_pumpAndMix16,
      AudioVoiceStereo_pumpAndMix32, AudioVoiceStereo_pumpAndMixFlt; cbn [channels_of].
    + pump_case Fmt16 Stereo Fmt16_ok Stereo_ok.
    + pump_case Fmt32 Stereo Fmt32_ok Stereo_ok.
    + pump_case FmtFlt Stereo FmtFlt_ok Stereo_ok.
  - split; [|eapply channels_leave; [eassumption|intros; reflexivity]].
    destruct (SRCCallback_sizes_Mono frames (enter v e)) as [H1 H2]. cbn [channels_of].
    apply (scratch_grown_intro _ _ _ (frames * 1) (frames * 1)); [lia| | |discriminate].
    + intros x Hx. destruct x; try discriminate. rewrite H1, N.mul_1_r. reflexivity.
    + intros x _ Hx. apply H2, Hx.
  - split; [|eapply channels_leave; [eassumption|intros; reflexivity]].
    destruct (SRCCallback_sizes_Stereo frames (enter v e)) as [H1 H2]. cbn [channels_of].
    rewrite size_t_mul_small in H1 by lia.
    apply (scratch_grown_intro _ _ _ (frames * 2) (frames * 2)); [lia| | |discriminate].
    + intros x Hx. destruct x; try discriminate. exact H1.
    + intros x _ Hx. apply H2, Hx.
  - split; [|eapply channels_leave; [eassumption|intros; reflexivity]].
    pose proof (calls_scratch_same _ _ (AudioVoiceMono_call_frame c (enter v e))) as H.
    repeat split; intros; rewrite ?H; reflexivity || lia.
  - split; [|eapply channels_leave; [eassumption|intros; reflexivity]].
    pose proof (calls_scratch_same _ _ (AudioVoiceStereo_call_frame c (enter v e))) as H.
    repeat split; intros; rewrite ?H; reflexivity || lia.
Qed.

Lemma run_cons (op : EngineOp) (ops : list EngineOp) (e : Engine) :
  run (op :: ops) e = run ops (step op e).
Proof. reflexivity. Qed.

Lemma run_scratch (ops : list EngineOp) :
  Forall (fun op => op_frames op * 2 + 4 < size_t_max) ops ->
  forall e : Engine,
    (forall x, scratch_size x (e_root e) <= scratch_size x (e_root (run ops e)))
    /\ (forall j, channels_of <$> (e_voices (run ops e) !! j) = channels_of <$> (e_voices e !! j))
    /\ (forall op x, op ∈ ops -> uses op x = true ->
          demand op e <= scratch_size x (e_root (run ops e))).
Proof.
  induction 1 as [|op ops Hop Hops IH]; intros e.
  - split; [intros; cbn; lia|]. split; [reflexivity|].
    intros op x Hin. apply elem_of_nil in Hin. destruct Hin.
  - rewrite run_cons.
    destruct (step_scratch op e Hop) as [(S1 & S2 & _) Sch].
    destruct (IH (step op e)) as (R1 & Rch & R3).
    split; [|split].
    + intros x. specialize (S1 x). specialize (R1 x). lia.
    + intros j. rewrite Rch. apply Sch.
    + intros op' x Hin Huse. apply elem_of_cons in Hin. destruct Hin as [->|Hin].
      * specialize (S2 x Huse). specialize (R1 x). lia.
      * rewrite <- (demand_same op' e (step op e) Sch). apply R3; assumption.
Qed.

(** C6.  For any sequence of pumps, resampler input callbacks and client
    calls on the voices of one engine, with frame counts whose sample counts
    fit [size_t]: no scratch vector ([scratchIn] and [Pre]/[Post] at each of
    the three formats) is ever smaller afterwards than before; each vector ends
    with at least [frames * channels] elements for every operation of the
    sequence that used it, hence at least the maximum of these demands; and a
    single operation leaves a vector it uses at its size when that size already
    met the demand, and leaves every vector it does not use (other than
    [scratchIn], which the resampler may ask for during a pump) at its size. *)
Theorem scratch_vectors_grow_to_demand_never_shrink :
  forall (ops : list EngineOp) (e : Engine),
    Forall (fun op => op_frames op * 2 + 4 < size_t_max) ops ->
    (forall x, scratch_size x (e_root e) <= scratch_size x (e_root (run ops e)))
    /\ (forall op x, op ∈ ops -> uses op x = true ->
          demand op e <= scratch_size x (e_root (run ops e)))
    /\ (forall op, op ∈ ops ->
        forall e0 : Engine,
          scratch_grown (uses op) (demand op e0) (e_root e0) (e_root (step op e0))).
Proof.
  intros ops e Hops.
  destruct (run_scratch ops Hops e) as (H1 & _ & H3).
  split; [exact H1|]. split; [exact H3|].
  intros op Hin e0. rewrite Forall_forall in Hops.
  apply step_scratch, Hops, Hin.
Qed.

End VoiceFacts.

(** ** The AudioQueue engine *)

Section CallbackFacts.
Import Audio AQS.
Context {Base : Type} `{CA : CoreAudio Base}.

Lemma memset_zero_whole (n : N) (data : list byte) :
  vsize data = n -> memset_zero n data = Some (replicate (N.to_nat n) Byte.x00).
Proof.
  intros H. unfold memset_zero. rewrite H, N.leb_refl. unfold vsize in H.
  rewrite drop_ge by lia. rewrite app_nil_r. reflexivity.
Qed.

Lemma wait_ns_some (info : AudioVoiceEngineMixInfo) :
  let rate := size_t_of_double (m_sampleRate info) in
  0 < rate -> m_periodFrames info * 1000000000 < size_t_max ->
  wait_ns info = Some (m_periodFrames info * 1000000000 / rate).
Proof.
  intros rate Hrate Hwrap. unfold wait_ns, size_t_div. fold rate.
  destruct (N.eqb_spec rate 0) as [H0|_]; [lia|].
  rewrite size_t_mul_small by exact Hwrap. reflexivity.
Qed.

Lemma wait_ns_bounds (p rate : N) :
  0 < rate -> (p / rate) * rate <= p /\ p < (p / rate + 1) * rate.
Proof.
  intros Hrate.
  pose proof (N.div_mod p rate ltac:(lia)) as Hdm.
  pose proof (N.mod_lt p rate ltac:(lia)) as Hlt.
  set (q := p / rate) in *. set (m := p mod rate) in *.
  rewrite (N.mul_comm rate q) in Hdm. rewrite N.mul_add_distr_r.
  split; lia.
Qed.

Lemma Callback_timeout (engine : AQSAudioVoiceEngine Base) (inAQ : ptr)
    (inBuffer : AudioQueueBuffer) (tr : list Event) (ns : N) (data : list byte) :
  m_cbRunning engine = true ->
  m_inRetrace engine = false ->
  wait_ns (m_mixInfo engine) = Some ns ->
  (wait_for tr ns).1 = timeout ->
  memset_zero (m_frameBytes engine) (mAudioData inBuffer) = Some data ->
  Callback engine inAQ inBuffer tr
  = let buf := mkBuffer (UInt32_of_size_t (m_frameBytes engine)) data in
    Some (set_inCb false (set_inRetrace (wait_for tr ns).2 (set_inCb true engine)),
          buf,
          tr ++ [ev_wait_for ns; ev_AudioQueueEnqueueBuffer inAQ buf; ev_notify_one_leave]).
Proof.
  intros Hrun Hretrace Hns Hwait Hset. unfold Callback. rewrite Hrun. cbn [negb]. cbn zeta.
  cbn [m_inRetrace set_inCb m_mixInfo]. rewrite Hretrace, Hns. cbn [negb].
  destruct (wait_for tr ns) as [status retrace].
  cbn [fst snd] in *. subst status. cbn [orb].
  cbn [m_frameBytes set_inRetrace set_inCb]. rewrite Hset. unfold enqueue_and_leave.
  rewrite <- app_assoc. destruct engine; reflexivity.
Qed.

(** C7.  The hardware callback of a running engine whose client is not in a
    retrace waits on the enter condition for [periodFrames / sampleRate]
    seconds rounded down to a whole nanosecond.  If that wait times out, the
    callback returns having set the buffer's byte size to [m_frameBytes] as the
    [UInt32] field holds it (which is [m_frameBytes] itself whenever that is
    below [2^32]), filled the buffer with zeros (all of it, a buffer of
    [periodFrames * channels * 4] bytes as the constructor counts it), enqueued
    it again, notified the leave condition and cleared [m_inCb]:
    [_pumpAndMixVoices] is not called and the base engine with its voices is
    untouched. *)
Theorem callback_timeout_enqueues_silence :
  forall (engine : AQSAudioVoiceEngine Base) (inAQ : ptr) (inBuffer : AudioQueueBuffer)
         (tr : list Event),
    let info := m_mixInfo engine in
    let rate := size_t_of_double (m_sampleRate info) in
    let ns := m_periodFrames info * 1000000000 / rate in
    let bytes := m_periodFrames info * m_channelCount info * 4 in
    m_cbRunning engine = true ->
    m_inRetrace engine = false ->
    0 < rate ->
    m_periodFrames info * 1000000000 < size_t_max ->
    (wait_for tr ns).1 = timeout ->
    m_frameBytes engine = frameBytes_of info ->
    vsize (mAudioData inBuffer) = m_frameBytes engine ->
    bytes < size_t_max ->
    exists engine' buf,
      Callback engine inAQ inBuffer tr
      = Some (engine', buf,
              tr ++ [ev_wait_for ns; ev_AudioQueueEnqueueBuffer inAQ buf; ev_notify_one_leave])
      /\ mAudioDataByteSize buf = bytes mod 2 ^ 32
      /\ (bytes < 2 ^ 32 -> mAudioDataByteSize buf = bytes)
      /\ mAudioData buf = replicate (N.to_nat bytes) Byte.x00
      /\ forallb (fun e => negb (is_pump e))
           [ev_wait_for ns; ev_AudioQueueEnqueueBuffer inAQ buf; ev_notify_one_leave] = true
      /\ base engine' = base engine
      /\ m_inCb engine' = false
      /\ wait_ns info = Some ns
      /\ ns * rate <= m_periodFrames info * 1000000000
      /\ m_periodFrames info * 1000000000 < (ns + 1) * rate.
Proof.
  intros engine inAQ inBuffer tr info rate ns bytes Hrun Hretrace Hrate Hw1 Hwait Hfb Hcap Hw2.
  assert (m_frameBytes engine = bytes) as Hbytes.
  { rewrite Hfb. unfold frameBytes_of. fold info.
    rewrite (size_t_mul_small (m_periodFrames info)) by (unfold bytes, size_t_max in *; lia).
    apply size_t_mul_small. exact Hw2. }
  pose proof (wait_ns_some info Hrate Hw1) as Hns. fold rate ns in Hns.
  pose proof (memset_zero_whole _ _ Hcap) as Hset.
  rewrite (Callback_timeout engine inAQ inBuffer tr ns _ Hrun Hretrace Hns Hwait Hset).
  cbn zeta. eexists _, _. split; [reflexivity|].
  cbn [mAudioDataByteSize mAudioData base m_inCb set_inCb set_inRetrace].
  unfold UInt32_of_size_t. rewrite Hbytes.
  split; [reflexivity|]. split; [intros Hsmall; apply N.mod_small, Hsmall|].
  split; [reflexivity|]. split; [reflexivity|]. split; [reflexivity|].
  split; [reflexivity|]. split; [exact Hns|].
  apply wait_ns_bounds. exact Hrate.
Qed.

End CallbackFacts.

Section MIDIFacts.
Import Audio AQS.
Context {Base : Type} `{CA : CoreAudio Base}.

Lemma same_but_counters_refl (e : AQSAudioVoiceEngine Base) : same_but_counters e e.
Proof. destruct e. reflexivity. Qed.

Lemma same_but_counters_in (e : AQSAudioVoiceEngine Base) (n : N) :
  same_but_counters e (set_midiInCounter n e).
Proof. destruct e. reflexivity. Qed.

Lemma same_but_counters_out (e : AQSAudioVoiceEngine Base) (n : N) :
  same_but_counters e (set_midiOutCounter n e).
Proof. destruct e. reflexivity. Qed.

Lemma same_but_counters_both (e : AQSAudioVoiceEngine Base) (n m : N) :
  same_but_counters e (set_midiOutCounter m (set_midiInCounter n e)).
Proof. destruct e. reflexivity. Qed.

Lemma status_failed (stat : Z) : negb (stat =? 0)%Z = true <-> stat <> 0%Z.
Proof. rewrite negb_true_iff, Z.eqb_neq. reflexivity. Qed.

Ltac midi_norm :=
  cbn [fst snd negb m_midiClient set_midiInCounter set_midiOutCounter m_midiInCounter
       m_midiOutCounter in_virt in_midi in_midiPort out_virt out_midi out_midiPort
       io_virt io_midiIn io_midiPortIn io_midiOut io_midiPortOut] in *.

Ltac midi_cases :=
  midi_norm;
  repeat match goal with
  | |- context [nonnull ?x] =>
      let E := fresh "E" in destruct (nonnull x) eqn:E; midi_norm;
      [apply nonnull_true in E|apply nonnull_false in E]
  | |- context [let '(_, _) := ?x in _] =>
      let E := fresh "E" in destruct x as [? ?] eqn:E; midi_norm
  | |- context [negb (?x =? 0)%Z] =>
      destruct (Z.eqb_spec x 0); midi_norm
  end.

Ltac midi_finish :=
  unfold nullptr in *;
  repeat match goal with
  | H : ?x = (_, _) |- context [?x] => rewrite H
  end;
  midi_norm;
  repeat split;
  try (intros; first [ reflexivity | discriminate | congruence
                     | apply same_but_counters_refl | apply same_but_counters_in
                     | apply same_but_counters_out | apply same_but_counters_both ]);
  try (intros; intuition (congruence || discriminate)).

Ltac midi_counters :=
  cbn [fst snd]; unfold nullptr in *;
  repeat match goal with
  | H : ?x = (_, _) |- context [?x] => rewrite H
  | |- context [(?x =? 0)%Z] => destruct (Z.eqb_spec x 0)
  end;
  cbn [fst snd] in *;
  try reflexivity; try congruence; try tauto.

Lemma newVirtualMIDIIn_spec (e : AQSAudioVoiceEngine Base) (tr : list Event) :
  constructor_contract e tr (newVirtualMIDIIn e tr) (m_midiClient e = 0)
    ((MIDIDestinationCreate tr (m_midiClient e)
        ("Boo MIDI Virtual In " +:+ pretty (m_midiInCounter e))).1 <> 0%Z) 1 0.
Proof.
  unfold constructor_contract, newVirtualMIDIIn. midi_cases; midi_finish.
Qed.

Lemma newVirtualMIDIOut_spec (e : AQSAudioVoiceEngine Base) (tr : list Event) :
  constructor_contract e tr (newVirtualMIDIOut e tr) (m_midiClient e = 0)
    ((MIDISourceCreate tr (m_midiClient e)
        ("Boo MIDI Virtual Out " +:+ pretty (m_midiOutCounter e))).1 <> 0%Z) 0 1.
Proof.
  unfold constructor_contract, newVirtualMIDIOut. midi_cases; midi_finish.
Qed.

Lemma newVirtualMIDIInOut_spec (e : AQSAudioVoiceEngine Base) (tr : list Event) :
  constructor_contract e tr (newVirtualMIDIInOut e tr) (m_midiClient e = 0)
    ((MIDIDestinationCreate tr (m_midiClient e)
        ("Boo MIDI Virtual In " +:+ pretty (m_midiInCounter e))).1 <> 0%Z
     \/ (MIDISourceCreate
           (tr ++ [ev_MIDIDestinationCreate (m_midiClient e)
                     ("Boo MIDI Virtual In " +:+ pretty (m_midiInCounter e))])
           (m_midiClient e)
           ("Boo MIDI Virtual Out " +:+ pretty (m_midiOutCounter e))).1 <> 0%Z)
    1
    (if ((MIDIDestinationCreate tr (m_midiClient e)
            ("Boo MIDI Virtual In " +:+ pretty (m_midiInCounter e))).1 =? 0)%Z
     then 1 else 0).
Proof.
  unfold constructor_contract, newVirtualMIDIInOut. midi_cases; midi_finish; midi_counters.
Qed.

Lemma newRealMIDIIn_spec (name : string) (e : AQSAudioVoiceEngine Base) (tr : list Event) :
  constructor_contract e tr (newRealMIDIIn name e tr)
    (m_midiClient e = 0 \/ LookupMIDISource (midi_devices tr) name = 0)
    ((MIDIInputPortCreate tr (m_midiClient e)
        ("Boo MIDI Real In " +:+ pretty (m_midiInCounter e))).1 <> 0%Z) 1 0.
Proof.
  unfold constructor_contract, newRealMIDIIn. midi_cases; midi_finish.
Qed.

Lemma newRealMIDIOut_spec (name : string) (e : AQSAudioVoiceEngine Base) (tr : list Event) :
  constructor_contract e tr (newRealMIDIOut name e tr)
    (m_midiClient e = 0 \/ LookupMIDIDest (midi_devices tr) name = 0)
    ((MIDIOutputPortCreate tr (m_midiClient e)
        ("Boo MIDI Real Out " +:+ pretty (m_midiOutCounter e))).1 <> 0%Z) 0 1.
Proof.
  unfold constructor_contract, newRealMIDIOut. midi_cases; midi_finish.
Qed.

Lemma newRealMIDIInOut_spec (name : string) (e : AQSAudioVoiceEngine Base) (tr : list Event) :
  constructor_contract e tr (newRealMIDIInOut name e tr)
    (m_midiClient e = 0 \/ LookupMIDISource (midi_devices tr) name = 0
     \/ LookupMIDIDest (midi_devices tr) name = 0)
    ((MIDIInputPortCreate tr (m_midiClient e)
        ("Boo MIDI Real In " +:+ pretty (m_midiInCounter e))).1 <> 0%Z
     \/ (MIDIOutputPortCreate
           ((tr ++ [ev_MIDIInputPortCreate (m_midiClient e)
                      ("Boo MIDI Real In " +:+ pretty (m_midiInCounter e))])
            ++ [ev_MIDIPortConnectSource
                  (MIDIInputPortCreate tr (m_midiClient e)
                     ("Boo MIDI Real In " +:+ pretty (m_midiInCounter e))).2
                  (LookupMIDISource (midi_devices tr) name)])
           (m_midiClient e)
           ("Boo MIDI Real Out " +:+ pretty (m_midiOutCounter e))).1 <> 0%Z)
    1
    (if ((MIDIInputPortCreate tr (m_midiClient e)
            ("Boo MIDI Real In " +:+ pretty (m_midiInCounter e))).1 =? 0)%Z
     then 1 else 0).
Proof.
  unfold constructor_contract, newRealMIDIInOut. midi_cases; midi_finish; midi_counters.
Qed.

(** C9, as the code has it.  Each of the six MIDI endpoint constructors
    returns a null handle exactly when the shared MIDI client is absent, no
    source (destination) endpoint is found under the named device, or a
    CoreMIDI endpoint or port creation returns an error status, and a non-null
    endpoint otherwise.  Whatever the outcome, the engine is left as it was
    except for the two MIDI name counters.  With the client absent or nothing
    found under the name, the engine and the trace of outside calls are
    unchanged.  Otherwise every creation that is attempted has advanced its
    counter by one, and a failure does not take that back: an input
    constructor has advanced the input counter, an output constructor the
    output counter, and an input-output constructor the input counter and, if
    the input side was created, the output counter too. *)
Theorem MIDI_constructors_null_on_failure_counters_advance :
  forall (e : AQSAudioVoiceEngine Base) (tr : list Event) (name : string),
    let client := m_midiClient e in
    let src := LookupMIDISource (midi_devices tr) name in
    let dst := LookupMIDIDest (midi_devices tr) name in
    let virt_in := "Boo MIDI Virtual In " +:+ pretty (m_midiInCounter e) in
    let virt_out := "Boo MIDI Virtual Out " +:+ pretty (m_midiOutCounter e) in
    let real_in := "Boo MIDI Real In " +:+ pretty (m_midiInCounter e) in
    let real_out := "Boo MIDI Real Out " +:+ pretty (m_midiOutCounter e) in
    constructor_contract e tr (newVirtualMIDIIn e tr) (client = 0)
      ((MIDIDestinationCreate tr client virt_in).1 <> 0%Z) 1 0
    /\ constructor_contract e tr (newVirtualMIDIOut e tr) (client = 0)
      ((MIDISourceCreate tr client virt_out).1 <> 0%Z) 0 1
    /\ constructor_contract e tr (newVirtualMIDIInOut e tr) (client = 0)
      ((MIDIDestinationCreate tr client virt_in).1 <> 0%Z
       \/ (MIDISourceCreate (tr ++ [ev_MIDIDestinationCreate client virt_in]) client virt_out).1
          <> 0%Z)
      1 (if ((MIDIDestinationCreate tr client virt_in).1 =? 0)%Z then 1 else 0)
    /\ constructor_contract e tr (newRealMIDIIn name e tr) (client = 0 \/ src = 0)
      ((MIDIInputPortCreate tr client real_in).1 <> 0%Z) 1 0
    /\ constructor_contract e tr (newRealMIDIOut name e tr) (client = 0 \/ dst = 0)
      ((MIDIOutputPortCreate tr client real_out).1 <> 0%Z) 0 1
    /\ constructor_contract e tr (newRealMIDIInOut name e tr)
      (client = 0 \/ src = 0 \/ dst = 0)
      ((MIDIInputPortCreate tr client real_in).1 <> 0%Z
       \/ (MIDIOutputPortCreate
             ((tr ++ [ev_MIDIInputPortCreate client real_in])
              ++ [ev_MIDIPortConnectSource (MIDIInputPortCreate tr client real_in).2 src])
             client real_out).1 <> 0%Z)
      1 (if ((MIDIInputPortCreate tr client real_in).1 =? 0)%Z then 1 else 0).
Proof.
  intros e tr name. cbn zeta.
  split; [apply newVirtualMIDIIn_spec|].
  split; [apply newVirtualMIDIOut_spec|].
  split; [apply newVirtualMIDIInOut_spec|].
  split; [apply newRealMIDIIn_spec|].
  split; [apply newRealMIDIOut_spec|].
  apply newRealMIDIInOut_spec.
Qed.

End MIDIFacts.

(** ** The HID listener *)

Section ListenerFacts.
Import HID.
Context `{IO : IOKit}.

Lemma tok_handle_make_token (device : N) : tok_handle (make_token device) = device.
Proof.
  unfold make_token. destruct (IOHIDDeviceGetProperty device) as [[[vid pid] manuf] product].
  reflexivity.
Qed.

Lemma _hasToken_false (handle : N) (tokens : gmap N CDeviceToken) :
  _hasToken handle tokens = false <-> tokens !! handle = None.
Proof.
  unfold _hasToken. rewrite bool_decide_eq_false, <- eq_None_not_Some. reflexivity.
Qed.

Lemma _hasToken_true (handle : N) (tokens : gmap N CDeviceToken) :
  _hasToken handle tokens = true <-> is_Some (tokens !! handle).
Proof. unfold _hasToken. apply bool_decide_eq_true. Qed.

(** C8.  A device-connect event inserts a token exactly when scanning is
    enabled and the finder has no token under that OS handle; the token is the
    one built from the device's properties and is keyed by the handle; in
    every other case the listener and the finder are left as they were.  So
    after a connect of [device] while scanning the finder holds a token under
    [device], every other handle is as before, the set has grown by at most
    one, and a repeated connect changes nothing. *)
Theorem deviceConnected_inserts_once :
  forall (listener : CHIDListenerIOKit) (device : N),
    let listener' := deviceConnected listener device in
    (m_scanningEnabled listener = true /\ m_finder listener !! device = None
     /\ listener' = mkListener (<[device := make_token device]> (m_finder listener))
                      (m_scanningEnabled listener) (m_runLoopBlocks listener)
     \/ ~ (m_scanningEnabled listener = true /\ m_finder listener !! device = None)
        /\ listener' = listener)
    /\ (m_scanningEnabled listener = true -> is_Some (m_finder listener' !! device))
    /\ (forall h, h <> device -> m_finder listener' !! h = m_finder listener !! h)
    /\ (size (m_finder listener') <= S (size (m_finder listener)))%nat
    /\ deviceConnected listener' device = listener'.
Proof.
  intros listener device. cbn zeta. unfold deviceConnected.
  destruct (m_scanningEnabled listener) eqn:Hscan; cbn [negb].
  - destruct (_hasToken device (m_finder listener)) eqn:Hhas.
    + rewrite Hscan, Hhas. cbn [negb]. apply _hasToken_true in Hhas.
      split; [right; split; [|reflexivity]|].
      { intros [_ Hnone]. rewrite Hnone in Hhas. destruct Hhas; discriminate. }
      split; [intros _; exact Hhas|]. split; [reflexivity|]. split; [lia|reflexivity].
    + cbn [m_finder m_scanningEnabled m_runLoopBlocks]. rewrite ?Hscan. cbn [negb].
      apply _hasToken_false in Hhas.
      unfold _insertToken. rewrite tok_handle_make_token.
      replace (_hasToken device (<[device:=make_token device]> (m_finder listener))) with true
        by (symmetry; apply _hasToken_true; rewrite lookup_insert_eq; eexists; reflexivity).
      split; [left; repeat split; assumption|].
      split; [intros _; rewrite lookup_insert_eq; eexists; reflexivity|].
      split; [intros h Hh; apply lookup_insert_ne; congruence|].
      split; [rewrite map_size_insert_None by exact Hhas; lia|reflexivity].
  - rewrite Hscan. cbn [negb].
    split; [right; split; [intros [H _]; discriminate|reflexivity]|].
    split; [discriminate|]. split; [reflexivity|]. split; [lia|reflexivity].
Qed.

End ListenerFacts.

(** ** The code at work on the small setting *)

Section Examples.
Import Audio Sample.
Local Existing Instance world.
Local Existing Instance matrices.

(** A mono voice with a rate reset to 44.1 kHz and a slewed pitch ratio of 2
    both pending: the pump rebuilds the resampler, sets the ratio
    [2 * 44100 / 48000] (without slew: the rebuild sets it), asks for output,
    and the four frames end in the merge buffer of the main submix. *)
Example pump_with_both_pending :
  let s := (resetSampleRate 44100 (setPitchRatio 2 true (state (voice true false))).2).2 in
  let r := AudioVoiceMono_pumpAndMix16 4 s in
  r.1 = 4
  /\ trace r.2
     = [ev_preSupplyAudio 100 (PrimFloat.div 4 48000);
        ev_soxr_delete 1; ev_soxr_create 44100 48000 1 SOXR_INT16_I true;
        ev_soxr_set_input_fn 1 1;
        ev_soxr_set_io_ratio 1 (PrimFloat.div (PrimFloat.mul 2 44100) 48000) 0;
        ev_soxr_output 1 4; ev_supplyAudio 100 4;
        ev_routeAudio 100 4 1 (PrimFloat.div 4 48000) 0]
  /\ merge16 (m_mainSubmix (m_root r.2)) = [7; 7; 7; 7; 0; 0; 0; 0]%Z
  /\ m_resetSampleRate (this r.2) = false /\ m_setPitchRatio (this r.2) = false.
Proof. vm_compute. repeat split. Qed.

(** Only the pitch ratio pending: it is set with the 5 ms slew. *)
Example pump_with_ratio_pending :
  let s := (setPitchRatio 2 true (state (voice true false))).2 in
  trace (AudioVoiceMono_pumpAndMixFlt 4 s).2
  = [ev_preSupplyAudio 100 (PrimFloat.div 4 48000);
     ev_soxr_set_io_ratio 1 (PrimFloat.div (PrimFloat.mul 2 48000) 48000) 240;
     ev_soxr_output 1 4; ev_supplyAudio 100 4;
     ev_routeAudio 100 4 1 (PrimFloat.div 4 48000) 0].
Proof. vm_compute. reflexivity. Qed.

(** Both pending and libsoxr cannot create the resampler: the failure is
    reported, the rates stay, and the pitch ratio is then set with the 5 ms
    slew on the handle [soxr_create] left, which is null. *)
Example pump_with_both_pending_create_fails :
  let s := (resetSampleRate 44100 (setPitchRatio 2 true (state (voice true false))).2).2 in
  let r := @AudioVoiceMono_pumpAndMix16 world_no_resampler matrices 4 s in
  trace r.2
  = [ev_preSupplyAudio 100 (PrimFloat.div 4 48000);
     ev_soxr_delete 1; ev_soxr_create 44100 48000 1 SOXR_INT16_I true;
     ev_Log_report_Fatal "unable to create soxr resampler: out of memory";
     ev_soxr_set_io_ratio 0 (PrimFloat.div (PrimFloat.mul 2 48000) 48000) 240;
     ev_soxr_output 0 4; ev_supplyAudio 100 4;
     ev_routeAudio 100 4 1 (PrimFloat.div 4 48000) 0]
  /\ m_src (this r.2) = 0
  /\ m_sampleRateIn (this r.2) = 48000%float
  /\ m_resetSampleRate (this r.2) = false /\ m_setPitchRatio (this r.2) = false.
Proof. vm_compute. repeat split. Qed.

(** The float pump asks [resize] for two (mono) or four (stereo) samples more
    than it needs. *)
Example float_pump_sizes :
  scratch_size ScratchFltPre (m_root (AudioVoiceMono_pumpAndMixFlt 4 (state (voice true false))).2) = 6
  /\ scratch_size ScratchFltPost
       (m_root (AudioVoiceStereo_pumpAndMixFlt 4 (state (voice true true))).2) = 12.
Proof. vm_compute. split; reflexivity. Qed.

Example hex8_example : AQS.hex8 48879 = "0000BEEF" /\ AQS.hex8 (-1) = "FFFFFFFF".
Proof. vm_compute. split; reflexivity. Qed.

Example lookup_example :
  AQS.LookupMIDISource (@AQS.midi_devices _ core_audio []) "0000BEEF" = 5
  /\ AQS.LookupMIDIDest (@AQS.midi_devices _ core_audio []) "0000BEEF" = 0
  /\ AQS.LookupMIDISource (@AQS.midi_devices _ core_audio []) "0000beef" = 0.
Proof. vm_compute. repeat split. Qed.

Example wait_ns_example :
  AQS.wait_ns (mkMixInfo 96000 SOXR_FLOAT32_I 32 2 1440) = Some 15000000
  /\ AQS.wait_ns (mkMixInfo 44100 SOXR_FLOAT32_I 32 2 660) = Some 14965986
  /\ AQS.wait_ns (mkMixInfo 0.5 SOXR_FLOAT32_I 32 2 660) = None.
Proof. vm_compute. repeat split; reflexivity. Qed.

Lemma SRCCallback_silent_or_supplied_witness :
  (AudioVoiceStereo_SRCCallback 3 (state (voice true true))).1 = 3
  /\ m_scratchIn (m_root (AudioVoiceStereo_SRCCallback 3 (state (voice true true))).2)
     = [0; 0; 0; 0; 0; 0]%Z.
Proof.
  destruct (proj1 (proj2 (@SRCCallback_silent_or_supplied world matrices)) 3
              (state (voice true true))
              eq_refl ltac:(vm_compute; reflexivity)) as [_ H].
  rewrite H. vm_compute. split; reflexivity.
Defined.

Lemma no_sends_mix_into_main_only_witness :
  merge16 (m_mainSubmix (m_root (AudioVoiceMono_pumpAndMix16 4 (state (voice true false))).2))
  = [7; 7; 7; 7; 0; 0; 0; 0]%Z
  /\ m_submixes (m_root (AudioVoiceMono_pumpAndMix16 4 (state (voice true false))).2)
     = m_submixes root.
Proof.
  destruct (proj1 (proj2 (proj2 (proj2 (proj2 (@no_sends_mix_into_main_only world matrices)))))
              4 (state (voice true false))
              ltac:(vm_compute; reflexivity) ltac:(vm_compute; discriminate))
    as (_ & Hmain & Hsub & _).
  unfold AudioVoiceMono_pumpAndMix16. rewrite Hmain, Hsub. vm_compute. split; reflexivity.
Defined.

Lemma scratch_vectors_grow_to_demand_never_shrink_witness :
  6 <= scratch_size ScratchIn
         (e_root (run [op_pump 0 PumpFlt 4; op_SRCCallback 1 3; op_pump 1 Pump32 2] engine)).
Proof.
  exact (proj1 (proj2 (@scratch_vectors_grow_to_demand_never_shrink world matrices
                         [op_pump 0 PumpFlt 4; op_SRCCallback 1 3; op_pump 1 Pump32 2] engine
                         ltac:(repeat constructor; vm_compute; reflexivity)))
           (op_SRCCallback 1 3) ScratchIn
           ltac:(repeat constructor) eq_refl).
Defined.

Lemma setPitchRatio_fixed_rate_only_clears_flag_witness :
  trace (_setPitchRatio 2 true (state (voice (Mtx:=N) false false))).2 = []
  /\ m_src (this (_setPitchRatio 2 true (state (voice (Mtx:=N) false false))).2) = 1.
Proof.
  rewrite (@setPitchRatio_fixed_rate_only_clears_flag world matrices N
             (state (voice false false)) 2 true eq_refl).
  split; reflexivity.
Defined.

End Examples.

Section AQSExamples.
Import Audio AQS Sample.
Local Existing Instance core_audio.

Lemma callback_timeout_enqueues_silence_witness :
  exists engine' buf,
    Callback aqs_engine 1 aqs_buffer []
    = Some (engine', buf,
            [ev_wait_for 15000000; ev_AudioQueueEnqueueBuffer 1 buf; ev_notify_one_leave])
    /\ mAudioDataByteSize buf = 11520
    /\ mAudioData buf = replicate (N.to_nat 11520) Byte.x00.
Proof.
  destruct (@callback_timeout_enqueues_silence unit core_audio aqs_engine 1 aqs_buffer []
              eq_refl eq_refl ltac:(vm_compute; reflexivity) ltac:(vm_compute; reflexivity)
              eq_refl ltac:(vm_compute; reflexivity) ltac:(vm_compute; reflexivity)
              ltac:(vm_compute; reflexivity))
    as (engine' & buf & Hcb & _ & Hsize & Hdata & _).
  exists engine', buf.
  split; [exact Hcb|]. split; [apply Hsize; vm_compute; reflexivity|exact Hdata].
Defined.

(** Two runs against C9's wording.  CoreMIDI refuses the destination: the
    constructor returns null and the engine is not what it was, the counter of
    MIDI inputs went from 0 to 1, and the next attempt registers under the
    name numbered 1.  The device named 0000BEEF is found and has a source, the
    client is present and no creation fails, none being attempted: the
    constructor of a real output still returns null, the device having no
    destination. *)
Lemma newVirtualMIDIIn_failure_changes_engine :
  let r := newVirtualMIDIIn aqs_engine [] in
  (r.1.1 = None
   /\ r.1.2 <> aqs_engine
   /\ m_midiInCounter r.1.2 = 1
   /\ (newVirtualMIDIIn r.1.2 r.2).2
      = [ev_MIDIDestinationCreate 1 "Boo MIDI Virtual In 0";
         ev_MIDIDestinationCreate 1 "Boo MIDI Virtual In 1"])
  /\ (m_midiClient aqs_engine <> 0
     /\ LookupMIDISource (midi_devices []) "0000BEEF" = 5
     /\ newRealMIDIOut "0000BEEF" aqs_engine [] = (None, aqs_engine, [])).
Proof.
  vm_compute.
  split; [split; [reflexivity|split; [|split; reflexivity]]
         |split; [|split; reflexivity]];
    intros H; discriminate H.
Qed.

End AQSExamples.

Section HIDExamples.
Import HID Sample.
Local Existing Instance iokit.

(** Connect, disconnect on the listener thread, connect again while scanning:
    one token under the handle. *)
Example hot_plug_race :
  let l0 := mkListener ∅ true [] in
  let l3 := deviceConnected (deviceDisconnected true (deviceConnected l0 9) 9) 9 in
  m_finder l3 = {[ 9 := mkToken 1406 823 "Nintendo" "WUP-028" 9 ]}.
Proof. vm_compute. reflexivity. Qed.

Lemma deviceConnected_inserts_once_witness :
  m_scanningEnabled (mkListener ∅ true []) = true
  /\ is_Some (m_finder (deviceConnected (mkListener ∅ true []) 9) !! 9).
Proof.
  split; [reflexivity|].
  exact (proj1 (proj2 (@deviceConnected_inserts_once iokit (mkListener ∅ true []) 9)) eq_refl).
Defined.

End HIDExamples.

(** ** MIDI device names and lookups *)

Section LookupFacts.
Import Audio AQS.

Lemma hex_digit_inj (a b : N) :
  a < 16 -> b < 16 -> hex_digit a = hex_digit b -> a = b.
Proof.
  intros Ha Hb.
  destruct a as [|p]; [|do 4 (try (destruct p as [p|p|]); try lia)];
    (destruct b as [|q]; [|do 4 (try (destruct q as [q|q|]); try lia)]);
    intros H; try reflexivity; discriminate H.
Qed.

Lemma nibble_spec (u k : N) :
  N.land (N.shiftr u (4 * k)) 15 = (u / 2 ^ (4 * k)) mod 16.
Proof.
  rewrite N.shiftr_div_pow2. change 15 with (N.ones 4). rewrite N.land_ones. reflexivity.
Qed.

Lemma nibble_lt (u k : N) : N.land (N.shiftr u (4 * k)) 15 < 16.
Proof. rewrite nibble_spec. apply N.mod_lt. lia. Qed.

Lemma hex_digit_upper (n : N) :
  n < 16 -> In (hex_digit n) (list_ascii_of_string "0123456789ABCDEF").
Proof.
  intros H. destruct n as [|p]; [|do 4 (try (destruct p as [p|p|]); try lia)];
    cbn; tauto.
Qed.

Lemma div16_step (u v k : N) :
  (u / 2 ^ (4 * k)) mod 16 = (v / 2 ^ (4 * k)) mod 16 ->
  u / 2 ^ (4 * (k + 1)) = v / 2 ^ (4 * (k + 1)) ->
  u / 2 ^ (4 * k) = v / 2 ^ (4 * k).
Proof.
  intros Hm Hd.
  replace (2 ^ (4 * (k + 1))) with (2 ^ (4 * k) * 16) in Hd
    by (rewrite N.mul_add_distr_l, N.pow_add_r; reflexivity).
  assert (2 ^ (4 * k) <> 0) as Hp by (apply N.pow_nonzero; lia).
  rewrite <- !N.Div0.div_div in Hd.
  rewrite (N.div_mod (u / 2 ^ (4 * k)) 16), (N.div_mod (v / 2 ^ (4 * k)) 16) by lia.
  rewrite Hm, Hd. reflexivity.
Qed.

Lemma nibbles_inj (u v : N) :
  u < 2 ^ 32 -> v < 2 ^ 32 ->
  (forall k, In k [7; 6; 5; 4; 3; 2; 1; 0] -> (u / 2 ^ (4 * k)) mod 16 = (v / 2 ^ (4 * k)) mod 16) ->
  u = v.
Proof.
  intros Hu Hv H.
  assert (u / 2 ^ (4 * 8) = v / 2 ^ (4 * 8)) as H8.
  { change (4 * 8) with 32. rewrite !N.div_small by assumption. reflexivity. }
  pose proof (div16_step u v 7 (H 7 ltac:(cbn; tauto)) H8) as H7.
  pose proof (div16_step u v 6 (H 6 ltac:(cbn; tauto)) H7) as H6.
  pose proof (div16_step u v 5 (H 5 ltac:(cbn; tauto)) H6) as H5.
  pose proof (div16_step u v 4 (H 4 ltac:(cbn; tauto)) H5) as H4.
  pose proof (div16_step u v 3 (H 3 ltac:(cbn; tauto)) H4) as H3.
  pose proof (div16_step u v 2 (H 2 ltac:(cbn; tauto)) H3) as H2.
  pose proof (div16_step u v 1 (H 1 ltac:(cbn; tauto)) H2) as H1.
  pose proof (div16_step u v 0 (H 0 ltac:(cbn; tauto)) H1) as H0.
  change (2 ^ (4 * 0)) with 1 in H0. rewrite !N.div_1_r in H0. exact H0.
Qed.

Lemma hex8_length (idNum : Z) : String.length (hex8 idNum) = 8%nat.
Proof. reflexivity. Qed.


Lemma hex8_nibbles (idNum : Z) :
  list_ascii_of_string (hex8 idNum)
  = map (fun k => hex_digit (N.land (N.shiftr (Z.to_N (idNum mod 2 ^ 32)) (4 * k)) 15))
      [7; 6; 5; 4; 3; 2; 1; 0].
Proof. unfold hex8. apply list_ascii_of_string_of_list_ascii. Qed.

Lemma hex8_inj (a b : Z) : hex8 a = hex8 b -> (a mod 2 ^ 32 = b mod 2 ^ 32)%Z.
Proof.
  intros H. apply (f_equal list_ascii_of_string) in H. rewrite !hex8_nibbles in H.
  assert (Z.to_N (a mod 2 ^ 32) = Z.to_N (b mod 2 ^ 32)) as Hu.
  { apply nibbles_inj.
    - pose proof (Z.mod_pos_bound a (2 ^ 32) ltac:(lia)). lia.
    - pose proof (Z.mod_pos_bound b (2 ^ 32) ltac:(lia)). lia.
    - intros k Hk. rewrite <- !nibble_spec. apply hex_digit_inj; try apply nibble_lt.
      exact (proj1 map_ext_in_iff H k Hk). }
  pose proof (Z.mod_pos_bound a (2 ^ 32) ltac:(lia)).
  pose proof (Z.mod_pos_bound b (2 ^ 32) ltac:(lia)). lia.
Qed.

Lemma hex8_mod (a : Z) : hex8 (a mod 2 ^ 32) = hex8 a.
Proof. unfold hex8. rewrite Z.mod_mod by lia. reflexivity. Qed.

(** X1.  The name of a MIDI device is its unique id printed with [%08X]: always
    eight characters, each a decimal digit or an upper-case letter A to F, and
    two ids get the same name exactly when they have the same 32-bit pattern. *)
Theorem hex8_eight_upper_hex_digits_one_name_per_id :
  forall a b : Z,
    String.length (hex8 a) = 8%nat
    /\ Forall (fun c => In c (list_ascii_of_string "0123456789ABCDEF"))
         (list_ascii_of_string (hex8 a))
    /\ (hex8 a = hex8 b <-> (a mod 2 ^ 32 = b mod 2 ^ 32)%Z).
Proof.
  intros a b. split; [apply hex8_length|]. split.
  - rewrite hex8_nibbles. apply List.Forall_forall. intros c Hc.
    apply in_map_iff in Hc as (k & <- & _). apply hex_digit_upper, nibble_lt.
  - split; [apply hex8_inj|]. intros H. rewrite <- (hex8_mod a), <- (hex8_mod b), H.
    reflexivity.
Qed.

Lemma LookupMIDIDevice_cons (dev : MIDIDevice) (rest : list MIDIDevice) (name : string) :
  (device_matches name dev /\ LookupMIDIDevice (dev :: rest) name = Some dev)
  \/ (~ device_matches name dev
      /\ LookupMIDIDevice (dev :: rest) name = LookupMIDIDevice rest name).
Proof.
  cbn [LookupMIDIDevice]. unfold device_matches.
  destruct (nonnull (dev_ref dev)) eqn:Eref; cbn [negb].
  - apply nonnull_true in Eref. destruct (dev_uniqueID dev) as [idNum|] eqn:Eid.
    + destruct (String.eqb_spec (hex8 idNum) name) as [Heq|Hne]; cbn [negb].
      * left. split; [|reflexivity]. split; [exact Eref|]. exists idNum. split; [reflexivity|exact Heq].
      * right. split; [|reflexivity]. intros (_ & id' & Hid & Hname). congruence.
    + right. split; [|reflexivity]. intros (_ & id' & Hid & _). discriminate Hid.
  - apply nonnull_false in Eref. right. split; [|reflexivity]. intros (Hr & _). contradiction.
Qed.

Lemma LookupMIDIDevice_spec (devs : list MIDIDevice) (name : string) :
  match LookupMIDIDevice devs name with
  | Some d =>
      exists before after,
        devs = before ++ d :: after
        /\ Forall (fun x => ~ device_matches name x) before
        /\ device_matches name d
  | None => Forall (fun x => ~ device_matches name x) devs
  end.
Proof.
  induction devs as [|dev rest IH]; [constructor|].
  destruct (LookupMIDIDevice_cons dev rest name) as [[Hm ->]|[Hn ->]].
  - exists [], rest. split; [reflexivity|]. split; [constructor|exact Hm].
  - destruct (LookupMIDIDevice rest name) as [d|].
    + destruct IH as (before & after & -> & Hb & Hd).
      exists (dev :: before), after. split; [reflexivity|]. split; [|exact Hd].
      constructor; assumption.
    + constructor; assumption.
Qed.

(** X2.  [LookupMIDIDevice] returns the first listed device whose reference is
    not null and whose unique id reads and prints to the name asked for, and
    null exactly when no listed device does.  A name that is not eight
    characters long is never found.  The name printed from the id of any listed
    device with a reference and an id is found, and the device found has the
    same 32-bit id. *)
Theorem LookupMIDIDevice_first_match_round_trip :
  forall (devs : list MIDIDevice) (name : string),
    match LookupMIDIDevice devs name with
    | Some d =>
        exists before after,
          devs = before ++ d :: after
          /\ Forall (fun x => ~ device_matches name x) before
          /\ device_matches name d
    | None => Forall (fun x => ~ device_matches name x) devs
    end
    /\ (String.length name <> 8%nat -> LookupMIDIDevice devs name = None)
    /\ (forall d idNum,
          In d devs -> dev_ref d <> 0 -> dev_uniqueID d = Some idNum ->
          exists d' idNum',
            LookupMIDIDevice devs (hex8 idNum) = Some d'
            /\ dev_uniqueID d' = Some idNum'
            /\ (idNum' mod 2 ^ 32 = idNum mod 2 ^ 32)%Z).
Proof.
  intros devs name. split; [apply LookupMIDIDevice_spec|]. split.
  - intros Hlen. pose proof (LookupMIDIDevice_spec devs name) as H.
    destruct (LookupMIDIDevice devs name) as [d|]; [|reflexivity].
    destruct H as (_ & _ & _ & _ & _ & idNum & _ & <-). exfalso. apply Hlen, hex8_length.
  - intros d idNum Hin Href Hid.
    pose proof (LookupMIDIDevice_spec devs (hex8 idNum)) as H.
    destruct (LookupMIDIDevice devs (hex8 idNum)) as [d'|].
    + destruct H as (_ & _ & _ & _ & _ & idNum' & Hid' & Hname).
      exists d', idNum'. split; [reflexivity|]. split; [exact Hid'|]. apply hex8_inj, Hname.
    + exfalso. rewrite List.Forall_forall in H. apply (H d Hin).
      split; [exact Href|]. exists idNum. split; [exact Hid|reflexivity].
Qed.

Lemma first_endpoint_spec (endpoints : MIDIEntity -> list N) (entities : list MIDIEntity) :
  let r := first_endpoint endpoints entities in
  (r <> 0 -> exists ent, In ent entities /\ ent_ref ent <> 0 /\ In r (endpoints ent))
  /\ (r = 0 -> forall ent e, In ent entities -> ent_ref ent <> 0 -> In e (endpoints ent) -> e = 0).
Proof.
  induction entities as [|ent rest IH]; cbn zeta.
  - split; [intros H; contradiction|]. intros _ ent e [].
  - cbn [first_endpoint].
    destruct (nonnull (ent_ref ent)) eqn:Eref.
    + apply nonnull_true in Eref.
      destruct (find nonnull (endpoints ent)) as [e0|] eqn:Efind.
      * apply find_some in Efind as [Hin Hnn]. apply nonnull_true in Hnn.
        split.
        -- intros _. exists ent. split; [left; reflexivity|]. split; assumption.
        -- intros H0. contradiction.
      * destruct IH as [IH1 IH2]. split.
        -- intros Hr. destruct (IH1 Hr) as (ent' & Hin & Href & He).
           exists ent'. split; [right; exact Hin|]. split; assumption.
        -- intros Hr ent' e [<-|Hin] Href He.
           ++ pose proof (find_none _ _ Efind e He) as Hn. apply nonnull_false in Hn. exact Hn.
           ++ eapply IH2; eassumption.
    + apply nonnull_false in Eref. destruct IH as [IH1 IH2]. split.
      * intros Hr. destruct (IH1 Hr) as (ent' & Hin & Href & He).
        exists ent'. split; [right; exact Hin|]. split; assumption.
      * intros Hr ent' e [<-|Hin] Href He; [contradiction|]. eapply IH2; eassumption.
Qed.

Lemma first_endpoint_of (endpoints : MIDIEntity -> list N) (dev : MIDIDevice) :
  let r := first_endpoint endpoints (dev_entities dev) in
  (r <> 0 -> endpoint_of endpoints dev r)
  /\ (r = 0 -> forall e, ~ endpoint_of endpoints dev e).
Proof.
  cbn zeta. destruct (first_endpoint_spec endpoints (dev_entities dev)) as [H1 H2]. split.
  - intros Hr. split; [exact Hr|]. apply H1, Hr.
  - intros Hr e (Hne & ent & Hin & Href & He). apply Hne. eapply H2; eassumption.
Qed.

(** X3.  [LookupMIDISource] and [LookupMIDIDest] look only at the device
    [LookupMIDIDevice] finds.  With no device they return null.  Otherwise a
    non-null result is a non-null source (destination) listed by an entity of
    that device whose reference is not null, and the result is null exactly when
    the device has no such source (destination). *)
Theorem LookupMIDI_endpoint_of_found_device :
  forall (devs : list MIDIDevice) (name : string),
    match LookupMIDIDevice devs name with
    | None => LookupMIDISource devs name = 0 /\ LookupMIDIDest devs name = 0
    | Some d =>
        (LookupMIDISource devs name <> 0 -> endpoint_of ent_sources d (LookupMIDISource devs name))
        /\ (LookupMIDISource devs name = 0 <-> forall e, ~ endpoint_of ent_sources d e)
        /\ (LookupMIDIDest devs name <> 0 ->
            endpoint_of ent_destinations d (LookupMIDIDest devs name))
        /\ (LookupMIDIDest devs name = 0 <-> forall e, ~ endpoint_of ent_destinations d e)
    end.
Proof.
  intros devs name. unfold LookupMIDISource, LookupMIDIDest.
  destruct (LookupMIDIDevice devs name) as [d|]; [|split; reflexivity].
  destruct (first_endpoint_of ent_sources d) as [S1 S2].
  destruct (first_endpoint_of ent_destinations d) as [D1 D2].
  split; [exact S1|]. split.
  - split; [exact S2|]. intros H.
    destruct (N.eq_dec (first_endpoint ent_sources (dev_entities d)) 0) as [E|E]; [exact E|].
    exfalso. exact (H _ (S1 E)).
  - split; [exact D1|]. split; [exact D2|]. intros H.
    destruct (N.eq_dec (first_endpoint ent_destinations (dev_entities d)) 0) as [E|E]; [exact E|].
    exfalso. exact (H _ (D1 E)).
Qed.

End LookupFacts.

(** ** Swap chains; listing MIDI devices *)

Section SwapChainFacts.
Import Vulkan.

(** X17.  [SwapChain::destroy] always leaves the chain without buffers, with
    a null handle and back buffer 0, and keeps the format.  It calls
    [vk::DestroySwapchainKHR] once, on the handle held, exactly when that
    handle is not null, and is idempotent: destroying again, on any device,
    makes no call and changes nothing. *)
Theorem SwapChain_destroy_idempotent :
  forall (dev dev' : N) (sc : SwapChain) (log : list VkCall),
    let r := destroy dev sc log in
    r.1 = mkSwapChain (m_format sc) VK_NULL_HANDLE [] 0
    /\ r.2 = log ++ (if nonnull (m_swapChain sc)
                     then [DestroySwapchainKHR dev (m_swapChain sc)] else [])
    /\ destroy dev' r.1 r.2 = r.
Proof.
  intros dev dev' [fmt h bufs back] log. cbn zeta. unfold destroy.
  cbn [m_format m_swapChain m_bufs m_backBuf].
  destruct (nonnull h) eqn:E; cbn [fst snd m_format m_swapChain m_bufs m_backBuf].
  - split; [reflexivity|]. split; reflexivity.
  - apply nonnull_false in E. unfold nullptr, VK_NULL_HANDLE in *. subst h.
    split; [reflexivity|]. split; [symmetry; apply app_nil_r|reflexivity].
Qed.

End SwapChainFacts.

Section EnumerateFacts.
Import Audio AQS.

Lemma list_omap_cons' {X Y} (f : X -> option Y) (x : X) (l : list X) :
  omap f (x :: l) = match f x with Some y => y :: omap f l | None => omap f l end.
Proof. reflexivity. Qed.

Lemma In_omap {X Y} (f : X -> option Y) (l : list X) (y : Y) :
  In y (omap f l) <-> exists x, In x l /\ f x = Some y.
Proof.
  induction l as [|x l IH]; [cbn; split; [intros []|intros (? & [] & _)]|].
  rewrite list_omap_cons'. destruct (f x) as [y'|] eqn:E; cbn [In]; rewrite ?IH.
  - split.
    + intros [<-|(x' & Hin & Hf)]; [exists x; split; [left; reflexivity|exact E]|].
      exists x'. split; [right; exact Hin|exact Hf].
    + intros (x' & [<-|Hin] & Hf); [left; congruence|]. right. exists x'. split; assumption.
  - split.
    + intros (x' & Hin & Hf). exists x'. split; [right; exact Hin|exact Hf].
    + intros (x' & [<-|Hin] & Hf); [congruence|]. exists x'. split; assumption.
Qed.

Lemma length_omap_le {X Y} (f : X -> option Y) (l : list X) :
  (length (omap f l) <= length l)%nat.
Proof.
  induction l as [|x l IH]; [reflexivity|]. rewrite list_omap_cons'.
  destruct (f x); cbn [length]; lia.
Qed.


(** X18.  [enumerateMIDIDevices] lists nothing without a MIDI client.  With
    one, it lists exactly the devices whose reference is not null, whose unique
    id reads and whose name reads as a C string, each as the pair of the id
    printed in eight hexadecimal digits and the name, last device first.
    Every id it lists can be given back to [LookupMIDIDevice]: the lookup finds
    a device, and that device has the same 32-bit id. *)
Theorem enumerateMIDIDevices_lists_what_lookup_finds :
  forall (client : N) (devices : list MIDIDevice) (name_of : N -> NameLookup),
    let listed := enumerateMIDIDevices client devices name_of in
    (client = 0 -> listed = [])
    /\ (length listed <= length devices)%nat
    /\ (client <> 0 ->
        forall idStr nameCstr,
          In (idStr, nameCstr) listed
          <-> exists dev idNum,
                In dev devices /\ dev_ref dev <> 0 /\ dev_uniqueID dev = Some idNum
                /\ name_of (dev_ref dev) = name_ok nameCstr /\ idStr = hex8 idNum)
    /\ (forall idStr nameCstr,
          In (idStr, nameCstr) listed ->
          exists dev idNum idNum',
            LookupMIDIDevice devices idStr = Some dev
            /\ dev_uniqueID dev = Some idNum /\ hex8 idNum' = idStr
            /\ (idNum mod 2 ^ 32 = idNum' mod 2 ^ 32)%Z).
Proof.
  intros client devices name_of. cbn zeta. unfold enumerateMIDIDevices.
  assert (forall idStr nameCstr,
            In (idStr, nameCstr)
              (omap (fun dev =>
                       if negb (nonnull (dev_ref dev)) then None
                       else match dev_uniqueID dev with
                            | None => None
                            | Some idNum =>
                                match name_of (dev_ref dev) with
                                | name_ok nameCstr => Some (hex8 idNum, nameCstr)
                                | _ => None
                                end
                            end) (reverse devices))
            <-> exists dev idNum,
                  In dev devices /\ dev_ref dev <> 0 /\ dev_uniqueID dev = Some idNum
                  /\ name_of (dev_ref dev) = name_ok nameCstr /\ idStr = hex8 idNum) as Hin.
  { intros idStr nameCstr. rewrite In_omap. split.
    - intros (dev & Hdev & Hf). apply list_elem_of_In in Hdev. rewrite elem_of_reverse in Hdev.
      apply list_elem_of_In in Hdev.
      destruct (nonnull (dev_ref dev)) eqn:Eref; [|discriminate Hf]. cbn [negb] in Hf.
      apply nonnull_true in Eref.
      destruct (dev_uniqueID dev) as [idNum|] eqn:Eid; [|discriminate Hf].
      destruct (name_of (dev_ref dev)) as [| |nm] eqn:Enm; try discriminate Hf.
      injection Hf as <- <-. exists dev, idNum.
      split; [exact Hdev|]. split; [exact Eref|]. split; [exact Eid|]. split; [exact Enm|reflexivity].
    - intros (dev & idNum & Hdev & Href & Hid & Hnm & ->). exists dev. split.
      + apply list_elem_of_In. rewrite elem_of_reverse. apply list_elem_of_In. exact Hdev.
      + apply nonnull_true in Href. rewrite Href, Hid, Hnm. reflexivity. }
  split; [intros ->; reflexivity|]. split; [|split].
  - destruct (negb (nonnull client)); [cbn; lia|].
    etransitivity; [apply length_omap_le|]. rewrite length_reverse. reflexivity.
  - intros Hc. apply nonnull_true in Hc. rewrite Hc. cbn [negb]. exact Hin.
  - intros idStr nameCstr. destruct (negb (nonnull client)); [intros []|].
    intros H. apply Hin in H as (dev & idNum & Hdev & Href & Hid & Hnm & ->).
    pose proof (LookupMIDIDevice_spec devices (hex8 idNum)) as Hl.
    destruct (LookupMIDIDevice devices (hex8 idNum)) as [d'|].
    + destruct Hl as (_ & _ & _ & _ & _ & idNum' & Hid' & Hname).
      exists d', idNum', idNum. split; [reflexivity|]. split; [exact Hid'|].
      split; [reflexivity|]. apply hex8_inj, Hname.
    + exfalso. rewrite List.Forall_forall in Hl. apply (Hl dev Hdev).
      split; [exact Href|]. exists idNum. split; [exact Hid|reflexivity].
Qed.

End EnumerateFacts.

(** ** References held by MIDI endpoints *)

Section ReferenceFacts.
Import Audio AQS.
Context {Base : Type} `{CA : CoreAudio Base}.

Ltac ref_norm :=
  cbn [fst snd negb m_midiClient set_midiInCounter set_midiOutCounter m_midiInCounter
       m_midiOutCounter in_virt in_midi in_midiPort out_virt out_midi out_midiPort
       io_virt io_midiIn io_midiPortIn io_midiOut io_midiPortOut] in *.

Ltac ref_cases :=
  ref_norm;
  repeat match goal with
  | |- context [nonnull ?x] =>
      let E := fresh "E" in destruct (nonnull x) eqn:E; ref_norm
  | |- context [let '(_, _) := ?x in _] =>
      let E := fresh "E" in destruct x as [? ?] eqn:E; ref_norm
  | |- context [negb (?x =? 0)%Z] =>
      destruct (Z.eqb_spec x 0); ref_norm
  end.

Lemma hands_back_nothing {T} (destructor : T -> list Event) (borrowed : list N)
    (e : AQSAudioVoiceEngine Base) (tr : list Event) :
  hands_back destructor borrowed tr (None, e, tr).
Proof.
  unfold hands_back. cbn [fst snd]. rewrite drop_all. split; [symmetry; apply app_nil_r|].
  reflexivity.
Qed.

Lemma hands_back_intro {T} (destructor : T -> list Event) (borrowed : list N)
    (e : AQSAudioVoiceEngine Base) (tr added : list Event) (x : option T) :
  match x with
  | None => disposed added = refs_written tr added
  | Some x =>
      disposed added = []
      /\ Permutation (disposed (destructor x)) (refs_written tr added ++ borrowed)
  end ->
  hands_back destructor borrowed tr (x, e, tr ++ added).
Proof.
  intros H. unfold hands_back. cbn [fst snd]. rewrite drop_app_length. split; [reflexivity|].
  exact H.
Qed.


Lemma disposed_app (l1 l2 : list Event) : disposed (l1 ++ l2) = disposed l1 ++ disposed l2.
Proof. apply flat_map_app. Qed.

Lemma refs_written_app (tr l1 l2 : list Event) :
  refs_written tr (l1 ++ l2) = refs_written tr l1 ++ refs_written (tr ++ l1) l2.
Proof.
  revert tr. induction l1 as [|ev l1 IH]; intros tr.
  - cbn [app refs_written]. rewrite app_nil_r. reflexivity.
  - cbn [app refs_written]. rewrite IH, <- !app_assoc. reflexivity.
Qed.

Lemma disposed_endpoint (r : N) : disposed (dispose_endpoint r) = written (0%Z, r).
Proof. unfold dispose_endpoint, written. cbn [snd]. destruct (nonnull r); reflexivity. Qed.

Lemma disposed_port (r : N) : disposed (dispose_port r) = written (0%Z, r).
Proof. unfold dispose_port, written. cbn [snd]. destruct (nonnull r); reflexivity. Qed.

Lemma refs_written_endpoint (tr : list Event) (r : N) : refs_written tr (dispose_endpoint r) = [].
Proof. unfold dispose_endpoint. destruct (nonnull r); reflexivity. Qed.

Lemma refs_written_port (tr : list Event) (r : N) : refs_written tr (dispose_port r) = [].
Proof. unfold dispose_port. destruct (nonnull r); reflexivity. Qed.

Lemma written_null (stat : Z) : written (stat, 0) = [].
Proof. reflexivity. Qed.

Lemma written_status (stat stat' : Z) (r : N) : written (stat, r) = written (stat', r).
Proof. reflexivity. Qed.

Ltac ref_finish :=
  first
  [ apply hands_back_nothing
  | rewrite <- ?app_assoc; apply hands_back_intro;
    unfold MIDIIn_destructor, MIDIOut_destructor, MIDIInOut_destructor; ref_norm;
    rewrite ?refs_written_app, ?disposed_app;
    rewrite ?refs_written_endpoint, ?refs_written_port, ?disposed_endpoint, ?disposed_port;
    cbn [app refs_written disposed flat_map];
    rewrite <- ?app_assoc in *; cbn [app] in *;
    repeat match goal with
           | E : ?f ?tr ?c ?n = (_, _) |- context [?f ?tr ?c ?n] => rewrite E
           end;
    rewrite ?written_null, ?app_nil_r; cbn [app];
    try reflexivity; try (split; [reflexivity|]);
    unfold written; cbn [snd];
    repeat match goal with
           | E : nonnull ?x = _ |- context [nonnull ?x] => rewrite E
           end;
    repeat match goal with
           | |- context [nonnull ?x] => destruct (nonnull x)
           end;
    cbn [app];
    first [ reflexivity | apply perm_swap | apply perm_skip, perm_swap
          | apply Permutation_cons_append ] ].

Lemma newVirtualMIDIIn_hands_back e tr :
  hands_back MIDIIn_destructor [] tr (newVirtualMIDIIn e tr).
Proof. unfold newVirtualMIDIIn. ref_cases; ref_finish. Qed.

Lemma newVirtualMIDIOut_hands_back e tr :
  hands_back MIDIOut_destructor [] tr (newVirtualMIDIOut e tr).
Proof. unfold newVirtualMIDIOut. ref_cases; ref_finish. Qed.

Lemma newVirtualMIDIInOut_hands_back e tr :
  hands_back MIDIInOut_destructor [] tr (newVirtualMIDIInOut e tr).
Proof. unfold newVirtualMIDIInOut. ref_cases; ref_finish. Qed.


Lemma newRealMIDIIn_hands_back name e tr :
  hands_back MIDIIn_destructor [] tr (newRealMIDIIn name e tr).
Proof. unfold newRealMIDIIn. ref_cases; ref_finish. Qed.

Lemma newRealMIDIOut_hands_back name e tr :
  hands_back MIDIOut_destructor [LookupMIDIDest (midi_devices tr) name] tr
    (newRealMIDIOut name e tr).
Proof. unfold newRealMIDIOut. ref_cases; ref_finish. Qed.

Lemma newRealMIDIInOut_hands_back name e tr :
  hands_back MIDIInOut_destructor [LookupMIDIDest (midi_devices tr) name] tr
    (newRealMIDIInOut name e tr).
Proof. unfold newRealMIDIInOut. ref_cases; ref_finish. Qed.

(** X4.  No MIDI endpoint constructor leaks a CoreMIDI reference.  When one
    returns null, every non-null reference CoreMIDI wrote during the call has
    been disposed of before the return, in the order written.  When it returns
    an object nothing has been disposed of, and the object's destructor
    disposes of exactly the references written; for a real output or
    input-output it also disposes of the destination endpoint looked up under
    the device, which the object keeps as [m_midi] ([m_midiOut]). *)
Theorem MIDI_constructors_hand_back_references :
  forall (e : AQSAudioVoiceEngine Base) (tr : list Event) (name : string),
    let dst := LookupMIDIDest (midi_devices tr) name in
    hands_back MIDIIn_destructor [] tr (newVirtualMIDIIn e tr)
    /\ hands_back MIDIOut_destructor [] tr (newVirtualMIDIOut e tr)
    /\ hands_back MIDIInOut_destructor [] tr (newVirtualMIDIInOut e tr)
    /\ hands_back MIDIIn_destructor [] tr (newRealMIDIIn name e tr)
    /\ hands_back MIDIOut_destructor [dst] tr (newRealMIDIOut name e tr)
    /\ hands_back MIDIInOut_destructor [dst] tr (newRealMIDIInOut name e tr).
Proof.
  intros e tr name dst.
  split; [apply newVirtualMIDIIn_hands_back|].
  split; [apply newVirtualMIDIOut_hands_back|].
  split; [apply newVirtualMIDIInOut_hands_back|].
  split; [apply newRealMIDIIn_hands_back|].
  split; [apply newRealMIDIOut_hands_back|].
  apply newRealMIDIInOut_hands_back.
Qed.

End ReferenceFacts.

(** ** The hardware callback on every path *)

Section CallbackPaths.
Import Audio AQS.
Context {Base : Type} `{CA : CoreAudio Base}.


End CallbackPaths.

(** ** The channel map *)

Section ChannelMapFacts.
Import Audio AQS.

Lemma vsize_app {X} (l1 l2 : list X) : vsize (l1 ++ l2) = vsize l1 + vsize l2.
Proof. unfold vsize. rewrite length_app. lia. Qed.

Lemma vsize_pad_unknown (chCount : N) (chMapOut : ChannelMap) :
  vsize (pad_unknown chCount chMapOut) = N.max chCount (vsize chMapOut).
Proof.
  unfold pad_unknown. rewrite vsize_app. unfold vsize at 2. rewrite length_replicate. lia.
Qed.

Lemma push_if_spec (bitmap bit : N) (ch : AudioChannel.t) (chMapOut : ChannelMap) :
  push_if bitmap bit ch chMapOut
  = chMapOut ++ (if negb (N.land bitmap bit =? 0) then [ch] else []).
Proof.
  unfold push_if, push. destruct (negb (N.land bitmap bit =? 0)); [reflexivity|].
  symmetry. apply app_nil_r.
Qed.

Lemma In_map_filter {X Y} (g : X -> Y) (f : X -> bool) (l : list X) (y : Y) :
  In y (map g (List.filter f l)) -> In y (map g l).
Proof.
  intros H. apply in_map_iff in H as (x & <- & Hx). apply filter_In in Hx as [Hx _].
  apply in_map, Hx.
Qed.

Lemma NoDup_map_filter {X Y} (g : X -> Y) (f : X -> bool) (l : list X) :
  NoDup (map g l) -> NoDup (map g (List.filter f l)).
Proof.
  induction l as [|x l IH]; [intros _; constructor|]. cbn [map List.filter]. intros H.
  apply NoDup_cons in H as [Hx Hl]. destruct (f x); [|exact (IH Hl)].
  cbn [map]. apply NoDup_cons. split; [|exact (IH Hl)].
  intros Hc. apply Hx. apply list_elem_of_In. apply list_elem_of_In in Hc.
  exact (In_map_filter g f l _ Hc).
Qed.

(** X19.  The channel map the constructor builds.  After the padding loop
    the map has as many channels as the larger of the hardware channel count
    and the number the layout gave: never fewer than the hardware count, and
    exactly that many whenever the layout gave no more.  From channel
    descriptions it is the labels mapped one by one, and no label maps to
    [SideLeft] (both left-surround labels give [RearLeft]).  From a bitmap on
    an empty map it lists, in the fixed order front left, front right, centre,
    LFE, rear left, rear right, side left, side right, exactly the channels
    whose bit is set, each once and none [Unknown].  The stereo, headphone,
    quadraphonic and pentagonal tags give 2, 2, 4 and 5 fixed channels; any
    other tag gives front left and front right and is reported. *)
Theorem channel_map_covers_hardware_channels :
  forall (layout : AudioChannelLayout) (chCount : N) (chMapOut : ChannelMap),
    let given := (channels_of_layout layout chMapOut).1 in
    let bits := [(kAudioChannelBit_Left, AudioChannel.FrontLeft);
                 (kAudioChannelBit_Right, AudioChannel.FrontRight);
                 (kAudioChannelBit_Center, AudioChannel.FrontCenter);
                 (kAudioChannelBit_LFEScreen, AudioChannel.LFE);
                 (kAudioChannelBit_LeftSurround, AudioChannel.RearLeft);
                 (kAudioChannelBit_RightSurround, AudioChannel.RearRight);
                 (kAudioChannelBit_LeftSurroundDirect, AudioChannel.SideLeft);
                 (kAudioChannelBit_RightSurroundDirect, AudioChannel.SideRight)] in
    vsize (pad_unknown chCount given) = N.max chCount (vsize given)
    /\ take (length given) (pad_unknown chCount given) = given
    /\ Forall (fun ch => ch = AudioChannel.Unknown)
         (drop (length given) (pad_unknown chCount given))
    /\ match mChannelLayoutTag layout with
       | kAudioChannelLayoutTag_UseChannelDescriptions =>
           given = map AQSChannelToBooChannel (mChannelDescriptions layout)
           /\ ~ In AudioChannel.SideLeft given
       | kAudioChannelLayoutTag_UseChannelBitmap =>
           given
           = chMapOut
             ++ map snd (List.filter (fun b => negb (N.land (mChannelBitmap layout) b.1 =? 0)) bits)
           /\ (chMapOut = [] -> NoDup given /\ ~ In AudioChannel.Unknown given)
       | kAudioChannelLayoutTag_Stereo | kAudioChannelLayoutTag_StereoHeadphones =>
           given = [AudioChannel.FrontLeft; AudioChannel.FrontRight]
       | kAudioChannelLayoutTag_Quadraphonic =>
           given = [AudioChannel.FrontLeft; AudioChannel.FrontRight; AudioChannel.RearLeft;
                    AudioChannel.RearRight]
       | kAudioChannelLayoutTag_Pentagonal =>
           given = [AudioChannel.FrontLeft; AudioChannel.FrontRight; AudioChannel.RearLeft;
                    AudioChannel.RearRight; AudioChannel.FrontCenter]
       | kAudioChannelLayoutTag_other tag =>
           given = [AudioChannel.FrontLeft; AudioChannel.FrontRight]
           /\ (channels_of_layout layout chMapOut).2 = Some tag
       end.
Proof.
  intros layout chCount chMapOut. cbn zeta.
  split; [apply vsize_pad_unknown|]. split; [|split].
  - unfold pad_unknown. rewrite take_app_length. reflexivity.
  - unfold pad_unknown. rewrite drop_app_length. apply Forall_replicate. reflexivity.
  - unfold channels_of_layout. destruct (mChannelLayoutTag layout); cbn [fst snd].
    + split; [reflexivity|]. intros H. apply in_map_iff in H as (l & Hl & _).
      destruct l; discriminate Hl.
    + split.
      * rewrite !push_if_spec, <- !app_assoc. f_equal.
        cbn [List.filter fst snd map].
        repeat match goal with
               | |- context [negb (N.land ?b ?k =? 0)] => destruct (negb (N.land b k =? 0))
               end; reflexivity.
      * intros ->. rewrite !push_if_spec, <- !app_assoc. cbn [app].
        match goal with
        | |- NoDup ?l /\ _ =>
            assert (l = map snd (List.filter (fun b : N * AudioChannel.t =>
                                                negb (N.land (mChannelBitmap layout) b.1 =? 0))
                                   [(kAudioChannelBit_Left, AudioChannel.FrontLeft);
                                    (kAudioChannelBit_Right, AudioChannel.FrontRight);
                                    (kAudioChannelBit_Center, AudioChannel.FrontCenter);
                                    (kAudioChannelBit_LFEScreen, AudioChannel.LFE);
                                    (kAudioChannelBit_LeftSurround, AudioChannel.RearLeft);
                                    (kAudioChannelBit_RightSurround, AudioChannel.RearRight);
                                    (kAudioChannelBit_LeftSurroundDirect, AudioChannel.SideLeft);
                                    (kAudioChannelBit_RightSurroundDirect, AudioChannel.SideRight)]))
              as ->
        end.
        { cbn [List.filter fst snd map].
          repeat match goal with
                 | |- context [negb (N.land ?b ?k =? 0)] => destruct (negb (N.land b k =? 0))
                 end; reflexivity. }
        split.
        -- apply NoDup_map_filter. cbn [map snd].
           repeat (apply NoDup_cons_2;
                   [rewrite ?not_elem_of_cons; repeat split; try discriminate;
                    apply not_elem_of_nil|]).
           apply NoDup_nil_2.
        -- intros H. apply In_map_filter in H. cbn in H. intuition discriminate.
    + reflexivity.
    + reflexivity.
    + reflexivity.
    + reflexivity.
    + split; reflexivity.
Qed.

End ChannelMapFacts.

(** ** Opening and closing the queue *)

Section SetupFacts.
Import Audio AQS.
Context {Base : Type} `{AT : AudioToolbox} `{CA : CoreAudio Base}.

(** X20.  [_getAvailableSet] probes the hardware with a queue of its own and
    disposes of that queue exactly once if it was created, on the failure path
    of the channel-count query too, and never otherwise.  It answers [Stereo],
    [Quad], [Surround51] or [Surround71] exactly when the queue was created,
    the channel-count query succeeded and the hardware has 2, 4, 6 or 8
    channels, in this order; in every other case, a mono device included, it
    answers [Unknown].  It logs an error exactly when one of the two calls
    failed. *)
Theorem getAvailableSet_probes_and_disposes :
  forall tr : list QCall,
    let r := _getAvailableSet tr in
    let added := drop (length tr) r.2 in
    let made := AudioQueueNewOutput tr 96000 8 fn_DummyCallback in
    let queue := default nullptr made.2 in
    let asked :=
      AudioQueueGetProperty_NumberChannels
        (tr ++ [call_AudioQueueNewOutput 96000 8 fn_DummyCallback]) queue in
    r.2 = tr ++ added
    /\ queues_disposed added = (if (made.1 =? 0)%Z then [queue] else [])
    /\ existsb is_Log_report added = negb ((made.1 =? 0)%Z && (asked.1 =? 0)%Z)
    /\ r.1 = (if (made.1 =? 0)%Z && (asked.1 =? 0)%Z
              then match asked.2 with
                   | 2 => AudioChannelSet.Stereo
                   | 4 => AudioChannelSet.Quad
                   | 6 => AudioChannelSet.Surround51
                   | 8 => AudioChannelSet.Surround71
                   | _ => AudioChannelSet.Unknown
                   end
              else AudioChannelSet.Unknown)
    /\ (r.1 <> AudioChannelSet.Unknown ->
        made.1 = 0%Z /\ asked.1 = 0%Z /\ In asked.2 [2; 4; 6; 8]).
Proof.
  intros tr. cbn zeta. unfold _getAvailableSet.
  destruct (AudioQueueNewOutput tr 96000 8 fn_DummyCallback) as [stat written] eqn:Emade.
  cbn [fst snd]. destruct (Z.eqb_spec stat 0) as [->|Hstat]; cbn [negb andb].
  - destruct (AudioQueueGetProperty_NumberChannels
                (tr ++ [call_AudioQueueNewOutput 96000 8 fn_DummyCallback])
                (default nullptr written)) as [stat2 hw] eqn:Easked.
    cbn [fst snd]. destruct (Z.eqb_spec stat2 0) as [->|Hstat2]; cbn [negb andb fst snd].
    + rewrite <- !app_assoc, drop_app_length. cbn [app].
      split; [reflexivity|]. split; [reflexivity|]. split; [reflexivity|].
      split; [reflexivity|]. intros Hset. split; [reflexivity|]. split; [reflexivity|].
      destruct hw as [|p]; [contradiction|].
      do 4 (try (destruct p as [p|p|]; try contradiction)); cbn; tauto.
    + rewrite <- !app_assoc, drop_app_length. cbn [app].
      split; [reflexivity|]. split; [reflexivity|]. split; [reflexivity|].
      split; [reflexivity|]. intros Hset. contradiction.
  - cbn [fst snd]. rewrite <- !app_assoc, drop_app_length. cbn [app].
    split; [reflexivity|]. split; [reflexivity|]. split; [reflexivity|].
    split; [reflexivity|]. intros Hset. contradiction.
Qed.



Lemma Forall_not_buffer_app (l1 l2 : list QCall) :
  Forall (fun c => is_buffer_call c = false) l1 ->
  Forall (fun c => is_buffer_call c = false) l2 ->
  Forall (fun c => is_buffer_call c = false) (l1 ++ l2).
Proof. intros H1 H2. apply Forall_app. split; assumption. Qed.













(** X22.  The destructor stops the callbacks before it disposes of the
    queue: it clears [m_cbRunning], wakes a callback that is waiting (only if
    [m_inCb]), disposes of [m_queue], and of the MIDI client if there is one,
    in this order, and changes nothing else.  A hardware callback that arrives
    on the engine afterwards returns at once, with the buffer untouched and
    nothing enqueued. *)
Theorem destructor_stops_callbacks_then_disposes :
  forall (this : Object Base) (tr : list QCall),
    let r := AQSAudioVoiceEngine_dtor this tr in
    let e := engine this in
    r.1 = set_engine (set_cbRunning false) this
    /\ r.2 = tr ++ (if m_inCb e then [call_notify_one_enter] else [])
                ++ [call_AudioQueueDispose (m_queue e) true]
                ++ (if nonnull (m_midiClient e) then [call_MIDIClientDispose (m_midiClient e)]
                    else [])
    /\ forall (inAQ : ptr) (inBuffer : AudioQueueBuffer) (cb_tr : list Event),
         Callback (engine r.1) inAQ inBuffer cb_tr = Some (engine r.1, inBuffer, cb_tr).
Proof.
  intros this tr. cbn zeta. unfold AQSAudioVoiceEngine_dtor.
  cbn [engine set_engine set_cbRunning m_inCb m_queue m_midiClient fst snd].
  split; [reflexivity|]. split.
  - destruct (m_inCb (engine this)), (nonnull (m_midiClient (engine this)));
      rewrite <- ?app_assoc; cbn [app]; rewrite ?app_nil_r; reflexivity.
  - intros inAQ inBuffer cb_tr. reflexivity.
Qed.


End SetupFacts.

(** ** The listener over time *)

Section ListenerMore.
Import HID.
Context `{IO : IOKit}.

Lemma make_token_handle (device : N) : tok_handle (make_token device) = device.
Proof. unfold make_token. destruct (IOHIDDeviceGetProperty device) as [[[? ?] ?] ?]. reflexivity. Qed.

Lemma has_token_spec (handle : N) (tokens : gmap N CDeviceToken) :
  _hasToken handle tokens = true <-> is_Some (tokens !! handle).
Proof. unfold _hasToken. apply bool_decide_eq_true. Qed.

Lemma fold_removals (blocks : list N) (l : CHIDListenerIOKit) :
  let l' := fold_left (deviceDisconnected true) blocks l in
  m_scanningEnabled l' = m_scanningEnabled l
  /\ m_runLoopBlocks l' = m_runLoopBlocks l
  /\ forall h, m_finder l' !! h = if bool_decide (h ∈ blocks) then None else m_finder l !! h.
Proof.
  revert l. induction blocks as [|d blocks IH]; intros l; cbn zeta.
  - cbn [fold_left]. split; [reflexivity|]. split; [reflexivity|]. intros h.
    rewrite bool_decide_eq_false_2 by apply not_elem_of_nil. reflexivity.
  - cbn [fold_left]. destruct (IH (deviceDisconnected true l d)) as (H1 & H2 & H3).
    split; [rewrite H1; reflexivity|]. split; [rewrite H2; reflexivity|].
    intros h. rewrite H3. cbn [deviceDisconnected negb m_finder]. unfold _removeToken.
    destruct (decide (h ∈ blocks)) as [Hin|Hin].
    + rewrite !bool_decide_eq_true_2; [reflexivity| |exact Hin]. right. exact Hin.
    + rewrite (bool_decide_eq_false_2 _ Hin).
      destruct (decide (h = d)) as [->|Hne].
      * rewrite lookup_delete_eq. rewrite bool_decide_eq_true_2 by left. reflexivity.
      * rewrite lookup_delete_ne by congruence.
        rewrite bool_decide_eq_false_2; [reflexivity|].
        intros Hc. apply elem_of_cons in Hc as [?|?]; contradiction.
Qed.

Lemma run_loop_tick_spec (l : CHIDListenerIOKit) :
  m_scanningEnabled (run_loop_tick l) = m_scanningEnabled l
  /\ m_runLoopBlocks (run_loop_tick l) = []
  /\ forall h, m_finder (run_loop_tick l) !! h
               = if bool_decide (h ∈ m_runLoopBlocks l) then None else m_finder l !! h.
Proof.
  unfold run_loop_tick.
  destruct (fold_removals (m_runLoopBlocks l)
              (mkListener (m_finder l) (m_scanningEnabled l) [])) as (H1 & H2 & H3).
  split; [exact H1|]. split; [exact H2|]. exact H3.
Qed.

(** X6.  A removal delivered on the listener's thread takes the token of that
    handle out of the finder at once, whether scanning is enabled or not, and
    touches no other handle.  Delivered on another thread it changes nothing
    yet: it is queued on the listener's run loop.  The next turn of the loop
    empties the queue, and afterwards the finder holds no token for any handle
    that was queued, also not for one connected again in between; the other
    handles are as they were. *)
Theorem deviceDisconnected_now_or_at_next_tick :
  forall (listener : CHIDListenerIOKit) (device : N),
    (let l' := deviceDisconnected true listener device in
     m_finder l' !! device = None
     /\ (forall h, h <> device -> m_finder l' !! h = m_finder listener !! h)
     /\ m_scanningEnabled l' = m_scanningEnabled listener
     /\ m_runLoopBlocks l' = m_runLoopBlocks listener)
    /\ (let l' := deviceDisconnected false listener device in
        m_finder l' = m_finder listener
        /\ m_scanningEnabled l' = m_scanningEnabled listener
        /\ m_runLoopBlocks l' = m_runLoopBlocks listener ++ [device])
    /\ (let l' := run_loop_tick listener in
        m_runLoopBlocks l' = []
        /\ m_scanningEnabled l' = m_scanningEnabled listener
        /\ (forall h, h ∈ m_runLoopBlocks listener -> m_finder l' !! h = None)
        /\ (forall h, h ∉ m_runLoopBlocks listener -> m_finder l' !! h = m_finder listener !! h)).
Proof.
  intros listener device. split; [|split].
  - cbn zeta. cbn [deviceDisconnected negb m_finder m_scanningEnabled m_runLoopBlocks].
    unfold _removeToken. split; [apply lookup_delete_eq|].
    split; [intros h Hne; apply lookup_delete_ne; congruence|]. split; reflexivity.
  - cbn zeta. cbn [deviceDisconnected negb m_finder m_scanningEnabled m_runLoopBlocks].
    split; [reflexivity|]. split; reflexivity.
  - cbn zeta. destruct (run_loop_tick_spec listener) as (H1 & H2 & H3).
    split; [exact H2|]. split; [exact H1|]. split.
    + intros h Hin. rewrite H3, bool_decide_eq_true_2 by exact Hin. reflexivity.
    + intros h Hin. rewrite H3, bool_decide_eq_false_2 by exact Hin. reflexivity.
Qed.

Lemma applyDevice_spec (device : N) (l : CHIDListenerIOKit) :
  m_scanningEnabled (applyDevice device l) = m_scanningEnabled l
  /\ m_runLoopBlocks (applyDevice device l) = m_runLoopBlocks l
  /\ forall h, m_finder (applyDevice device l) !! h
               = match m_finder l !! h with
                 | Some tok => Some tok
                 | None => if decide (h = device) then Some (make_token device) else None
                 end.
Proof.
  unfold applyDevice. destruct (_hasToken device (m_finder l)) eqn:Ehas.
  - split; [reflexivity|]. split; [reflexivity|]. intros h.
    apply has_token_spec in Ehas as [tok Htok].
    destruct (m_finder l !! h) eqn:Eh; [reflexivity|].
    destruct (decide (h = device)) as [->|]; [congruence|reflexivity].
  - cbn [m_scanningEnabled m_runLoopBlocks m_finder]. split; [reflexivity|]. split; [reflexivity|].
    intros h. unfold _insertToken. rewrite make_token_handle.
    assert (m_finder l !! device = None) as Hnone.
    { destruct (m_finder l !! device) eqn:E; [|reflexivity].
      assert (_hasToken device (m_finder l) = true) by (apply has_token_spec; rewrite E; eauto).
      congruence. }
    destruct (decide (h = device)) as [->|Hne].
    + rewrite lookup_insert_eq, Hnone. reflexivity.
    + rewrite lookup_insert_ne by congruence. destruct (m_finder l !! h); reflexivity.
Qed.

Lemma fold_applyDevice (devs : list N) (l : CHIDListenerIOKit) :
  let l' := fold_left (fun l d => applyDevice d l) devs l in
  m_scanningEnabled l' = m_scanningEnabled l
  /\ m_runLoopBlocks l' = m_runLoopBlocks l
  /\ forall h, m_finder l' !! h
               = match m_finder l !! h with
                 | Some tok => Some tok
                 | None => if bool_decide (h ∈ devs) then Some (make_token h) else None
                 end.
Proof.
  revert l. induction devs as [|d devs IH]; intros l; cbn zeta.
  - cbn [fold_left]. split; [reflexivity|]. split; [reflexivity|]. intros h.
    rewrite bool_decide_eq_false_2 by apply not_elem_of_nil. destruct (m_finder l !! h); reflexivity.
  - cbn [fold_left]. destruct (IH (applyDevice d l)) as (H1 & H2 & H3).
    destruct (applyDevice_spec d l) as (A1 & A2 & A3).
    split; [rewrite H1; exact A1|]. split; [rewrite H2; exact A2|].
    intros h. rewrite H3, A3. destruct (m_finder l !! h) as [tok|]; [reflexivity|].
    destruct (decide (h = d)) as [->|Hne].
    + rewrite bool_decide_eq_true_2 by left. reflexivity.
    + destruct (decide (h ∈ devs)) as [Hin|Hin].
      * rewrite !bool_decide_eq_true_2; [reflexivity| |exact Hin]. right. exact Hin.
      * rewrite !bool_decide_eq_false_2; [reflexivity| |exact Hin].
        intros Hc. apply elem_of_cons in Hc as [?|?]; contradiction.
Qed.

(** X7.  A manual scan does not ask whether scanning is enabled.  It returns
    true; afterwards every device the HID manager listed has a token; a handle
    that already had a token keeps that very token (its properties are not read
    again); a listed handle without one gets the token built from its
    properties; handles not listed are untouched, and so are the scanning flag
    and the queued removals. *)
Theorem scanNow_adds_missing_tokens_for_all_listed :
  forall (devs : list N) (listener : CHIDListenerIOKit),
    let r := scanNow devs listener in
    r.1 = true
    /\ m_scanningEnabled r.2 = m_scanningEnabled listener
    /\ m_runLoopBlocks r.2 = m_runLoopBlocks listener
    /\ (forall d, d ∈ devs -> is_Some (m_finder r.2 !! d))
    /\ (forall h tok, m_finder listener !! h = Some tok -> m_finder r.2 !! h = Some tok)
    /\ (forall d, d ∈ devs -> m_finder listener !! d = None ->
          m_finder r.2 !! d = Some (make_token d))
    /\ (forall h, h ∉ devs -> m_finder r.2 !! h = m_finder listener !! h).
Proof.
  intros devs listener. cbn zeta. unfold scanNow. cbn [fst snd].
  destruct (fold_applyDevice devs listener) as (H1 & H2 & H3).
  split; [reflexivity|]. split; [exact H1|]. split; [exact H2|]. split; [|split; [|split]].
  - intros d Hin. rewrite H3. destruct (m_finder listener !! d); [eauto|].
    rewrite bool_decide_eq_true_2 by exact Hin. eauto.
  - intros h tok Htok. rewrite H3, Htok. reflexivity.
  - intros d Hin Hnone. rewrite H3, Hnone, bool_decide_eq_true_2 by exact Hin. reflexivity.
  - intros h Hin. rewrite H3. destruct (m_finder listener !! h); [reflexivity|].
    rewrite bool_decide_eq_false_2 by exact Hin. reflexivity.
Qed.


Lemma deviceConnected_spec (l : CHIDListenerIOKit) (device : N) :
  m_scanningEnabled (deviceConnected l device) = m_scanningEnabled l
  /\ m_runLoopBlocks (deviceConnected l device) = m_runLoopBlocks l
  /\ forall h, m_finder (deviceConnected l device) !! h
               = match m_finder l !! h with
                 | Some tok => Some tok
                 | None => if m_scanningEnabled l && bool_decide (h = device)
                           then Some (make_token device) else None
                 end.
Proof.
  assert (deviceConnected l device
          = if negb (m_scanningEnabled l) then l else applyDevice device l) as -> by reflexivity.
  destruct (m_scanningEnabled l) eqn:Escan; cbn [negb andb].
  -     destruct (applyDevice_spec device l) as (A1 & A2 & A3).
    split; [rewrite A1; exact Escan|]. split; [exact A2|]. intros h. rewrite A3.
    destruct (m_finder l !! h); [reflexivity|].
    destruct (decide (h = device)) as [->|Hne].
    + rewrite bool_decide_eq_true_2 by reflexivity. reflexivity.
    + rewrite bool_decide_eq_false_2 by exact Hne. reflexivity.
  - split; [exact Escan|]. split; [reflexivity|]. intros h.
    destruct (m_finder l !! h); reflexivity.
Qed.

Lemma handle_shrinks (ev : ListenerEvent) (l : CHIDListenerIOKit) :
  m_scanningEnabled l = false -> opens_scanning ev = false ->
  m_scanningEnabled (handle l ev) = false
  /\ forall h tok, m_finder (handle l ev) !! h = Some tok -> m_finder l !! h = Some tok.
Proof.
  intros Hscan Hev. destruct ev as [d|t d| | | |devs]; try discriminate Hev; cbn [handle].
  - destruct (deviceConnected_spec l d) as (H1 & _ & H3). split; [congruence|].
    intros h tok. rewrite H3, Hscan. cbn [andb]. destruct (m_finder l !! h); [tauto|discriminate].
  - destruct t; cbn [deviceDisconnected negb m_scanningEnabled m_finder].
    + split; [exact Hscan|]. intros h tok. unfold _removeToken. intros H.
      apply lookup_delete_Some in H as [_ H]. exact H.
    + split; [exact Hscan|]. tauto.
  - destruct (run_loop_tick_spec l) as (H1 & _ & H3). split; [congruence|].
    intros h tok. rewrite H3. destruct (bool_decide (h ∈ m_runLoopBlocks l)); [discriminate|tauto].
  - cbn [stopScanning snd m_scanningEnabled m_finder]. split; [reflexivity|]. tauto.
Qed.

(** X8.  While scanning is disabled the finder can only lose tokens: after any
    sequence of connects, disconnects on either thread, run-loop turns and
    [stopScanning] calls, with no [startScanning] and no manual scan among
    them, scanning is still disabled and every token in the finder is one that
    was there before, under the same handle. *)
Theorem scanning_disabled_finder_only_shrinks :
  forall (evs : list ListenerEvent) (listener : CHIDListenerIOKit),
    m_scanningEnabled listener = false ->
    Forall (fun ev => opens_scanning ev = false) evs ->
    m_scanningEnabled (handle_all evs listener) = false
    /\ forall h tok,
         m_finder (handle_all evs listener) !! h = Some tok ->
         m_finder listener !! h = Some tok.
Proof.
  unfold handle_all. induction evs as [|ev evs IH]; intros l Hscan Hevs.
  - split; [exact Hscan|]. tauto.
  - apply Forall_cons in Hevs as [Hev Hevs]. cbn [fold_left].
    destruct (handle_shrinks ev l Hscan Hev) as [H1 H2].
    destruct (IH (handle l ev) H1 Hevs) as [H3 H4].
    split; [exact H3|]. intros h tok H. apply H2, H4, H.
Qed.

Lemma handle_keyed (ev : ListenerEvent) (l : CHIDListenerIOKit) :
  finder_keyed (m_finder l) -> finder_keyed (m_finder (handle l ev)).
Proof.
  intros Hk. destruct ev as [d|t d| | | |devs]; cbn [handle].
  - destruct (deviceConnected_spec l d) as (_ & _ & H3). intros h tok. rewrite H3.
    destruct (m_finder l !! h) as [tok'|] eqn:E.
    + intros [= <-]. apply Hk, E.
    + destruct (m_scanningEnabled l && bool_decide (h = d)) eqn:Eb; [|discriminate].
      apply andb_true_iff in Eb as [_ Eb]. apply bool_decide_eq_true in Eb. subst h.
      intros [= <-]. apply make_token_handle.
  - destruct t; cbn [deviceDisconnected negb m_finder]; [|exact Hk].
    intros h tok H. unfold _removeToken in H. apply lookup_delete_Some in H as [_ H].
    apply Hk, H.
  - destruct (run_loop_tick_spec l) as (_ & _ & H3). intros h tok. rewrite H3.
    destruct (bool_decide (h ∈ m_runLoopBlocks l)); [discriminate|]. apply Hk.
  - exact Hk.
  - exact Hk.
  - cbn [scanNow snd]. destruct (fold_applyDevice devs l) as (_ & _ & H3).
    intros h tok. rewrite H3. destruct (m_finder l !! h) as [tok'|] eqn:E.
    + intros [= <-]. apply Hk, E.
    + destruct (bool_decide (h ∈ devs)); [|discriminate]. intros [= <-]. apply make_token_handle.
Qed.

Lemma pending_fold (pending : list Pending) (l : CHIDListenerIOKit) :
  let step := fun l p => match p with
                         | matched d => deviceConnected l d
                         | removed d => deviceDisconnected true l d
                         end in
  let l' := fold_left step pending l in
  m_scanningEnabled l' = m_scanningEnabled l
  /\ m_runLoopBlocks l' = m_runLoopBlocks l
  /\ (forall d, is_Some (m_finder l !! d) \/ (m_scanningEnabled l = true /\ matched d ∈ pending) ->
        removed d ∉ pending -> is_Some (m_finder l' !! d))
  /\ (finder_keyed (m_finder l) -> finder_keyed (m_finder l')).
Proof.
  cbn zeta. revert l. induction pending as [|p pending IH]; intros l.
  - cbn [fold_left]. split; [reflexivity|]. split; [reflexivity|]. split; [|tauto].
    intros d [H|[_ H]] _; [exact H|]. apply elem_of_nil in H. contradiction.
  - cbn [fold_left]. destruct p as [d0|d0].
    + destruct (IH (deviceConnected l d0)) as (H1 & H2 & H3 & H4).
      destruct (deviceConnected_spec l d0) as (C1 & C2 & C3).
      split; [congruence|]. split; [congruence|]. split.
      * intros d Hd Hnr. apply H3; [|intros Hc; apply Hnr; right; exact Hc].
        rewrite C3, C1. destruct (m_finder l !! d) as [tok|] eqn:E; [left; eauto|].
        destruct Hd as [[? Hd]|[Hscan Hd]]; [discriminate|]. rewrite Hscan. cbn [andb].
        apply elem_of_cons in Hd as [Hd|Hd].
        -- injection Hd as ->. rewrite bool_decide_eq_true_2 by reflexivity. left. eauto.
        -- right. split; [reflexivity|exact Hd].
      * intros Hk. apply H4. apply (handle_keyed (ev_deviceConnected d0) l Hk).
    + destruct (IH (deviceDisconnected true l d0)) as (H1 & H2 & H3 & H4).
      cbn [deviceDisconnected negb m_scanningEnabled m_runLoopBlocks m_finder] in *.
      split; [exact H1|]. split; [exact H2|]. split.
      * intros d Hd Hnr. apply H3; [|intros Hc; apply Hnr; right; exact Hc].
        assert (d <> d0) as Hne by (intros ->; apply Hnr; left).
        unfold _removeToken. rewrite lookup_delete_ne by congruence.
        destruct Hd as [Hd|[Hscan Hd]]; [left; exact Hd|]. right. split; [exact Hscan|].
        apply elem_of_cons in Hd as [Hd|Hd]; [discriminate Hd|exact Hd].
      * intros Hk. apply H4. apply (handle_keyed (ev_deviceDisconnected true d0) l Hk).
Qed.

(** X10.  Creating the listener.  If [IOHIDManagerOpen] does not return
    success the constructor throws and nothing has touched the finder.
    Otherwise it turns the run loop once with scanning enabled and disables
    scanning again: the listener it returns has scanning disabled and no
    removal queued, so a device connected later is ignored until
    [startScanning]; every device that was matched during that turn and not
    removed in it has a token; a finder keyed by handle stays keyed. *)
Theorem IHIDListenerNew_initial_sweep_then_scanning_disabled :
  forall (finder : gmap N CDeviceToken) (ret : Z) (pending : list Pending),
    (ret <> 0%Z -> IHIDListenerNew finder ret pending = None)
    /\ (ret = 0%Z ->
        exists listener,
          IHIDListenerNew finder ret pending = Some listener
          /\ m_scanningEnabled listener = false
          /\ m_runLoopBlocks listener = []
          /\ (forall d, deviceConnected listener d = listener)
          /\ (forall d, matched d ∈ pending -> removed d ∉ pending ->
                is_Some (m_finder listener !! d))
          /\ (forall d tok, finder !! d = Some tok -> removed d ∉ pending ->
                is_Some (m_finder listener !! d))
          /\ (finder_keyed finder -> finder_keyed (m_finder listener))).
Proof.
  intros finder ret pending. unfold IHIDListenerNew. split.
  - intros Hret. destruct (Z.eqb_spec ret 0); [contradiction|reflexivity].
  - intros ->. cbn [Z.eqb negb]. eexists. split; [reflexivity|].
    cbn [m_scanningEnabled m_runLoopBlocks m_finder]. unfold CFRunLoopRunInMode.
    destruct (pending_fold pending (mkListener finder true [])) as (H1 & H2 & H3 & H4).
    cbn zeta in H1, H2, H3, H4. cbn [m_scanningEnabled m_runLoopBlocks m_finder] in H1, H2, H3, H4.
    match goal with |- context [run_loop_tick ?x] => set (l1 := x) in * end.
    destruct (run_loop_tick_spec l1) as (T1 & T2 & T3).
    assert (forall h, m_finder (run_loop_tick l1) !! h = m_finder l1 !! h) as Hsame.
    { intros h. rewrite T3, H2. rewrite bool_decide_eq_false_2 by apply not_elem_of_nil.
      reflexivity. }
    split; [reflexivity|]. split; [exact T2|]. split; [intros d; reflexivity|].
    split; [|split].
    + intros d Hm Hr. rewrite Hsame. apply H3; [right; split; [reflexivity|exact Hm]|exact Hr].
    + intros d tok Hd Hr. rewrite Hsame. apply H3; [left; eauto|exact Hr].
    + intros Hk h tok. rewrite Hsame. apply H4, Hk.
Qed.

End ListenerMore.

(** ** Tokens: forwarding and conservation *)

Section TokenMore.
Import Gfx.

Ltac look :=
  repeat match goal with
  | H : <[_ := _]> _ !! _ = Some _ |- _ =>
      apply lookup_insert_Some in H as [[? ?]|[? H]]; subst
  | H : delete _ _ !! _ = Some _ |- _ =>
      apply lookup_delete_Some in H as [? H]
  end.

(** X11.  A pool token forwards [newPoolBuffer] and [deletePoolBuffer] to its
    factory exactly when its factory pointer is not null, and then with its
    own factory and pool, whatever the pool pointer is; with a null factory it
    forwards nothing (and [newPoolBuffer] returns null), whatever the pool
    pointer is.  So a token that was default-constructed, moved from, or
    destroyed while it held a pool allocates nothing and frees nothing, and a
    token constructed by move forwards what its source would have.  A token
    with a factory and a null pool is the edge: it converts to false and
    [doDestroy] leaves it alone, yet it still forwards both calls, with the
    null pool. *)
Theorem pool_token_forwards_iff_factory_set :
  forall (tok other : GraphicsBufferPoolToken.t) (f pool stride count buf : N)
         (log log' : FactoryLog),
    let dead (t : GraphicsBufferPoolToken.t) :=
      GraphicsBufferPoolToken.newPoolBuffer t stride count log' = (false, log')
      /\ GraphicsBufferPoolToken.deletePoolBuffer t buf log' = log' in
    let forwards (t : GraphicsBufferPoolToken.t) (f pool : N) :=
      GraphicsBufferPoolToken.newPoolBuffer t stride count log'
      = (true, log' ++ [newPoolBuffer f pool stride count])
      /\ GraphicsBufferPoolToken.deletePoolBuffer t buf log'
         = log' ++ [deletePoolBuffer f pool buf] in
    (GraphicsBufferPoolToken.m_factory tok <> nullptr ->
     forwards tok (GraphicsBufferPoolToken.m_factory tok) (GraphicsBufferPoolToken.m_pool tok))
    /\ (GraphicsBufferPoolToken.m_factory tok = nullptr -> dead tok)
    /\ ((GraphicsBufferPoolToken.newPoolBuffer tok stride count log').1 = true
        <-> GraphicsBufferPoolToken.m_factory tok <> nullptr)
    /\ (f <> nullptr -> forwards (GraphicsBufferPoolToken.make f pool) f pool)
    /\ dead (GraphicsBufferPoolToken.make nullptr pool)
    /\ dead GraphicsBufferPoolToken.default
    /\ dead (GraphicsBufferPoolToken.move_construct tok).2
    /\ dead (GraphicsBufferPoolToken.move_assign other tok log).1.2
    /\ (GraphicsBufferPoolToken.to_bool tok = true ->
        dead (GraphicsBufferPoolToken.doDestroy tok log).1)
    /\ GraphicsBufferPoolToken.newPoolBuffer (GraphicsBufferPoolToken.move_construct tok).1
         stride count log'
       = GraphicsBufferPoolToken.newPoolBuffer tok stride count log'
    /\ GraphicsBufferPoolToken.deletePoolBuffer (GraphicsBufferPoolToken.move_construct tok).1
         buf log'
       = GraphicsBufferPoolToken.deletePoolBuffer tok buf log'
    /\ (f <> nullptr ->
        let half := GraphicsBufferPoolToken.make f nullptr in
        GraphicsBufferPoolToken.to_bool half = false
        /\ GraphicsBufferPoolToken.doDestroy half log = (half, log)
        /\ forwards half f nullptr).
Proof.
  intros [tf tp] [tf' tp'] f pool stride count buf log log'. cbn zeta.
  unfold GraphicsBufferPoolToken.newPoolBuffer, GraphicsBufferPoolToken.deletePoolBuffer,
    GraphicsBufferPoolToken.make.
  cbn [GraphicsBufferPoolToken.m_factory GraphicsBufferPoolToken.m_pool].
  split.
  { intros Hf. apply nonnull_true in Hf. rewrite Hf. split; reflexivity. }
  split.
  { intros ->. split; reflexivity. }
  split.
  { destruct (nonnull tf) eqn:Hf; cbn [fst].
    - apply nonnull_true in Hf. tauto.
    - apply nonnull_false in Hf. split; [discriminate|]. intros H. contradiction. }
  split.
  { intros Hf. apply nonnull_true in Hf. rewrite Hf. split; reflexivity. }
  split; [split; reflexivity|].
  split; [split; reflexivity|]. split; [split; reflexivity|].
  split.
  { unfold GraphicsBufferPoolToken.move_assign, GraphicsBufferPoolToken.doDestroy.
    cbn. destruct (nonnull tf' && nonnull tp'); split; reflexivity. }
  split.
  { unfold GraphicsBufferPoolToken.to_bool, GraphicsBufferPoolToken.doDestroy. cbn.
    intros ->. split; reflexivity. }
  split; [reflexivity|]. split; [reflexivity|].
  intros Hf. apply nonnull_true in Hf.
  unfold GraphicsBufferPoolToken.to_bool, GraphicsBufferPoolToken.doDestroy.
  cbn. rewrite Hf. cbn. repeat split.
Qed.

Lemma destroy_effect K (tok : tc_T K) (log : FactoryLog) :
  TokenClass_ok K ->
  (tc_doDestroy K tok log).2
  = log ++ match tc_held K tok with Some (f, d) => [tc_call K f d] | None => [] end
  /\ tc_held K (tc_doDestroy K tok log).1 = None.
Proof.
  intros (Hdef & Hdes & _). rewrite Hdes.
  destruct (tc_held K tok) as [[f d]|] eqn:E; cbn [fst snd].
  - split; [reflexivity|exact Hdef].
  - split; [symmetry; apply app_nil_r|exact E].
Qed.

Lemma accounted_after_destroy K (h h' : gmap nat (tc_T K)) (log : FactoryLog)
    (x : nat) (tx : tc_T K) :
  TokenClass_ok K -> h !! x = Some tx ->
  (forall z tz g, h' !! z = Some tz -> tc_held K tz = Some g ->
     exists z' tz', h !! z' = Some tz' /\ tc_held K tz' = Some g) ->
  (forall z tz g, h !! z = Some tz -> tc_held K tz = Some g -> z <> x ->
     exists z' tz', h' !! z' = Some tz' /\ tc_held K tz' = Some g) ->
  forall g, accounted K (h', (tc_doDestroy K tx log).2) g <-> accounted K (h, log) g.
Proof.
  intros HK Hx Hback Hfwd g. pose proof HK as (_ & _ & _ & _ & _ & Hinj).
  destruct (destroy_effect K tx log HK) as [Hlog _]. unfold accounted. cbn [fst snd].
  rewrite Hlog. split.
  - intros [(z & tz & Hz & Hg)|Hin].
    + left. eapply Hback; eassumption.
    + apply elem_of_app in Hin as [Hin|Hin]; [right; exact Hin|].
      destruct (tc_held K tx) as [[f d]|] eqn:E.
      * apply list_elem_of_singleton in Hin. apply Hinj in Hin as [Hf Hd].
        left. exists x, tx. split; [exact Hx|]. rewrite E. destruct g; cbn in *. congruence.
      * apply elem_of_nil in Hin. contradiction.
  - intros [(z & tz & Hz & Hg)|Hin].
    + destruct (decide (z = x)) as [->|Hne].
      * right. apply elem_of_app. right. rewrite Hx in Hz. injection Hz as <-.
        rewrite Hg. destruct g. apply list_elem_of_singleton. reflexivity.
      * left. eapply Hfwd; eassumption.
    + right. apply elem_of_app. left. exact Hin.
Qed.

Lemma exec_accounted K (op : TokenOp) (st : gmap nat (tc_T K) * FactoryLog) :
  TokenClass_ok K -> forall g, accounted K (exec K op st) g <-> accounted K st g.
Proof.
  intros HK g. destruct st as [h log].
  pose proof HK as (Hdef & Hdes & Hmc & Hma & Hself & Hinj).
  destruct op as [x|x y|x y|x|x]; unfold exec; cbn [fst snd].
  - destruct (h !! x) eqn:Hx; [reflexivity|]. unfold accounted. cbn [fst snd]. split.
    + intros [(z & tz & Hz & Hg)|Hin]; [|right; exact Hin]. look; [congruence|].
      left. eauto.
    + intros [(z & tz & Hz & Hg)|Hin]; [|right; exact Hin]. left. exists z, tz.
      split; [|exact Hg]. rewrite lookup_insert_ne; [exact Hz|]. congruence.
  - destruct (h !! x) eqn:Hx; [reflexivity|].
    destruct (h !! y) as [ty|] eqn:Hy; [|reflexivity].
    rewrite Hmc. cbn [fst snd]. unfold accounted. cbn [fst snd]. split.
    + intros [(z & tz & Hz & Hg)|Hin]; [|right; exact Hin]. look; try congruence; left; eauto.
    + intros [(z & tz & Hz & Hg)|Hin]; [|right; exact Hin]. left.
      destruct (decide (z = y)) as [->|Hne].
      * exists x, tz. rewrite lookup_insert_eq. split; [congruence|exact Hg].
      * exists z, tz. split; [|exact Hg].
        rewrite !lookup_insert_ne; [exact Hz|congruence|congruence].
  - destruct (h !! x) as [tx|] eqn:Hx; [|reflexivity].
    destruct (h !! y) as [ty|] eqn:Hy; [|reflexivity].
    destruct (decide (x = y)) as [->|Hxy].
    + rewrite Hself. cbn [fst snd]. apply (accounted_after_destroy K h _ log y tx HK Hx).
      * intros z tz g' Hz Hg. look; [congruence|eauto].
      * intros z tz g' Hz Hg Hne. exists z, tz. split; [|exact Hg].
        rewrite lookup_insert_ne; [exact Hz|congruence].
    + rewrite Hma. cbn [fst snd]. apply (accounted_after_destroy K h _ log x tx HK Hx).
      * intros z tz g' Hz Hg. look; try congruence; eauto.
      * intros z tz g' Hz Hg Hne. destruct (decide (z = y)) as [->|Hney].
        -- exists x, tz. rewrite lookup_insert_eq. split; [congruence|exact Hg].
        -- exists z, tz. split; [|exact Hg].
           rewrite !lookup_insert_ne; [exact Hz|congruence|congruence].
  - destruct (h !! x) as [tx|] eqn:Hx; [|reflexivity].
    destruct (destroy_effect K tx log HK) as [_ Hnone].
    apply (accounted_after_destroy K h _ log x tx HK Hx).
    + intros z tz g' Hz Hg. look; [congruence|eauto].
    + intros z tz g' Hz Hg Hne. exists z, tz. split; [|exact Hg].
      rewrite lookup_insert_ne; [exact Hz|congruence].
  - destruct (h !! x) as [tx|] eqn:Hx; [|reflexivity].
    apply (accounted_after_destroy K h _ log x tx HK Hx).
    + intros z tz g' Hz Hg. look. eauto.
    + intros z tz g' Hz Hg Hne. exists z, tz. split; [|exact Hg].
      rewrite lookup_delete_ne; [exact Hz|congruence].
Qed.

Lemma exec_all_accounted K (ops : list TokenOp) (st : gmap nat (tc_T K) * FactoryLog) :
  TokenClass_ok K -> forall g, accounted K (exec_all K ops st) g <-> accounted K st g.
Proof.
  intros HK g. unfold exec_all. revert st.
  induction ops as [|op ops IH]; intros st; [reflexivity|].
  cbn [fold_left]. rewrite IH. apply exec_accounted, HK.
Qed.

(** X12.  Tokens lose no group.  Over any program of token statements, on
    both token classes, a group is owned by a live token or destroyed at the
    end exactly when it was owned or destroyed at the start.  In particular,
    once every token has reached the end of its life, each group that a token
    owned at the start has been handed to the factory's [destroyData]
    ([destroyPool]). *)
Theorem token_programs_lose_no_group :
  (forall ops st g,
     accounted DataTokens (exec_all DataTokens ops st) g <-> accounted DataTokens st g)
  /\ (forall ops st g,
     accounted PoolTokens (exec_all PoolTokens ops st) g <-> accounted PoolTokens st g)
  /\ (forall ops st x tok f d,
     (exec_all DataTokens ops st).1 = ∅ ->
     st.1 !! x = Some tok -> tc_held DataTokens tok = Some (f, d) ->
     destroyData f d ∈ (exec_all DataTokens ops st).2)
  /\ (forall ops st x tok f p,
     (exec_all PoolTokens ops st).1 = ∅ ->
     st.1 !! x = Some tok -> tc_held PoolTokens tok = Some (f, p) ->
     destroyPool f p ∈ (exec_all PoolTokens ops st).2).
Proof.
  split; [intros; apply exec_all_accounted, DataTokens_ok|].
  split; [intros; apply exec_all_accounted, PoolTokens_ok|].
  split.
  - intros ops st x tok f d Hempty Hx Hheld.
    assert (accounted DataTokens (exec_all DataTokens ops st) (f, d)) as [(z & tz & Hz & _)|Hin].
    { apply exec_all_accounted; [apply DataTokens_ok|]. left. eauto. }
    + rewrite Hempty, lookup_empty in Hz. discriminate Hz.
    + exact Hin.
  - intros ops st x tok f p Hempty Hx Hheld.
    assert (accounted PoolTokens (exec_all PoolTokens ops st) (f, p)) as [(z & tz & Hz & _)|Hin].
    { apply exec_all_accounted; [apply PoolTokens_ok|]. left. eauto. }
    + rewrite Hempty, lookup_empty in Hz. discriminate Hz.
    + exact Hin.
Qed.

End TokenMore.

(** ** Channel levels *)

Section SendFacts.
Import Audio.
Context `{W : World} `{MX : Matrices}.

Lemma send_of_app {Mtx} (key : SubmixPtr) (l1 l2 : list (SubmixPtr * Mtx)) :
  send_of key (l1 ++ l2)
  = match send_of key l1 with Some m => Some m | None => send_of key l2 end.
Proof.
  unfold send_of. induction l1 as [|e l1 IH]; [reflexivity|]. cbn [find app].
  destruct (bool_decide (e.1 = key)); [reflexivity|]. exact IH.
Qed.

Lemma send_of_none_existsb {Mtx} (key : SubmixPtr) (l : list (SubmixPtr * Mtx)) :
  existsb (fun e => bool_decide (e.1 = key)) l = match send_of key l with Some _ => true | None => false end.
Proof.
  unfold send_of. induction l as [|e l IH]; [reflexivity|]. cbn [existsb find].
  destruct (bool_decide (e.1 = key)); [reflexivity|]. exact IH.
Qed.

Lemma send_of_map {Mtx} (key k : SubmixPtr) (f : Mtx -> Mtx) (l : list (SubmixPtr * Mtx)) :
  send_of k (map (fun e => if bool_decide (e.1 = key) then (e.1, f e.2) else e) l)
  = if bool_decide (k = key) then f <$> send_of k l else send_of k l.
Proof.
  unfold send_of. induction l as [|[p m] l IH]; cbn [map find fst snd].
  - destruct (bool_decide (k = key)); reflexivity.
  - destruct (decide (p = key)) as [->|Hp].
    + rewrite (bool_decide_eq_true_2 (key = key)) by reflexivity. cbn [fst].
      destruct (decide (k = key)) as [->|Hk].
      * rewrite !bool_decide_eq_true_2 by reflexivity. reflexivity.
      * rewrite (bool_decide_eq_false_2 (key = k)) by congruence.
        rewrite (bool_decide_eq_false_2 (k = key)) in * by exact Hk. exact IH.
    + rewrite (bool_decide_eq_false_2 (p = key)) by exact Hp. cbn [fst].
      destruct (decide (p = k)) as [->|Hpk].
      * rewrite (bool_decide_eq_true_2 (k = k)) by reflexivity.
        rewrite (bool_decide_eq_false_2 (k = key)) by exact Hp. reflexivity.
      * rewrite (bool_decide_eq_false_2 (p = k)) by exact Hpk. exact IH.
Qed.

Lemma map_fst_sends {Mtx} (key : SubmixPtr) (f : Mtx -> Mtx) (l : list (SubmixPtr * Mtx)) :
  map fst (map (fun e => if bool_decide (e.1 = key) then (e.1, f e.2) else e) l) = map fst l.
Proof.
  rewrite map_map. apply map_ext. intros [p m]. cbn [fst snd].
  destruct (bool_decide (p = key)); reflexivity.
Qed.

Lemma send_of_none_notin {Mtx} (key : SubmixPtr) (l : list (SubmixPtr * Mtx)) :
  send_of key l = None -> ~ In key (map fst l).
Proof.
  unfold send_of. induction l as [|[p m] l IH]; [intros _ []|]. cbn [find map fst In].
  destruct (decide (p = key)) as [->|Hp].
  - rewrite bool_decide_eq_true_2 by reflexivity. discriminate.
  - rewrite bool_decide_eq_false_2 by exact Hp. intros H [Hc|Hc]; [contradiction|].
    exact (IH H Hc).
Qed.

(** Whatever ranks the container gives, an entry is found under its key
    after the placement exactly as before, and no entry is lost or made. *)
Lemma send_of_insert_ranked {Mtx} (rank : SubmixPtr -> N) (k : SubmixPtr)
    (e : SubmixPtr * Mtx) (l : list (SubmixPtr * Mtx)) :
  send_of k (insert_ranked rank e l) = send_of k (e :: l).
Proof.
  unfold send_of. induction l as [|e' l IH]; [reflexivity|]. cbn [insert_ranked].
  destruct (N.leb_spec (rank e.1) (rank e'.1)) as [Hle|Hlt]; [reflexivity|].
  cbn [find] in *.
  destruct (decide (e'.1 = k)) as [He'|He'].
  - rewrite (bool_decide_eq_true_2 _ He').
    destruct (decide (e.1 = k)) as [He|He].
    + exfalso. rewrite He, <- He' in Hlt. lia.
    + rewrite (bool_decide_eq_false_2 _ He). reflexivity.
  - rewrite (bool_decide_eq_false_2 _ He'). rewrite IH.
    destruct (bool_decide (e.1 = k)); reflexivity.
Qed.

Lemma send_of_ranked {Mtx} (rank : SubmixPtr -> N) (k : SubmixPtr)
    (l : list (SubmixPtr * Mtx)) :
  send_of k (foldr (insert_ranked rank) [] l) = send_of k l.
Proof.
  induction l as [|e l IH]; [reflexivity|]. cbn [foldr].
  rewrite send_of_insert_ranked. unfold send_of in *. cbn [find].
  destruct (bool_decide (e.1 = k)); [reflexivity|exact IH].
Qed.

Lemma insert_ranked_perm {Mtx} (rank : SubmixPtr -> N) (e : SubmixPtr * Mtx)
    (l : list (SubmixPtr * Mtx)) :
  insert_ranked rank e l ≡ₚ e :: l.
Proof.
  induction l as [|e' l IH]; [reflexivity|]. cbn [insert_ranked].
  destruct (rank e.1 <=? rank e'.1); [reflexivity|].
  rewrite IH. apply Permutation_swap.
Qed.

Lemma ranked_perm {Mtx} (rank : SubmixPtr -> N) (l : list (SubmixPtr * Mtx)) :
  foldr (insert_ranked rank) [] l ≡ₚ l.
Proof.
  induction l as [|e l IH]; [reflexivity|]. cbn [foldr].
  rewrite insert_ranked_perm, IH. reflexivity.
Qed.

Lemma sends_update_spec {Mtx} (tr : list Event) (key : SubmixPtr) (fresh : Mtx) (f : Mtx -> Mtx)
    (sends : list (SubmixPtr * Mtx)) :
  let sends' := sends_update tr key fresh f sends in
  send_of key sends' = Some (f (default fresh (send_of key sends)))
  /\ (forall k, k <> key -> send_of k sends' = send_of k sends)
  /\ (NoDup (map fst sends) -> NoDup (map fst sends'))
  /\ length sends' = match send_of key sends with
                   | Some _ => length sends
                   | None => S (length sends)
                   end.
Proof.
  cbn zeta. unfold sends_update, emplace. rewrite send_of_none_existsb.
  destruct (send_of key sends) as [m|] eqn:E.
  - split; [|split; [|split]].
    + rewrite send_of_map, bool_decide_eq_true_2 by reflexivity. rewrite E. reflexivity.
    + intros k Hk. rewrite send_of_map, bool_decide_eq_false_2 by exact Hk. reflexivity.
    + rewrite map_fst_sends. tauto.
    + rewrite length_map. reflexivity.
  - cbn zeta. set (rank := send_order tr (map fst (sends ++ [(key, fresh)]))).
    split; [|split; [|split]].
    + rewrite send_of_map, bool_decide_eq_true_2 by reflexivity.
      rewrite send_of_ranked, send_of_app, E. unfold send_of. cbn [find fst].
      rewrite bool_decide_eq_true_2 by reflexivity. reflexivity.
    + intros k Hk. rewrite send_of_map, bool_decide_eq_false_2 by exact Hk.
      rewrite send_of_ranked, send_of_app. destruct (send_of k sends); [reflexivity|].
      unfold send_of. cbn [find fst]. rewrite bool_decide_eq_false_2 by congruence. reflexivity.
    + rewrite map_fst_sends. intros Hnd.
      rewrite (ranked_perm rank (sends ++ [(key, fresh)])).
      rewrite map_app. cbn [map fst].
      apply NoDup_app. split; [exact Hnd|]. split; [|apply NoDup_singleton].
      intros x Hx Hx'. apply list_elem_of_singleton in Hx'. subst x.
      apply list_elem_of_In in Hx. exact (send_of_none_notin key sends E Hx).
    + rewrite length_map, (ranked_perm rank (sends ++ [(key, fresh)])), length_app.
      cbn [length]. lia.
Qed.

Lemma sets_levels_intro {Mtx} (tr : list Event) (key : SubmixPtr) (fresh : Mtx) (f : Mtx -> Mtx)
    (s : State Mtx) :
  sets_levels fresh f key s
    (mkState (set_m_sendMatrices (sends_update tr key fresh f (m_sendMatrices (this s))) (this s))
       (m_root s) (DefaultMonoMtx s) (DefaultStereoMtx s) (trace s)).
Proof.
  unfold sets_levels. cbn [this m_sendMatrices set_m_sendMatrices].
  split; [reflexivity|]. apply sends_update_spec.
Qed.

(** X13.  Setting channel levels touches the send map of the voice and nothing
    else; in particular it does not mark the submixes dirty.  A null submix
    means the main submix.  The entry of the submix gets the coefficients (a
    new matrix is made first if the submix had none, growing the map by one),
    every other entry is as it was, and the keys stay distinct.  A mono voice
    given stereo levels takes the left column; a stereo voice given mono levels
    uses each level for both columns.  The slew length is [m_5msFrames] when
    [slew] is set, else 0.  [resetChannelLevels] empties the map and marks the
    submixes dirty. *)
Theorem channel_levels_update_one_send :
  forall (submix : option SubmixPtr) (mono : list float) (stereo : list (float * float))
         (slew : bool),
    let key := default MainSubmix submix in
    (forall s : State AudioMatrixMono,
       let len := if slew then m_5msFrames (m_root s) else 0 in
       sets_levels AudioMatrixMono_new (setMatrixCoefficientsMono mono len) key s
         (AudioVoiceMono_setMonoChannelLevels submix mono slew s).2
       /\ sets_levels AudioMatrixMono_new (setMatrixCoefficientsMono (map fst stereo) len) key s
            (AudioVoiceMono_setStereoChannelLevels submix stereo slew s).2
       /\ (AudioVoiceMono_resetChannelLevels s).2
          = mkState (set_m_sendMatrices [] (this s)) (set_submixesDirty true (m_root s))
              (DefaultMonoMtx s) (DefaultStereoMtx s) (trace s))
    /\ (forall s : State AudioMatrixStereo,
       let len := if slew then m_5msFrames (m_root s) else 0 in
       sets_levels AudioMatrixStereo_new
         (setMatrixCoefficientsStereo (map (fun c => (c, c)) mono) len) key s
         (AudioVoiceStereo_setMonoChannelLevels submix mono slew s).2
       /\ sets_levels AudioMatrixStereo_new (setMatrixCoefficientsStereo stereo len) key s
            (AudioVoiceStereo_setStereoChannelLevels submix stereo slew s).2
       /\ (AudioVoiceStereo_resetChannelLevels s).2
          = mkState (set_m_sendMatrices [] (this s)) (set_submixesDirty true (m_root s))
              (DefaultMonoMtx s) (DefaultStereoMtx s) (trace s)).
Proof.
  intros submix mono stereo slew key. split.
  - intros s len. split; [|split].
    + destruct submix; apply sets_levels_intro.
    + destruct submix; apply sets_levels_intro.
    + reflexivity.
  - intros s len. split; [|split].
    + destruct submix; apply sets_levels_intro.
    + destruct submix; apply sets_levels_intro.
    + reflexivity.
Qed.

End SendFacts.

(** ** The routing block of a pump *)

Section PumpMore.
Import Audio.
Context `{W : World} `{MX : Matrices}.

Lemma pump_route_nothing {A Mtx} (F : Format A) (C : VoiceClass Mtx) (dt : float) (s : State Mtx) :
  pump_route F C 0 dt s = (tt, s).
Proof. reflexivity. Qed.

Lemma pumpAndMix_idles {A Mtx} (F : Format A) (C : VoiceClass Mtx) (x_pre x_post : Scratch)
    (samples_of resize_to : N -> N) :
  Format_ok F x_pre x_post -> VoiceClass_ok C ->
  idles_without_output F C samples_of resize_to.
Proof.
  intros HF HC frames s. cbn zeta. intros H0.
  destruct (pump_prepare_effect F C x_pre x_post samples_of resize_to frames s HF HC)
    as (_ & _ & _ & _ & _ & _ & _ & _ & Hsub & Hm & Hs).
  destruct (pump_resample_effect F C x_pre x_post frames
              (pump_prepare F C samples_of resize_to frames s).2 HF HC) as [Hq _].
  cbn zeta in Hq. destruct Hq as (_ & Hsub' & Hm' & Hs').
  split; [|split; [|split]].
  - unfold pumpAndMix, bind.
    destruct (pump_prepare F C samples_of resize_to frames s) as [dt s1].
    cbn [fst snd] in *. destruct (pump_resample F C frames s1) as [oDone s3].
    cbn [fst snd] in *. subst oDone. reflexivity.
  - destruct Hsub as [Ha Hb], Hsub' as [Ha' Hb']. split; congruence.
  - congruence.
  - congruence.
Qed.

(** X14.  A pump whose [soxr_output] call delivers no frame returns 0 and
    does nothing after that call: no [routeAudio], no mixing.  Every submix,
    the main one included, and both default matrices are as they were when the
    pump began.  This holds for the six [pumpAndMix] members. *)
Theorem pump_without_output_mixes_nothing :
  idles_without_output Fmt16 Mono (fun frames => frames) (fun samples => samples)
  /\ idles_without_output Fmt32 Mono (fun frames => frames) (fun samples => samples)
  /\ idles_without_output FmtFlt Mono (fun frames => frames)
       (fun samples => size_t_add samples 2)
  /\ idles_without_output Fmt16 Stereo (fun frames => size_t_mul frames 2)
       (fun samples => samples)
  /\ idles_without_output Fmt32 Stereo (fun frames => size_t_mul frames 2)
       (fun samples => samples)
  /\ idles_without_output FmtFlt Stereo (fun frames => size_t_mul frames 2)
       (fun samples => size_t_add samples 4).
Proof.
  split; [exact (pumpAndMix_idles _ _ _ _ _ _ Fmt16_ok Mono_ok)|].
  split; [exact (pumpAndMix_idles _ _ _ _ _ _ Fmt32_ok Mono_ok)|].
  split; [exact (pumpAndMix_idles _ _ _ _ _ _ FmtFlt_ok Mono_ok)|].
  split; [exact (pumpAndMix_idles _ _ _ _ _ _ Fmt16_ok Stereo_ok)|].
  split; [exact (pumpAndMix_idles _ _ _ _ _ _ Fmt32_ok Stereo_ok)|].
  exact (pumpAndMix_idles _ _ _ _ _ _ FmtFlt_ok Stereo_ok).
Qed.


Lemma list_omap_ext_pointwise {X Y} (f g : X -> option Y) (l : list X) :
  (forall x, f x = g x) -> omap f l = omap g l.
Proof.
  intros H. induction l as [|x l IH]; [reflexivity|].
  change (omap f (x :: l)) with (match f x with Some y => y :: omap f l | None => omap f l end).
  change (omap g (x :: l)) with (match g x with Some y => y :: omap g l | None => omap g l end).
  rewrite H, IH. reflexivity.
Qed.

Lemma list_omap_cons {X Y} (f : X -> option Y) (x : X) (l : list X) :
  omap f (x :: l) = match f x with Some y => y :: omap f l | None => omap f l end.
Proof. reflexivity. Qed.










End PumpMore.

(** ** Rebuilding the resampler *)

Section ResetMore.
Import Audio.
Context `{W : World} `{MX : Matrices}.

Ltac run_monad :=
  unfold Log_report_Fatal, bind, ret, get_this, get_root, get_trace, upd_this, upd_root, emit;
  cbn [fst snd this m_root trace DefaultMonoMtx DefaultStereoMtx].

(** X16.  Rebuilding the resampler.  [_resetSampleRate] deletes the old
    handle, asks libsoxr for a new one at the mix rate and format, and stores
    what it gets as [m_src] in every case; the reset request is cleared in
    every case.  If the creation failed (the mono voice looks at the error, the
    stereo voice at the handle being null), a fatal message is logged and that
    is all: both rates and a pending pitch ratio request are left as they were,
    and no input function is set.  Otherwise the rates become the new input
    rate and the mix rate, the input function is set, and the pitch ratio the
    voice holds is applied at once without slew, on a dynamic-rate voice by one
    [soxr_set_io_ratio] call with slew length 0; a pending pitch ratio request
    is thereby cleared and its slew flag is not used. *)
Theorem resetSampleRate_keeps_rates_on_failure :
  (forall (rate : float) (s : State AudioMatrixMono),
     let v := this s in
     let rateOut := m_sampleRate (m_mixInfo (m_root s)) in
     let fmt := m_sampleFormat (m_mixInfo (m_root s)) in
     let tr1 := trace s ++ [ev_soxr_delete (m_src v)] in
     let made := soxr_create tr1 rate rateOut 1 fmt (m_dynamicRate v) in
     let tr2 := tr1 ++ [ev_soxr_create rate rateOut 1 fmt (m_dynamicRate v)] in
     let s' := (AudioVoiceMono_resetSampleRate rate s).2 in
     m_src (this s') = made.1
     /\ m_resetSampleRate (this s') = false
     /\ m_root s' = m_root s
     /\ match made.2 with
        | Some msg =>
            this s' = set_m_resetSampleRate false (set_m_src made.1 v)
            /\ trace s' = tr2 ++ [ev_Log_report_Fatal ("unable to create soxr resampler: " +:+ msg)]
        | None =>
            m_sampleRateIn (this s') = rate
            /\ m_sampleRateOut (this s') = rateOut
            /\ m_setPitchRatio (this s') = false
            /\ exists rest,
                 trace s' = tr2 ++ ev_soxr_set_input_fn made.1 1 :: rest
                 /\ (m_dynamicRate v = false -> rest = [])
                 /\ (m_dynamicRate v = true ->
                     exists log,
                       rest = ev_soxr_set_io_ratio made.1
                                (PrimFloat.div (PrimFloat.mul (m_pitchRatio v) rate) rateOut) 0
                              :: log
                       /\ Forall (fun e => is_ratio_event e = false
                                           /\ is_reset_event e = false) log)
        end)
  /\ (forall (rate : float) (s : State AudioMatrixStereo),
     let v := this s in
     let rateOut := m_sampleRate (m_mixInfo (m_root s)) in
     let fmt := m_sampleFormat (m_mixInfo (m_root s)) in
     let tr1 := trace s ++ [ev_soxr_delete (m_src v)] in
     let made := soxr_create tr1 rate rateOut 2 fmt (m_dynamicRate v) in
     let tr2 := tr1 ++ [ev_soxr_create rate rateOut 2 fmt (m_dynamicRate v)] in
     let s' := (AudioVoiceStereo_resetSampleRate rate s).2 in
     m_src (this s') = made.1
     /\ m_resetSampleRate (this s') = false
     /\ m_root s' = m_root s
     /\ if nonnull made.1 then
          m_sampleRateIn (this s') = rate
          /\ m_sampleRateOut (this s') = rateOut
          /\ m_setPitchRatio (this s') = false
          /\ exists rest,
               trace s' = tr2 ++ ev_soxr_set_input_fn made.1 2 :: rest
               /\ (m_dynamicRate v = false -> rest = [])
               /\ (m_dynamicRate v = true ->
                   exists log,
                     rest = ev_soxr_set_io_ratio made.1
                              (PrimFloat.div (PrimFloat.mul (m_pitchRatio v) rate) rateOut) 0
                            :: log
                     /\ Forall (fun e => is_ratio_event e = false
                                         /\ is_reset_event e = false) log)
        else
          this s' = set_m_resetSampleRate false (set_m_src made.1 v)
          /\ trace s' = tr2 ++ [ev_Log_report_Fatal
                                  ("unable to create soxr resampler: " +:+ default "" made.2)]).
Proof.
  split.
  - intros rate [v r dm ds tr]. cbn zeta. unfold AudioVoiceMono_resetSampleRate. run_monad.
    destruct (soxr_create (tr ++ [ev_soxr_delete (m_src v)]) rate (m_sampleRate (m_mixInfo r)) 1
                (m_sampleFormat (m_mixInfo r)) (m_dynamicRate v)) as [src err] eqn:Ecreate.
    run_monad. destruct err as [msg|]; run_monad.
    + destruct v; cbn. repeat (split; [reflexivity|]). split; reflexivity.
    + unfold _setPitchRatio. run_monad. destruct v as [cb dyn src0 rin rout rf dr pf pr sl run bd so sm].
      cbn [m_dynamicRate set_m_sampleRateOut set_m_sampleRateIn set_m_src m_src m_pitchRatio
           m_sampleRateIn m_sampleRateOut m_cb] in *.
      destruct dyn; run_monad.
      * match goal with
        | |- context [soxr_set_io_ratio ?a ?b ?c ?d] => destruct (soxr_set_io_ratio a b c d)
        end; run_monad; cbn;
          (split; [reflexivity|]; split; [reflexivity|]; split; [reflexivity|];
           split; [reflexivity|]; split; [reflexivity|]; split; [reflexivity|]);
          eexists; (split; [rewrite <- ?app_assoc; cbn [app]; reflexivity|]);
          (split; [discriminate|]); intros _; eexists; (split; [reflexivity|]);
          repeat constructor.
      * cbn. split; [reflexivity|]. split; [reflexivity|]. split; [reflexivity|].
        split; [reflexivity|]. split; [reflexivity|]. split; [reflexivity|].
        exists []. split; [rewrite <- ?app_assoc; reflexivity|]. split; [reflexivity|discriminate].
  - intros rate [v r dm ds tr]. cbn zeta. unfold AudioVoiceStereo_resetSampleRate. run_monad.
    destruct (soxr_create (tr ++ [ev_soxr_delete (m_src v)]) rate (m_sampleRate (m_mixInfo r)) 2
                (m_sampleFormat (m_mixInfo r)) (m_dynamicRate v)) as [src err] eqn:Ecreate.
    run_monad. destruct (nonnull src) eqn:Esrc; cbn [negb]; run_monad.
    + unfold _setPitchRatio. run_monad. destruct v as [cb dyn src0 rin rout rf dr pf pr sl run bd so sm].
      cbn [m_dynamicRate set_m_sampleRateOut set_m_sampleRateIn set_m_src m_src m_pitchRatio
           m_sampleRateIn m_sampleRateOut m_cb] in *.
      destruct dyn; run_monad.
      * match goal with
        | |- context [soxr_set_io_ratio ?a ?b ?c ?d] => destruct (soxr_set_io_ratio a b c d)
        end; run_monad; cbn;
          (split; [reflexivity|]; split; [reflexivity|]; split; [reflexivity|];
           split; [reflexivity|]; split; [reflexivity|]; split; [reflexivity|]);
          eexists; (split; [rewrite <- ?app_assoc; cbn [app]; reflexivity|]);
          (split; [discriminate|]); intros _; eexists; (split; [reflexivity|]);
          repeat constructor.
      * cbn. split; [reflexivity|]. split; [reflexivity|]. split; [reflexivity|].
        split; [reflexivity|]. split; [reflexivity|]. split; [reflexivity|].
        exists []. split; [rewrite <- ?app_assoc; reflexivity|]. split; [reflexivity|discriminate].
    + destruct v; cbn. repeat (split; [reflexivity|]). split; reflexivity.
Qed.

End ResetMore.

(** ** Further runs on the sample instances *)

Section ListenerRuns.
Import HID Sample.
Local Existing Instance iokit.

Lemma scanning_disabled_finder_only_shrinks_witness :
  let l0 := mkListener {[ 3 := mkToken 1 2 "m" "p" 3 ]} false [] in
  let evs := [ev_deviceConnected 9; ev_deviceDisconnected false 3;
              ev_stopScanning; ev_run_loop_tick] in
  m_scanningEnabled l0 = false
  /\ Forall (fun ev => opens_scanning ev = false) evs
  /\ m_scanningEnabled (handle_all evs l0) = false
  /\ forall h tok,
       m_finder (handle_all evs l0) !! h = Some tok ->
       m_finder l0 !! h = Some tok.
Proof.
  cbv zeta.
  split; [reflexivity|].
  split; [repeat constructor|].
  apply (@scanning_disabled_finder_only_shrinks iokit);
    [reflexivity | repeat constructor].
Defined.

(** A listener created while devices 4 and 9 are plugged in and 4 is pulled
    during the first turn of the loop; with scanning off a later connect of 7
    is ignored, a manual scan picks it up. *)
Example listener_life :
  match IHIDListenerNew ∅ 0 [matched 4; matched 9; removed 4] with
  | Some l =>
      m_finder l = {[ 9 := mkToken 1406 823 "Nintendo" "WUP-028" 9 ]}
      /\ m_finder (handle_all [ev_deviceConnected 7] l) = m_finder l
      /\ m_finder (handle_all [ev_deviceConnected 7; ev_scanNow [7; 9]] l)
         = {[ 7 := mkToken 1406 823 "Nintendo" "WUP-028" 7;
              9 := mkToken 1406 823 "Nintendo" "WUP-028" 9 ]}
  | None => False
  end.
Proof. vm_compute. repeat split; reflexivity. Qed.

End ListenerRuns.

Section VoiceRuns.
Import Audio Sample.
Local Existing Instance world.
Local Existing Instance matrices.


End VoiceRuns.

Section QueueRuns.
Import Audio AQS Sample.
Local Existing Instance core_audio.

(** Opening the queue on a 5.1 device at 48 kHz: six channels in the order of
    the bitmap, three buffers of 720 frames enqueued, primed and started. *)
Example constructor_on_surround :
  let r := @AQSAudioVoiceEngine_ctor unit audio_toolbox fresh_object [] in
  m_channelMap r.1 = [AudioChannel.FrontLeft; AudioChannel.FrontRight;
                      AudioChannel.FrontCenter; AudioChannel.LFE;
                      AudioChannel.RearLeft; AudioChannel.RearRight]
  /\ m_5msFrames r.1 = 240
  /\ m_frameBytes (AQS.engine r.1) = 17280
  /\ length (m_buffers r.1) = 3%nat
  /\ existsb is_Start r.2 = true.
Proof. vm_compute. repeat split; reflexivity. Qed.

(** The same when the third buffer cannot be allocated: the queue is disposed
    of, the engine keeps no queue and is never started. *)
Example constructor_out_of_buffers :
  let r := @AQSAudioVoiceEngine_ctor unit audio_toolbox_short fresh_object [] in
  m_queue (AQS.engine r.1) = nullptr
  /\ existsb is_Start r.2 = false
  /\ existsb is_Log_report r.2 = true.
Proof. vm_compute. repeat split; reflexivity. Qed.

(** On a device whose period takes 4800000000 bytes the buffers are asked
    for, and enqueued, with what 32 bits keep of that size; [m_frameBytes] and
    the [memset] keep the whole. *)
Example constructor_sizes_are_UInt32 :
  let r := @AQSAudioVoiceEngine_ctor unit audio_toolbox_fast fresh_object [] in
  m_frameBytes (AQS.engine r.1) = 4800000000
  /\ drop 7 r.2
     = [call_AudioQueueAllocateBuffer 106 505032704;
        call_AudioQueueAllocateBuffer 106 505032704;
        call_AudioQueueAllocateBuffer 106 505032704;
        call_memset_zero 207 4800000000; call_AudioQueueEnqueueBuffer 106 207 505032704;
        call_memset_zero 208 4800000000; call_AudioQueueEnqueueBuffer 106 208 505032704;
        call_memset_zero 209 4800000000; call_AudioQueueEnqueueBuffer 106 209 505032704;
        call_AudioQueuePrime 106; call_AudioQueueStart 106; call_MIDIClientCreate].
Proof. vm_compute. split; reflexivity. Qed.

End QueueRuns.
